(** * pynml: the NML object model and its serializer

    A shallow embedding of [lib/pynml/nml.py].

    Python objects are mutable and shared by reference: a [Port] appended to
    the collection of a [Node] is the very object the caller still holds, and
    a later assignment to it is seen by every serialization that reaches it.
    The embedding therefore keeps all objects in a store ([heap]), addressed
    by [addr]; relation collections hold addresses.  Methods that mutate are
    state-passing functions that may raise ([M]).

    [getNML] only reads the objects and builds a fresh markup tree.  It is
    embedded twice: as a recursive function of the store that returns the
    tree ([getNML]), and statement by statement on a store of elements, as
    the methods build it ([getNML_in_place]); the second is proved to build
    what the first returns.  Both take fuel, the depth the recursion may
    reach: the interpreter bounds it by its recursion limit and raises
    [RecursionError] beyond, as it does, whatever the limit, on a cyclic
    object graph; that is the outcome [Diverge] here. *)

From Stdlib Require Import Arith Lia Bool Ascii String.
From stdpp Require Import base list strings option.

Set Warnings "-register-all".

Local Open Scope string_scope.
Local Open Scope list_scope.

(** ** Outcomes of a call *)

(** The exceptions the module raises.  [IdError], [ExistsDuringError],
    [IsAliasError] and [CanProvidePortError] are imported from
    [.exceptions]; [AttributeError] is Python's own, raised when an attribute
    or method is looked up on an object that does not have it.
    [NoSuchObject] belongs to the embedding only: it is the answer for an
    address outside the store, which no Python reference can be. *)
Inductive exn :=
| IdError
| ExistsDuringError
| IsAliasError
| CanProvidePortError
| AttributeError
| NoSuchObject.

(** A call returns a value, raises, or (recursion only) needs more depth
    than the fuel it was given: [Diverge] stands for the [RecursionError]
    of an interpreter whose recursion limit is that fuel, and travels up
    the calls like every exception. *)
Inductive outcome (A : Type) :=
| Ok (a : A)
| Raise (e : exn)
| Diverge.
Arguments Ok {A} a.
Arguments Raise {A} e.
Arguments Diverge {A}.

Definition obind {A B} (r : outcome A) (k : A -> outcome B) : outcome B :=
  match r with
  | Ok a => k a
  | Raise e => Raise e
  | Diverge => Diverge
  end.

Declare Scope outcome_scope.
Delimit Scope outcome_scope with outcome.
Notation "x <- r ;; k" := (obind r (fun x => k))
  (at level 100, r at next level, right associativity) : outcome_scope.
Local Open Scope outcome_scope.

(** A [for] loop whose body may raise: the first exception leaves the loop. *)
Fixpoint ofold {A B} (body : B -> A -> outcome B) (acc : B) (l : list A)
  : outcome B :=
  match l with
  | [] => Ok acc
  | x :: l' => acc' <- body acc x;; ofold body acc' l'
  end.

(** ** The markup tree

    [xml.etree.ElementTree] is an external collaborator.  An element is what
    it keeps of what the module hands to it: the tag, the [attrib]
    dictionary and the children, in insertion order.  The module assigns
    strings to attributes; the one value that is no string is the
    dictionary it passes as the keyword [nsmap], which the library stores as
    an attribute like every other keyword argument. *)
Inductive value :=
| VStr (s : string)
| VDict (d : list (string * string)).

#[global] Instance value_eq_dec : EqDecision value.
Proof. solve_decision. Defined.

Inductive element :=
| Element (tag : string) (attrib : list (string * value))
          (children : list element).

Definition tag (e : element) : string :=
  match e with Element t _ _ => t end.
Definition attrib (e : element) : list (string * value) :=
  match e with Element _ a _ => a end.
Definition children (e : element) : list element :=
  match e with Element _ _ c => c end.

(** [NAMESPACES = {'nml': 'http://schemas.ogf.org/nml/2013/05/base'}] *)
Definition NAMESPACES : list (string * string) :=
  [("nml", "http://schemas.ogf.org/nml/2013/05/base")].

(** [d[k] = v] on a dictionary that keeps insertion order: an existing key
    keeps its place and takes the new value, a new key goes last. *)
Fixpoint dict_set {V} (k : string) (v : V) (d : list (string * V))
  : list (string * V) :=
  match d with
  | [] => [(k, v)]
  | (k', v') :: d' =>
      if String.eqb k k' then (k, v) :: d' else (k', v') :: dict_set k v d'
  end.

(** [d.get(k)] *)
Fixpoint dict_get {V} (k : string) (d : list (string * V)) : option V :=
  match d with
  | [] => None
  | (k', v') :: d' => if String.eqb k k' then Some v' else dict_get k d'
  end.

(** The attributes a new element starts with: the keyword arguments of the
    call.  [Element(tag, attrib={}, **extra)] and [SubElement(parent, tag,
    attrib={}, **extra)] of [xml.etree.ElementTree] make [extra] the
    attributes; [nsmap=ns] therefore gives the element an attribute named
    [nsmap] whose value is the dictionary, and binds no namespace. *)
Definition keywords (ns : option (list (string * string)))
  : list (string * value) :=
  match ns with
  | Some d => [("nsmap", VDict d)]
  | None => []
  end.

(** An element that is in a namespace has the namespace in its tag:
    [xml.etree.ElementTree] names it ["{uri}local"]. *)
Definition qualified (uri local : string) : string :=
  "{" ++ uri ++ "}" ++ local.

(** [etree.Element(tag)] and [etree.Element(tag, nsmap=ns)] *)
Definition etree_Element (t : string) (ns : option (list (string * string)))
  : element := Element t (keywords ns) [].

(** [e.attrib[k] = v], for a string [v] *)
Definition set_attrib (k v : string) (e : element) : element :=
  match e with Element t a c => Element t (dict_set k (VStr v) a) c end.

(** [etree.SubElement(parent, ...)] makes the new element the last child of
    [parent] and returns it; the caller then fills it in place.  In the
    embedding the child is built first and attached, finished, in the
    position [SubElement] gave it. *)
Definition append_child (parent child : element) : element :=
  match parent with Element t a c => Element t a (c ++ [child]) end.

(** The wrapper of the relation-wrapped style:
    [relation = etree.SubElement(this, 'Relation')],
    [relation.attrib['type'] = ty], [x.getNML(relation)]. *)
Definition Relation (ty : string) (child : element) : element :=
  append_child (set_attrib "type" ty (etree_Element "Relation" None)) child.

(** ** The objects

    One record per class, with the attributes the body of its [__init__]
    assigns; [init] is the state those assignments leave.  The properties
    below are about the objects of a store, in whatever state they are: how
    an object came to be there is not part of the embedding. *)

Abbreviation addr := nat.

(** Truth value of an optional string: [None] and [''] are false. *)
Definition truthy (v : option string) : bool :=
  match v with
  | Some s => negb (String.eqb s "")
  | None => false
  end.

(** [if v: this.attrib[k] = v] *)
Definition attrib_if (k : string) (v : option string) (this : element)
  : element :=
  match v with
  | Some s => if truthy v then set_attrib k s this else this
  | None => this
  end.

(** [str(b)] for a Python [bool] *)
Definition str_bool (b : bool) : string := if b then "True" else "False".

(** The attributes [NetworkObject.__init__] assigns ([_kwargs], which nothing
    reads, is left out). *)
Module NetworkObject.
Record t := mk {
  exists_during_lifetimes : list addr;
  is_alias_network_objects : list addr;
  located_at_location : option addr;
  _identification : option string;
  _name : option string;
  _version : option string
}.
Definition init : t := mk [] [] None None None None.
Definition set_exists_during_lifetimes (v : list addr) (x : t) : t :=
  mk v (is_alias_network_objects x) (located_at_location x)
     (_identification x) (_name x) (_version x).
Definition set_is_alias_network_objects (v : list addr) (x : t) : t :=
  mk (exists_during_lifetimes x) v (located_at_location x) (_identification x)
     (_name x) (_version x).
Definition set_located_at_location (v : option addr) (x : t) : t :=
  mk (exists_during_lifetimes x) (is_alias_network_objects x) v
     (_identification x) (_name x) (_version x).
Definition set__identification (v : option string) (x : t) : t :=
  mk (exists_during_lifetimes x) (is_alias_network_objects x)
     (located_at_location x) v (_name x) (_version x).
Definition set__name (v : option string) (x : t) : t :=
  mk (exists_during_lifetimes x) (is_alias_network_objects x)
     (located_at_location x) (_identification x) v (_version x).
Definition set__version (v : option string) (x : t) : t :=
  mk (exists_during_lifetimes x) (is_alias_network_objects x)
     (located_at_location x) (_identification x) (_name x) v.
End NetworkObject.

Module Node.
Record t := mk {
  base : NetworkObject.t;
  has_inbound_port_ports : list addr;
  has_outbound_port_ports : list addr;
  has_service_services : list addr;
  implemented_by_nodes : list addr
}.
Definition init : t := mk NetworkObject.init [] [] [] [].
Definition set_has_inbound_port_ports (v : list addr) (x : t) : t :=
  mk (base x) v (has_outbound_port_ports x) (has_service_services x)
     (implemented_by_nodes x).
Definition set_has_outbound_port_ports (v : list addr) (x : t) : t :=
  mk (base x) (has_inbound_port_ports x) v (has_service_services x)
     (implemented_by_nodes x).
Definition set_has_service_services (v : list addr) (x : t) : t :=
  mk (base x) (has_inbound_port_ports x) (has_outbound_port_ports x) v
     (implemented_by_nodes x).
Definition set_implemented_by_nodes (v : list addr) (x : t) : t :=
  mk (base x) (has_inbound_port_ports x) (has_outbound_port_ports x)
     (has_service_services x) v.
End Node.

Module Port.
Record t := mk {
  base : NetworkObject.t;
  has_label_label : option addr;
  has_service_services : list addr;
  is_sink_links : list addr;
  is_source_links : list addr;
  _encoding : option string
}.
Definition init : t := mk NetworkObject.init None [] [] [] None.
Definition set_has_label_label (v : option addr) (x : t) : t :=
  mk (base x) v (has_service_services x) (is_sink_links x) (is_source_links x)
     (_encoding x).
Definition set__encoding (v : option string) (x : t) : t :=
  mk (base x) (has_label_label x) (has_service_services x) (is_sink_links x)
     (is_source_links x) v.
End Port.

(** [Link.__init__] assigns [has_label_labels]; [Link.has_label] assigns
    [has_label_label], an attribute the object does not have before the
    first call ([None] here). *)
Module Link.
Record t := mk {
  base : NetworkObject.t;
  has_label_labels : option addr;
  is_serial_compound_link_links : list addr;
  _encoding : option string;
  no_return_traffic : bool;
  has_label_label : option addr
}.
Definition init : t := mk NetworkObject.init None [] None false None.
Definition set_is_serial_compound_link_links (v : list addr) (x : t) : t :=
  mk (base x) (has_label_labels x) v (_encoding x) (no_return_traffic x)
     (has_label_label x).
Definition set__encoding (v : option string) (x : t) : t :=
  mk (base x) (has_label_labels x) (is_serial_compound_link_links x) v
     (no_return_traffic x) (has_label_label x).
Definition set_no_return_traffic (v : bool) (x : t) : t :=
  mk (base x) (has_label_labels x) (is_serial_compound_link_links x)
     (_encoding x) v (has_label_label x).
Definition set_has_label_label (v : option addr) (x : t) : t :=
  mk (base x) (has_label_labels x) (is_serial_compound_link_links x)
     (_encoding x) (no_return_traffic x) v.
End Link.

Module SwitchingService.
Record t := mk {
  base : NetworkObject.t;
  has_inbound_port_ports : list addr;
  has_outbound_port_ports : list addr;
  provides_link_links : list addr;
  _encoding : option string;
  label_swapping : bool
}.
Definition init : t := mk NetworkObject.init [] [] [] None false.
End SwitchingService.

Module AdaptationService.
Record t := mk {
  base : NetworkObject.t;
  adaptation_function : option string;
  can_provide_port_ports : list addr;
  provides_port_ports : list addr
}.
Definition init : t := mk NetworkObject.init None [] [].
Definition set_can_provide_port_ports (v : list addr) (x : t) : t :=
  mk (base x) (adaptation_function x) v (provides_port_ports x).
End AdaptationService.

Module DeadaptationService.
Record t := mk {
  base : NetworkObject.t;
  adaptation_function : option string;
  can_provide_port_ports : list addr;
  provides_port_ports : list addr
}.
Definition init : t := mk NetworkObject.init None [] [].
Definition set_can_provide_port_ports (v : list addr) (x : t) : t :=
  mk (base x) (adaptation_function x) v (provides_port_ports x).
End DeadaptationService.

Module Topology.
Record t := mk {
  base : NetworkObject.t;
  has_node_nodes : list addr;
  has_inbound_port_ports : list addr;
  has_outbound_port_ports : list addr;
  has_service_services : list addr;
  has_topology_topologies : list addr
}.
Definition init : t := mk NetworkObject.init [] [] [] [] [].
Definition set_has_node_nodes (v : list addr) (x : t) : t :=
  mk (base x) v (has_inbound_port_ports x) (has_outbound_port_ports x)
     (has_service_services x) (has_topology_topologies x).
Definition set_has_inbound_port_ports (v : list addr) (x : t) : t :=
  mk (base x) (has_node_nodes x) v (has_outbound_port_ports x)
     (has_service_services x) (has_topology_topologies x).
Definition set_has_outbound_port_ports (v : list addr) (x : t) : t :=
  mk (base x) (has_node_nodes x) (has_inbound_port_ports x) v
     (has_service_services x) (has_topology_topologies x).
End Topology.

Module PortGroup.
Record t := mk {
  base : NetworkObject.t;
  has_label_group_group : option addr;
  has_port_ports : list addr;
  is_sink_link_groups : list addr;
  is_source_link_groups : list addr;
  _encoding : option string
}.
Definition init : t := mk NetworkObject.init None [] [] [] None.
Definition set__encoding (v : option string) (x : t) : t :=
  mk (base x) (has_label_group_group x) (has_port_ports x)
     (is_sink_link_groups x) (is_source_link_groups x) v.
End PortGroup.

(** [LinkGroup.__init__] assigns [_encoding] but the class declares no
    [encoding] property: [group.encoding = s] creates a plain attribute
    [encoding] ([None] here while absent) and leaves [_encoding] alone. *)
Module LinkGroup.
Record t := mk {
  base : NetworkObject.t;
  has_label_group_group : option addr;
  has_link_links : list addr;
  is_serial_compound_link_link_groups : list addr;
  _encoding : option string;
  encoding : option string
}.
Definition init : t := mk NetworkObject.init None [] [] None None.
Definition set_is_serial_compound_link_link_groups (v : list addr) (x : t) : t :=
  mk (base x) (has_label_group_group x) (has_link_links x) v (_encoding x)
     (encoding x).
Definition set_encoding (v : option string) (x : t) : t :=
  mk (base x) (has_label_group_group x) (has_link_links x)
     (is_serial_compound_link_link_groups x) (_encoding x) v.
End LinkGroup.

Module BidirectionalPort.
Record t := mk {
  base : NetworkObject.t;
  has_port_ports : list addr;
  _encoding : option string
}.
Definition init : t := mk NetworkObject.init [] None.
End BidirectionalPort.

Module BidirectionalLink.
Record t := mk {
  base : NetworkObject.t;
  has_link_links : list addr;
  _encoding : option string
}.
Definition init : t := mk NetworkObject.init [] None.
End BidirectionalLink.

Module Location.
Record t := mk {
  _identification : option string;
  _name : option string;
  longitude : option string;
  latitude : option string;
  altitude : option string;
  unlocode : option string;
  address : option string
}.
Definition init : t := mk None None None None None None None.
End Location.

Module Lifetime.
Record t := mk { start : option string; end_ : option string }.
Definition init : t := mk None None.
End Lifetime.

Module Label.
Record t := mk { labeltype : option string; value : option string }.
Definition init : t := mk None None.
End Label.

Module LabelGroup.
Record t := mk { labeltype : string; values : string }.
Definition init : t := mk "" "".
End LabelGroup.

(** An object is an instance of one of the concrete classes of the module.
    [OrderedList] and [ListItem] carry nothing but [_kwargs]. *)
Inductive obj :=
| ONode (x : Node.t)
| OPort (x : Port.t)
| OLink (x : Link.t)
| OSwitchingService (x : SwitchingService.t)
| OAdaptationService (x : AdaptationService.t)
| ODeadaptationService (x : DeadaptationService.t)
| OTopology (x : Topology.t)
| OPortGroup (x : PortGroup.t)
| OLinkGroup (x : LinkGroup.t)
| OBidirectionalPort (x : BidirectionalPort.t)
| OBidirectionalLink (x : BidirectionalLink.t)
| OLocation (x : Location.t)
| OLifetime (x : Lifetime.t)
| OLabel (x : Label.t)
| OLabelGroup (x : LabelGroup.t)
| OOrderedList
| OListItem.

(** [o.__class__.__name__] *)
Definition class_name (o : obj) : string :=
  match o with
  | ONode _ => "Node"
  | OPort _ => "Port"
  | OLink _ => "Link"
  | OSwitchingService _ => "SwitchingService"
  | OAdaptationService _ => "AdaptationService"
  | ODeadaptationService _ => "DeadaptationService"
  | OTopology _ => "Topology"
  | OPortGroup _ => "PortGroup"
  | OLinkGroup _ => "LinkGroup"
  | OBidirectionalPort _ => "BidirectionalPort"
  | OBidirectionalLink _ => "BidirectionalLink"
  | OLocation _ => "Location"
  | OLifetime _ => "Lifetime"
  | OLabel _ => "Label"
  | OLabelGroup _ => "LabelGroup"
  | OOrderedList => "OrderedList"
  | OListItem => "ListItem"
  end.

(** The [NetworkObject] part of an instance of a subclass of
    [NetworkObject]; the other classes do not inherit from it. *)
Definition base_of (o : obj) : option NetworkObject.t :=
  match o with
  | ONode x => Some (Node.base x)
  | OPort x => Some (Port.base x)
  | OLink x => Some (Link.base x)
  | OSwitchingService x => Some (SwitchingService.base x)
  | OAdaptationService x => Some (AdaptationService.base x)
  | ODeadaptationService x => Some (DeadaptationService.base x)
  | OTopology x => Some (Topology.base x)
  | OPortGroup x => Some (PortGroup.base x)
  | OLinkGroup x => Some (LinkGroup.base x)
  | OBidirectionalPort x => Some (BidirectionalPort.base x)
  | OBidirectionalLink x => Some (BidirectionalLink.base x)
  | _ => None
  end.

Definition set_base (b : NetworkObject.t) (o : obj) : obj :=
  match o with
  | ONode (Node.mk _ f1 f2 f3 f4) => ONode (Node.mk b f1 f2 f3 f4)
  | OPort (Port.mk _ f1 f2 f3 f4 f5) => OPort (Port.mk b f1 f2 f3 f4 f5)
  | OLink (Link.mk _ f1 f2 f3 f4 f5) => OLink (Link.mk b f1 f2 f3 f4 f5)
  | OSwitchingService (SwitchingService.mk _ f1 f2 f3 f4 f5) =>
      OSwitchingService (SwitchingService.mk b f1 f2 f3 f4 f5)
  | OAdaptationService (AdaptationService.mk _ f1 f2 f3) =>
      OAdaptationService (AdaptationService.mk b f1 f2 f3)
  | ODeadaptationService (DeadaptationService.mk _ f1 f2 f3) =>
      ODeadaptationService (DeadaptationService.mk b f1 f2 f3)
  | OTopology (Topology.mk _ f1 f2 f3 f4 f5) =>
      OTopology (Topology.mk b f1 f2 f3 f4 f5)
  | OPortGroup (PortGroup.mk _ f1 f2 f3 f4 f5) =>
      OPortGroup (PortGroup.mk b f1 f2 f3 f4 f5)
  | OLinkGroup (LinkGroup.mk _ f1 f2 f3 f4 f5) =>
      OLinkGroup (LinkGroup.mk b f1 f2 f3 f4 f5)
  | OBidirectionalPort (BidirectionalPort.mk _ f1 f2) =>
      OBidirectionalPort (BidirectionalPort.mk b f1 f2)
  | OBidirectionalLink (BidirectionalLink.mk _ f1 f2) =>
      OBidirectionalLink (BidirectionalLink.mk b f1 f2)
  | _ => o
  end.

(** The store: the object at address [a] is [h !! a]. *)
Abbreviation heap := (list obj).

(** ** Serialization: [getNML]

    Every [getNML] creates its element [this] with [etree.Element] when
    [parent is None] and with [etree.SubElement(parent, ...)] otherwise, and
    returns [this].  The function below computes [this]; the caller attaches
    it to its own element, as [SubElement] did.  [rec] stands for the
    recursive calls [x.getNML(...)] on related objects. *)

Section Serializer.
Variable rec : addr -> outcome element.

(** [for x in coll:]
    [relation = etree.SubElement(this, 'Relation')],
    [relation.attrib['type'] = ty], [x.getNML(relation)] *)
Definition relation_loop (ty : string) (coll : list addr) (this : element)
  : outcome element :=
  ofold (fun this x =>
           child <- rec x;; Ok (append_child this (Relation ty child)))
        this coll.

(** [for x in coll: x.getNML(this)] *)
Definition nested_loop (coll : list addr) (this : element) : outcome element :=
  ofold (fun this x => child <- rec x;; Ok (append_child this child))
        this coll.

(** [if x:] followed by one relation wrapper; an object is always true. *)
Definition relation_if (ty : string) (x : option addr) (this : element)
  : outcome element :=
  match x with
  | Some a => child <- rec a;; Ok (append_child this (Relation ty child))
  | None => Ok this
  end.

(** [NetworkObject.getNML]; [cls] is [self.__class__.__name__]. *)
Definition NetworkObject_getNML (cls : string) (self : NetworkObject.t)
  : outcome element :=
  let this := etree_Element cls (Some NAMESPACES) in
  let this := attrib_if "id" (NetworkObject._identification self) this in
  let this := attrib_if "name" (NetworkObject._name self) this in
  let this := attrib_if "version" (NetworkObject._version self) this in
  this <- relation_loop "isAlias"
            (NetworkObject.is_alias_network_objects self) this;;
  this <- relation_loop "existsDuring"
            (NetworkObject.exists_during_lifetimes self) this;;
  this <- relation_if "locatedAt"
            (NetworkObject.located_at_location self) this;;
  Ok this.

Definition Node_getNML (self : Node.t) : outcome element :=
  this <- NetworkObject_getNML "Node" (Node.base self);;
  this <- relation_loop "hasInboundPort"
            (Node.has_inbound_port_ports self) this;;
  this <- relation_loop "hasOutoundPort"
            (Node.has_outbound_port_ports self) this;;
  this <- relation_loop "hasService" (Node.has_service_services self) this;;
  this <- nested_loop (Node.implemented_by_nodes self) this;;
  Ok this.

Definition Port_getNML (self : Port.t) : outcome element :=
  this <- NetworkObject_getNML "Port" (Port.base self);;
  let this := attrib_if "encoding" (Port._encoding self) this in
  this <- relation_if "hasLabel" (Port.has_label_label self) this;;
  this <- relation_loop "hasService" (Port.has_service_services self) this;;
  this <- relation_loop "isSink" (Port.is_sink_links self) this;;
  this <- relation_loop "isSource" (Port.is_source_links self) this;;
  Ok this.

Definition Link_getNML (self : Link.t) : outcome element :=
  this <- NetworkObject_getNML "Link" (Link.base self);;
  let this := attrib_if "encoding" (Link._encoding self) this in
  let this :=
    if Link.no_return_traffic self
    then set_attrib "no_return_traffic"
           (str_bool (Link.no_return_traffic self)) this
    else this in
  Ok this.

Definition SwitchingService_getNML (self : SwitchingService.t)
  : outcome element :=
  this <- NetworkObject_getNML "SwitchingService"
            (SwitchingService.base self);;
  let this := attrib_if "encoding" (SwitchingService._encoding self) this in
  let this :=
    if SwitchingService.label_swapping self
    then set_attrib "label_swapping"
           (str_bool (SwitchingService.label_swapping self)) this
    else this in
  this <- nested_loop (SwitchingService.has_inbound_port_ports self) this;;
  this <- nested_loop (SwitchingService.has_outbound_port_ports self) this;;
  this <- nested_loop (SwitchingService.provides_link_links self) this;;
  Ok this.

Definition AdaptationService_getNML (self : AdaptationService.t)
  : outcome element :=
  this <- NetworkObject_getNML "AdaptationService"
            (AdaptationService.base self);;
  let this := attrib_if "adaptation_function"
                (AdaptationService.adaptation_function self) this in
  this <- nested_loop (AdaptationService.can_provide_port_ports self) this;;
  this <- nested_loop (AdaptationService.provides_port_ports self) this;;
  Ok this.

Definition DeadaptationService_getNML (self : DeadaptationService.t)
  : outcome element :=
  this <- NetworkObject_getNML "DeadaptationService"
            (DeadaptationService.base self);;
  let this := attrib_if "adaptation_function"
                (DeadaptationService.adaptation_function self) this in
  this <- nested_loop (DeadaptationService.can_provide_port_ports self) this;;
  this <- nested_loop (DeadaptationService.provides_port_ports self) this;;
  Ok this.

Definition Topology_getNML (self : Topology.t) : outcome element :=
  this <- NetworkObject_getNML "Topology" (Topology.base self);;
  this <- relation_loop "hasNode" (Topology.has_node_nodes self) this;;
  this <- relation_loop "hasInboundPort"
            (Topology.has_inbound_port_ports self) this;;
  this <- relation_loop "hasOutboundPort"
            (Topology.has_outbound_port_ports self) this;;
  this <- relation_loop "hasService"
            (Topology.has_service_services self) this;;
  this <- relation_loop "hasTopology"
            (Topology.has_topology_topologies self) this;;
  Ok this.

(** [Location], [Lifetime] and [Label] create their element without
    [nsmap] and relate to nothing. *)
Definition Location_getNML (self : Location.t) : element :=
  let this := etree_Element "Location" None in
  let this := attrib_if "id" (Location._identification self) this in
  let this := attrib_if "name" (Location._name self) this in
  let this := attrib_if "long" (Location.longitude self) this in
  let this := attrib_if "lat" (Location.latitude self) this in
  let this := attrib_if "alt" (Location.altitude self) this in
  let this := attrib_if "unlocode" (Location.unlocode self) this in
  let this := attrib_if "address" (Location.address self) this in
  this.

Definition Lifetime_getNML (self : Lifetime.t) : element :=
  let this := etree_Element "Lifetime" None in
  let this := attrib_if "start" (Lifetime.start self) this in
  let this := attrib_if "end" (Lifetime.end_ self) this in
  this.

Definition Label_getNML (self : Label.t) : element :=
  let this := etree_Element "Label" None in
  let this := attrib_if "labeltype" (Label.labeltype self) this in
  let this := attrib_if "value" (Label.value self) this in
  this.

(** [o.getNML(...)]: the method the class of [o] defines or inherits.
    [PortGroup], [LinkGroup], [BidirectionalPort] and [BidirectionalLink]
    define none and inherit [NetworkObject.getNML]; [LabelGroup],
    [OrderedList] and [ListItem] have none at all. *)
Definition getNML_method (o : obj) : outcome element :=
  match o with
  | ONode x => Node_getNML x
  | OPort x => Port_getNML x
  | OLink x => Link_getNML x
  | OSwitchingService x => SwitchingService_getNML x
  | OAdaptationService x => AdaptationService_getNML x
  | ODeadaptationService x => DeadaptationService_getNML x
  | OTopology x => Topology_getNML x
  | OPortGroup x => NetworkObject_getNML "PortGroup" (PortGroup.base x)
  | OLinkGroup x => NetworkObject_getNML "LinkGroup" (LinkGroup.base x)
  | OBidirectionalPort x =>
      NetworkObject_getNML "BidirectionalPort" (BidirectionalPort.base x)
  | OBidirectionalLink x =>
      NetworkObject_getNML "BidirectionalLink" (BidirectionalLink.base x)
  | OLocation x => Ok (Location_getNML x)
  | OLifetime x => Ok (Lifetime_getNML x)
  | OLabel x => Ok (Label_getNML x)
  | OLabelGroup _ | OOrderedList | OListItem => Raise AttributeError
  end.

End Serializer.

(** [getNML] on the object at address [a] of the store [h]: the recursion of
    the methods through the object graph, [fuel] calls deep. *)
Fixpoint getNML (fuel : nat) (h : heap) (a : addr) : outcome element :=
  match fuel with
  | O => Diverge
  | S n =>
      match h !! a with
      | Some o => getNML_method (getNML n h) o
      | None => Raise NoSuchObject
      end
  end.

(** The addresses [getNML] of an object follows, in the order it follows
    them. *)
Definition NetworkObject_refs (b : NetworkObject.t) : list addr :=
  NetworkObject.is_alias_network_objects b
  ++ NetworkObject.exists_during_lifetimes b
  ++ option_list (NetworkObject.located_at_location b).

Definition refs_of (o : obj) : list addr :=
  match o with
  | ONode x =>
      NetworkObject_refs (Node.base x)
      ++ Node.has_inbound_port_ports x ++ Node.has_outbound_port_ports x
      ++ Node.has_service_services x ++ Node.implemented_by_nodes x
  | OPort x =>
      NetworkObject_refs (Port.base x)
      ++ option_list (Port.has_label_label x) ++ Port.has_service_services x
      ++ Port.is_sink_links x ++ Port.is_source_links x
  | OSwitchingService x =>
      NetworkObject_refs (SwitchingService.base x)
      ++ SwitchingService.has_inbound_port_ports x
      ++ SwitchingService.has_outbound_port_ports x
      ++ SwitchingService.provides_link_links x
  | OAdaptationService x =>
      NetworkObject_refs (AdaptationService.base x)
      ++ AdaptationService.can_provide_port_ports x
      ++ AdaptationService.provides_port_ports x
  | ODeadaptationService x =>
      NetworkObject_refs (DeadaptationService.base x)
      ++ DeadaptationService.can_provide_port_ports x
      ++ DeadaptationService.provides_port_ports x
  | OTopology x =>
      NetworkObject_refs (Topology.base x)
      ++ Topology.has_node_nodes x ++ Topology.has_inbound_port_ports x
      ++ Topology.has_outbound_port_ports x
      ++ Topology.has_service_services x
      ++ Topology.has_topology_topologies x
  | _ =>
      match base_of o with
      | Some b => NetworkObject_refs b
      | None => []
      end
  end.

(** The classes that have a [getNML]. *)
Definition has_getNML (o : obj) : bool :=
  match o with
  | OLabelGroup _ | OOrderedList | OListItem => false
  | _ => true
  end.

(** A store is ranked by [rank] when every object with a [getNML] refers,
    for serialization, only to objects of the store that have one too and
    are of smaller rank: the graph [getNML] walks has no cycle and nothing
    that cannot be serialized. *)
Definition ranked_ref (rank : addr -> nat) (h : heap) (a r : addr) : bool :=
  match h !! r with
  | Some o => has_getNML o && Nat.ltb (rank r) (rank a)
  | None => false
  end.

Definition ranked_obj (rank : addr -> nat) (h : heap) (a : addr) (o : obj)
  : bool :=
  negb (has_getNML o) || forallb (ranked_ref rank h a) (refs_of o).

Definition ranked (rank : addr -> nat) (h : heap) : bool :=
  forallb (fun ao => ranked_obj rank h ao.1 ao.2) (imap pair h).

(** ** Calls that mutate

    A call runs on a state and leaves a state behind, also when it raises:
    what was assigned before the [raise] stays assigned.  The methods of the
    object model run on the store of objects ([M]); the markup builder runs
    on a store of elements (further down). *)

Definition ST (S A : Type) : Type := S -> outcome A * S.

Definition mret {S A} (a : A) : ST S A := fun s => (Ok a, s).

Definition raise {S A} (e : exn) : ST S A := fun s => (Raise e, s).

Definition mbind {S A B} (c : ST S A) (k : A -> ST S B) : ST S B :=
  fun s =>
    match c s with
    | (Ok a, s') => k a s'
    | (Raise e, s') => (Raise e, s')
    | (Diverge, s') => (Diverge, s')
    end.

Declare Scope M_scope.
Delimit Scope M_scope with M.
Bind Scope M_scope with ST.
Notation "x <- c ;; k" := (mbind c (fun x => k))
  (at level 100, c at next level, right associativity) : M_scope.
Notation "c ;; k" := (mbind c (fun _ => k))
  (at level 100, right associativity) : M_scope.

Abbreviation M := (ST heap).

(** The object an address stands for. *)
Definition load (a : addr) : M obj :=
  fun h =>
    match h !! a with
    | Some o => (Ok o, h)
    | None => (Raise NoSuchObject, h)
    end.

(** Assignment to attributes of the object at [a]: its new state. *)
Definition store (a : addr) (o : obj) : M unit :=
  fun h => (Ok tt, <[a := o]> h).

(** A method of [NetworkObject], found on the instances of its subclasses
    only. *)
Definition NetworkObject_method {A} (self : addr)
  (body : obj -> NetworkObject.t -> M A) : M A :=
  (o <- load self;;
   match base_of o with
   | Some b => body o b
   | None => raise AttributeError
   end)%M.

(** [self] is read-only for [getNML]: the call is a function of the store. *)
Definition call_getNML (fuel : nat) (self : addr) : M element :=
  fun h => (getNML fuel h self, h).

(** *** [NetworkObject] *)

(** The [identification] property: getter. *)
Definition NetworkObject_identification (self : addr) : M (option string) :=
  NetworkObject_method self
    (fun _ b => mret (NetworkObject._identification b)).

Section Identification.
(** [rfc3986.is_valid_uri(s, require_scheme=True)], an external
    collaborator. *)
Variable is_valid_uri : string -> bool.

(** The [identification] property: setter. *)
Definition NetworkObject_set_identification (self : addr)
  (identification : string) : M unit :=
  NetworkObject_method self (fun o b =>
    if is_valid_uri identification
    then store self
           (set_base (NetworkObject.set__identification
                        (Some identification) b) o)
    else raise IdError).
End Identification.

Definition NetworkObject_set_name (self : addr) (name : string) : M unit :=
  NetworkObject_method self (fun o b =>
    store self (set_base (NetworkObject.set__name (Some name) b) o)).

Definition NetworkObject_set_version (self : addr) (version : string)
  : M unit :=
  NetworkObject_method self (fun o b =>
    store self (set_base (NetworkObject.set__version (Some version) b) o)).

Definition NetworkObject_exists_during (self lifetime : addr) : M unit :=
  NetworkObject_method self (fun o b =>
    l <- load lifetime;;
    if negb (String.eqb (class_name l) "Lifetime")
    then raise ExistsDuringError
    else store self
           (set_base (NetworkObject.set_exists_during_lifetimes
                        (NetworkObject.exists_during_lifetimes b
                         ++ [lifetime]) b) o))%M.

Definition NetworkObject_is_alias (self network_object : addr) : M unit :=
  NetworkObject_method self (fun o b =>
    n <- load network_object;;
    if negb (String.eqb (class_name o) (class_name n))
    then raise IsAliasError
    else store self
           (set_base (NetworkObject.set_is_alias_network_objects
                        (NetworkObject.is_alias_network_objects b
                         ++ [network_object]) b) o))%M.

Definition NetworkObject_locatedAt (self location : addr) : M unit :=
  NetworkObject_method self (fun o b =>
    store self
      (set_base (NetworkObject.set_located_at_location (Some location) b)
         o)).

(** *** [Node] *)

Definition Node_method (self : addr) (body : Node.t -> M unit) : M unit :=
  (o <- load self;;
   match o with
   | ONode x => body x
   | _ => raise AttributeError
   end)%M.

Definition Node_has_inbound_port (self port : addr) : M unit :=
  Node_method self (fun x =>
    store self (ONode (Node.set_has_inbound_port_ports
                         (Node.has_inbound_port_ports x ++ [port]) x))).

Definition Node_has_outbound_port (self port : addr) : M unit :=
  Node_method self (fun x =>
    store self (ONode (Node.set_has_outbound_port_ports
                         (Node.has_outbound_port_ports x ++ [port]) x))).

Definition Node_has_service (self service : addr) : M unit :=
  Node_method self (fun x =>
    store self (ONode (Node.set_has_service_services
                         (Node.has_service_services x ++ [service]) x))).

Definition Node_implementedBy (self node : addr) : M unit :=
  Node_method self (fun x =>
    store self (ONode (Node.set_implemented_by_nodes
                         (Node.implemented_by_nodes x ++ [node]) x))).

(** *** [Port] *)

Definition Port_method (self : addr) (body : Port.t -> M unit) : M unit :=
  (o <- load self;;
   match o with
   | OPort x => body x
   | _ => raise AttributeError
   end)%M.

Definition Port_set_encoding (self : addr) (encoding : string) : M unit :=
  Port_method self (fun x =>
    store self (OPort (Port.set__encoding (Some encoding) x))).

Definition Port_has_label (self label : addr) : M unit :=
  Port_method self (fun x =>
    store self (OPort (Port.set_has_label_label (Some label) x))).

(** *** [Link] *)

Definition Link_method (self : addr) (body : Link.t -> M unit) : M unit :=
  (o <- load self;;
   match o with
   | OLink x => body x
   | _ => raise AttributeError
   end)%M.

Definition Link_set_encoding (self : addr) (encoding : string) : M unit :=
  Link_method self (fun x =>
    store self (OLink (Link.set__encoding (Some encoding) x))).

(** [link.no_return_traffic = b], a plain attribute *)
Definition Link_set_no_return_traffic (self : addr) (b : bool) : M unit :=
  Link_method self (fun x =>
    store self (OLink (Link.set_no_return_traffic b x))).

(** [self.has_label_label = label] *)
Definition Link_has_label (self label : addr) : M unit :=
  Link_method self (fun x =>
    store self (OLink (Link.set_has_label_label (Some label) x))).

(** [self.is_serial_compound_link_links = ordered_links] *)
Definition Link_is_serial_compound_link (self : addr)
  (ordered_links : list addr) : M unit :=
  Link_method self (fun x =>
    store self (OLink (Link.set_is_serial_compound_link_links
                         ordered_links x))).

(** *** [AdaptationService] and [DeadaptationService] *)

(** What [self.provides_port] evaluates to.  No instance is ever given an
    attribute of that name (the constructors assign [provides_port_ports]),
    so the lookup ends at the class and yields the method bound to [self]. *)
Inductive pyvalue :=
| VList (l : list addr)
| VBoundMethod (name : string).

(** [v.append(x)]: lists have [append], method objects do not. *)
Definition py_append (v : pyvalue) (x : addr) : outcome (list addr) :=
  match v with
  | VList l => Ok (l ++ [x])
  | VBoundMethod _ => Raise AttributeError
  end.

Definition lift {S A} (r : outcome A) : ST S A := fun s => (r, s).

Definition AdaptationService_method (self : addr)
  (body : AdaptationService.t -> M unit) : M unit :=
  (o <- load self;;
   match o with
   | OAdaptationService x => body x
   | _ => raise AttributeError
   end)%M.

Definition AdaptationService_can_provide_port (self port : addr) : M unit :=
  AdaptationService_method self (fun x =>
    p <- load port;;
    if negb (bool_decide (class_name p ∈ ["Port"; "PortGroup"]))
    then raise CanProvidePortError
    else store self
           (OAdaptationService
              (AdaptationService.set_can_provide_port_ports
                 (AdaptationService.can_provide_port_ports x ++ [port])
                 x)))%M.

(** [self.provides_port.append(port)] *)
Definition AdaptationService_provides_port (self port : addr) : M unit :=
  AdaptationService_method self (fun x =>
    _ <- lift (py_append (VBoundMethod "provides_port") port);;
    mret tt)%M.

Definition DeadaptationService_method (self : addr)
  (body : DeadaptationService.t -> M unit) : M unit :=
  (o <- load self;;
   match o with
   | ODeadaptationService x => body x
   | _ => raise AttributeError
   end)%M.

Definition DeadaptationService_can_provide_port (self port : addr)
  : M unit :=
  DeadaptationService_method self (fun x =>
    store self
      (ODeadaptationService
         (DeadaptationService.set_can_provide_port_ports
            (DeadaptationService.can_provide_port_ports x ++ [port]) x))).

(** [self.provides_port.append(port)] *)
Definition DeadaptationService_provides_port (self port : addr) : M unit :=
  DeadaptationService_method self (fun x =>
    _ <- lift (py_append (VBoundMethod "provides_port") port);;
    mret tt)%M.

(** *** [Topology] *)

Definition Topology_method (self : addr) (body : Topology.t -> M unit)
  : M unit :=
  (o <- load self;;
   match o with
   | OTopology x => body x
   | _ => raise AttributeError
   end)%M.

Definition Topology_has_node (self node : addr) : M unit :=
  Topology_method self (fun x =>
    store self (OTopology (Topology.set_has_node_nodes
                             (Topology.has_node_nodes x ++ [node]) x))).

Definition Topology_has_inbound_port (self port : addr) : M unit :=
  Topology_method self (fun x =>
    store self (OTopology (Topology.set_has_inbound_port_ports
                             (Topology.has_inbound_port_ports x ++ [port])
                             x))).

Definition Topology_has_outbound_port (self port : addr) : M unit :=
  Topology_method self (fun x =>
    store self (OTopology (Topology.set_has_outbound_port_ports
                             (Topology.has_outbound_port_ports x ++ [port])
                             x))).

(** *** [PortGroup] and [LinkGroup] *)

(** The [encoding] property of [PortGroup]: setter. *)
Definition PortGroup_set_encoding (self : addr) (encoding : string)
  : M unit :=
  (o <- load self;;
   match o with
   | OPortGroup x =>
       store self (OPortGroup (PortGroup.set__encoding (Some encoding) x))
   | _ => raise AttributeError
   end)%M.

Definition LinkGroup_method (self : addr) (body : LinkGroup.t -> M unit)
  : M unit :=
  (o <- load self;;
   match o with
   | OLinkGroup x => body x
   | _ => raise AttributeError
   end)%M.

(** [group.encoding = encoding] on a [LinkGroup], which has no property of
    that name: a plain attribute. *)
Definition LinkGroup_set_encoding (self : addr) (encoding : string)
  : M unit :=
  LinkGroup_method self (fun x =>
    store self (OLinkGroup (LinkGroup.set_encoding (Some encoding) x))).

(** [self.is_serial_compound_link_link_groups.append(link_group)] *)
Definition LinkGroup_is_serial_compound_link (self link_group : addr)
  : M unit :=
  LinkGroup_method self (fun x =>
    store self
      (OLinkGroup
         (LinkGroup.set_is_serial_compound_link_link_groups
            (LinkGroup.is_serial_compound_link_link_groups x ++ [link_group])
            x))).

(** ** The rest of the relation-building interface

    The methods and attribute assignments of the module that the sections
    above leave out, class by class. *)

(** *** [Port], continued *)

Definition Port_has_service (self service : addr) : M unit :=
  Port_method self (fun x =>
    store self (OPort (Port.mk (Port.base x) (Port.has_label_label x)
                         (Port.has_service_services x ++ [service])
                         (Port.is_sink_links x) (Port.is_source_links x)
                         (Port._encoding x)))).

Definition Port_is_sink (self link : addr) : M unit :=
  Port_method self (fun x =>
    store self (OPort (Port.mk (Port.base x) (Port.has_label_label x)
                         (Port.has_service_services x)
                         (Port.is_sink_links x ++ [link])
                         (Port.is_source_links x) (Port._encoding x)))).

Definition Port_is_source (self link : addr) : M unit :=
  Port_method self (fun x =>
    store self (OPort (Port.mk (Port.base x) (Port.has_label_label x)
                         (Port.has_service_services x) (Port.is_sink_links x)
                         (Port.is_source_links x ++ [link])
                         (Port._encoding x)))).

(** *** [SwitchingService] *)

Definition SwitchingService_method (self : addr)
  (body : SwitchingService.t -> M unit) : M unit :=
  (o <- load self;;
   match o with
   | OSwitchingService x => body x
   | _ => raise AttributeError
   end)%M.

Definition SwitchingService_set_encoding (self : addr) (encoding : string)
  : M unit :=
  SwitchingService_method self (fun x =>
    store self
      (OSwitchingService
         (SwitchingService.mk (SwitchingService.base x)
            (SwitchingService.has_inbound_port_ports x)
            (SwitchingService.has_outbound_port_ports x)
            (SwitchingService.provides_link_links x)
            (Some encoding) (SwitchingService.label_swapping x)))).

(** [service.label_swapping = b], a plain attribute *)
Definition SwitchingService_set_label_swapping (self : addr) (b : bool)
  : M unit :=
  SwitchingService_method self (fun x =>
    store self
      (OSwitchingService
         (SwitchingService.mk (SwitchingService.base x)
            (SwitchingService.has_inbound_port_ports x)
            (SwitchingService.has_outbound_port_ports x)
            (SwitchingService.provides_link_links x)
            (SwitchingService._encoding x) b))).

Definition SwitchingService_has_inbound_port (self port : addr) : M unit :=
  SwitchingService_method self (fun x =>
    store self
      (OSwitchingService
         (SwitchingService.mk (SwitchingService.base x)
            (SwitchingService.has_inbound_port_ports x ++ [port])
            (SwitchingService.has_outbound_port_ports x)
            (SwitchingService.provides_link_links x)
            (SwitchingService._encoding x)
            (SwitchingService.label_swapping x)))).

Definition SwitchingService_has_outbound_port (self port : addr) : M unit :=
  SwitchingService_method self (fun x =>
    store self
      (OSwitchingService
         (SwitchingService.mk (SwitchingService.base x)
            (SwitchingService.has_inbound_port_ports x)
            (SwitchingService.has_outbound_port_ports x ++ [port])
            (SwitchingService.provides_link_links x)
            (SwitchingService._encoding x)
            (SwitchingService.label_swapping x)))).

Definition SwitchingService_provides_link (self link : addr) : M unit :=
  SwitchingService_method self (fun x =>
    store self
      (OSwitchingService
         (SwitchingService.mk (SwitchingService.base x)
            (SwitchingService.has_inbound_port_ports x)
            (SwitchingService.has_outbound_port_ports x)
            (SwitchingService.provides_link_links x ++ [link])
            (SwitchingService._encoding x)
            (SwitchingService.label_swapping x)))).

(** *** [AdaptationService] and [DeadaptationService], continued *)

(** [service.adaptation_function = f], a plain attribute *)
Definition AdaptationService_set_adaptation_function (self : addr)
  (f : string) : M unit :=
  AdaptationService_method self (fun x =>
    store self
      (OAdaptationService
         (AdaptationService.mk (AdaptationService.base x) (Some f)
            (AdaptationService.can_provide_port_ports x)
            (AdaptationService.provides_port_ports x)))).

Definition DeadaptationService_set_adaptation_function (self : addr)
  (f : string) : M unit :=
  DeadaptationService_method self (fun x =>
    store self
      (ODeadaptationService
         (DeadaptationService.mk (DeadaptationService.base x) (Some f)
            (DeadaptationService.can_provide_port_ports x)
            (DeadaptationService.provides_port_ports x)))).

(** *** [Topology], continued *)

Definition Topology_has_service (self service : addr) : M unit :=
  Topology_method self (fun x =>
    store self
      (OTopology
         (Topology.mk (Topology.base x) (Topology.has_node_nodes x)
            (Topology.has_inbound_port_ports x)
            (Topology.has_outbound_port_ports x)
            (Topology.has_service_services x ++ [service])
            (Topology.has_topology_topologies x)))).

Definition Topology_has_topology (self topology : addr) : M unit :=
  Topology_method self (fun x =>
    store self
      (OTopology
         (Topology.mk (Topology.base x) (Topology.has_node_nodes x)
            (Topology.has_inbound_port_ports x)
            (Topology.has_outbound_port_ports x)
            (Topology.has_service_services x)
            (Topology.has_topology_topologies x ++ [topology])))).

(** *** [PortGroup] and [LinkGroup], continued *)

Definition PortGroup_method (self : addr) (body : PortGroup.t -> M unit)
  : M unit :=
  (o <- load self;;
   match o with
   | OPortGroup x => body x
   | _ => raise AttributeError
   end)%M.

Definition PortGroup_has_label_group (self label_group : addr) : M unit :=
  PortGroup_method self (fun x =>
    store self
      (OPortGroup
         (PortGroup.mk (PortGroup.base x) (Some label_group)
            (PortGroup.has_port_ports x) (PortGroup.is_sink_link_groups x)
            (PortGroup.is_source_link_groups x) (PortGroup._encoding x)))).

Definition PortGroup_has_port (self port : addr) : M unit :=
  PortGroup_method self (fun x =>
    store self
      (OPortGroup
         (PortGroup.mk (PortGroup.base x) (PortGroup.has_label_group_group x)
            (PortGroup.has_port_ports x ++ [port])
            (PortGroup.is_sink_link_groups x)
            (PortGroup.is_source_link_groups x) (PortGroup._encoding x)))).

Definition PortGroup_is_sink (self link_group : addr) : M unit :=
  PortGroup_method self (fun x =>
    store self
      (OPortGroup
         (PortGroup.mk (PortGroup.base x) (PortGroup.has_label_group_group x)
            (PortGroup.has_port_ports x)
            (PortGroup.is_sink_link_groups x ++ [link_group])
            (PortGroup.is_source_link_groups x) (PortGroup._encoding x)))).

Definition PortGroup_is_source (self link_group : addr) : M unit :=
  PortGroup_method self (fun x =>
    store self
      (OPortGroup
         (PortGroup.mk (PortGroup.base x) (PortGroup.has_label_group_group x)
            (PortGroup.has_port_ports x) (PortGroup.is_sink_link_groups x)
            (PortGroup.is_source_link_groups x ++ [link_group])
            (PortGroup._encoding x)))).

Definition LinkGroup_has_label_group (self label_group : addr) : M unit :=
  LinkGroup_method self (fun x =>
    store self
      (OLinkGroup
         (LinkGroup.mk (LinkGroup.base x) (Some label_group)
            (LinkGroup.has_link_links x)
            (LinkGroup.is_serial_compound_link_link_groups x)
            (LinkGroup._encoding x) (LinkGroup.encoding x)))).

Definition LinkGroup_has_link (self link : addr) : M unit :=
  LinkGroup_method self (fun x =>
    store self
      (OLinkGroup
         (LinkGroup.mk (LinkGroup.base x) (LinkGroup.has_label_group_group x)
            (LinkGroup.has_link_links x ++ [link])
            (LinkGroup.is_serial_compound_link_link_groups x)
            (LinkGroup._encoding x) (LinkGroup.encoding x)))).

(** *** [BidirectionalPort] and [BidirectionalLink] *)

Definition BidirectionalPort_method (self : addr)
  (body : BidirectionalPort.t -> M unit) : M unit :=
  (o <- load self;;
   match o with
   | OBidirectionalPort x => body x
   | _ => raise AttributeError
   end)%M.

Definition BidirectionalPort_set_encoding (self : addr) (encoding : string)
  : M unit :=
  BidirectionalPort_method self (fun x =>
    store self
      (OBidirectionalPort
         (BidirectionalPort.mk (BidirectionalPort.base x)
            (BidirectionalPort.has_port_ports x) (Some encoding)))).

(** [self.has_port_ports.append(port0)], then
    [self.has_port_ports.append(port1)] *)
Definition BidirectionalPort_has_port (self port0 port1 : addr) : M unit :=
  BidirectionalPort_method self (fun x =>
    store self
      (OBidirectionalPort
         (BidirectionalPort.mk (BidirectionalPort.base x)
            ((BidirectionalPort.has_port_ports x ++ [port0]) ++ [port1])
            (BidirectionalPort._encoding x)))).

Definition BidirectionalLink_method (self : addr)
  (body : BidirectionalLink.t -> M unit) : M unit :=
  (o <- load self;;
   match o with
   | OBidirectionalLink x => body x
   | _ => raise AttributeError
   end)%M.

Definition BidirectionalLink_set_encoding (self : addr) (encoding : string)
  : M unit :=
  BidirectionalLink_method self (fun x =>
    store self
      (OBidirectionalLink
         (BidirectionalLink.mk (BidirectionalLink.base x)
            (BidirectionalLink.has_link_links x) (Some encoding)))).

Definition BidirectionalLink_has_link (self link0 link1 : addr) : M unit :=
  BidirectionalLink_method self (fun x =>
    store self
      (OBidirectionalLink
         (BidirectionalLink.mk (BidirectionalLink.base x)
            ((BidirectionalLink.has_link_links x ++ [link0]) ++ [link1])
            (BidirectionalLink._encoding x)))).

(** *** [Location], [Lifetime] and [Label]

    [Location] has its own [identification] and [name] properties, whose
    setters store what they are given; every other field of the three
    classes is a plain attribute. *)

Inductive Location_field :=
| Loc_identification | Loc_name | Loc_longitude | Loc_latitude
| Loc_altitude | Loc_unlocode | Loc_address.

Definition Location_assign (f : Location_field) (v : string)
  (x : Location.t) : Location.t :=
  match f with
  | Loc_identification =>
      Location.mk (Some v) (Location._name x) (Location.longitude x)
        (Location.latitude x) (Location.altitude x) (Location.unlocode x)
        (Location.address x)
  | Loc_name =>
      Location.mk (Location._identification x) (Some v)
        (Location.longitude x) (Location.latitude x) (Location.altitude x)
        (Location.unlocode x) (Location.address x)
  | Loc_longitude =>
      Location.mk (Location._identification x) (Location._name x) (Some v)
        (Location.latitude x) (Location.altitude x) (Location.unlocode x)
        (Location.address x)
  | Loc_latitude =>
      Location.mk (Location._identification x) (Location._name x)
        (Location.longitude x) (Some v) (Location.altitude x)
        (Location.unlocode x) (Location.address x)
  | Loc_altitude =>
      Location.mk (Location._identification x) (Location._name x)
        (Location.longitude x) (Location.latitude x) (Some v)
        (Location.unlocode x) (Location.address x)
  | Loc_unlocode =>
      Location.mk (Location._identification x) (Location._name x)
        (Location.longitude x) (Location.latitude x) (Location.altitude x)
        (Some v) (Location.address x)
  | Loc_address =>
      Location.mk (Location._identification x) (Location._name x)
        (Location.longitude x) (Location.latitude x) (Location.altitude x)
        (Location.unlocode x) (Some v)
  end.

(** [location.f = v] *)
Definition Location_set (self : addr) (f : Location_field) (v : string)
  : M unit :=
  (o <- load self;;
   match o with
   | OLocation x => store self (OLocation (Location_assign f v x))
   | _ => raise AttributeError
   end)%M.

(** [lifetime.start = v] and [lifetime.end = v] *)
Definition Lifetime_set_start (self : addr) (v : string) : M unit :=
  (o <- load self;;
   match o with
   | OLifetime x => store self (OLifetime (Lifetime.mk (Some v) (Lifetime.end_ x)))
   | _ => raise AttributeError
   end)%M.

Definition Lifetime_set_end (self : addr) (v : string) : M unit :=
  (o <- load self;;
   match o with
   | OLifetime x =>
       store self (OLifetime (Lifetime.mk (Lifetime.start x) (Some v)))
   | _ => raise AttributeError
   end)%M.

(** [label.labeltype = v] and [label.value = v] *)
Definition Label_set_labeltype (self : addr) (v : string) : M unit :=
  (o <- load self;;
   match o with
   | OLabel x => store self (OLabel (Label.mk (Some v) (Label.value x)))
   | _ => raise AttributeError
   end)%M.

Definition Label_set_value (self : addr) (v : string) : M unit :=
  (o <- load self;;
   match o with
   | OLabel x => store self (OLabel (Label.mk (Label.labeltype x) (Some v)))
   | _ => raise AttributeError
   end)%M.

(** ** The markup builder, in place

    The functions above compute the element a [getNML] returns.  The methods
    themselves build it in place: [etree.SubElement] hangs a new, empty
    element under its parent at once, and the assignments to [attrib] and the
    recursive calls that follow fill it where it hangs.  This second
    embedding follows the methods statement by statement, on a store of
    elements addressed by number; [getNML_in_place_refines] shows that it
    builds the element the first computes. *)

Module Etree.
Record node := mk {
  tag : string;
  attrib : list (string * value);
  children : list nat
}.
Definition set_attrib (k v : string) (x : node) : node :=
  mk (tag x) (dict_set k (VStr v) (attrib x)) (children x).
Definition append (c : nat) (x : node) : node :=
  mk (tag x) (attrib x) (children x ++ [c]).
End Etree.

Abbreviation estore := (list Etree.node).
Abbreviation B := (ST estore).

(** [etree.Element(t, nsmap=ns)]: a new element, under nothing. *)
Definition Element_new (t : string) (ns : option (list (string * string)))
  : B nat :=
  fun s => (Ok (length s), s ++ [Etree.mk t (keywords ns) []]).

(** [etree.SubElement(parent, t, nsmap=ns)]: a new element, appended to the
    children of [parent]. *)
Definition SubElement (parent : nat) (t : string)
  (ns : option (list (string * string))) : B nat :=
  fun s =>
    (Ok (length s),
     alter (Etree.append (length s)) parent
       (s ++ [Etree.mk t (keywords ns) []])).

(** [e.attrib[k] = v] *)
Definition attrib_assign (e : nat) (k v : string) : B unit :=
  fun s => (Ok tt, alter (Etree.set_attrib k v) e s).

(** [for x in l: body] *)
Fixpoint mfor {S A} (l : list A) (body : A -> ST S unit) : ST S unit :=
  match l with
  | [] => mret tt
  | x :: l' => (body x;; mfor l' body)%M
  end.

Section InPlace.
Variable rec : addr -> option nat -> B nat.

Definition relation_loop_in_place (ty : string) (coll : list addr)
  (this : nat) : B unit :=
  mfor coll (fun x =>
    relation <- SubElement this "Relation" None;;
    attrib_assign relation "type" ty;;
    _ <- rec x (Some relation);;
    mret tt)%M.

Definition nested_loop_in_place (coll : list addr) (this : nat) : B unit :=
  mfor coll (fun x => _ <- rec x (Some this);; mret tt)%M.

Definition relation_if_in_place (ty : string) (x : option addr) (this : nat)
  : B unit :=
  match x with
  | Some a =>
      (relation <- SubElement this "Relation" None;;
       attrib_assign relation "type" ty;;
       _ <- rec a (Some relation);;
       mret tt)%M
  | None => mret tt
  end.

Definition attrib_if_in_place (k : string) (v : option string) (this : nat)
  : B unit :=
  match v with
  | Some s => if truthy v then attrib_assign this k s else mret tt
  | None => mret tt
  end.

(** [if parent is None: this = etree.Element(...)]
    [else: this = etree.SubElement(parent, ...)] *)
Definition new_this (parent : option nat) (cls : string)
  (ns : option (list (string * string))) : B nat :=
  match parent with
  | None => Element_new cls ns
  | Some p => SubElement p cls ns
  end.

Definition NetworkObject_getNML_in_place (cls : string)
  (self : NetworkObject.t) (parent : option nat) : B nat :=
  (this <- new_this parent cls (Some NAMESPACES);;
   attrib_if_in_place "id" (NetworkObject._identification self) this;;
   attrib_if_in_place "name" (NetworkObject._name self) this;;
   attrib_if_in_place "version" (NetworkObject._version self) this;;
   relation_loop_in_place "isAlias"
     (NetworkObject.is_alias_network_objects self) this;;
   relation_loop_in_place "existsDuring"
     (NetworkObject.exists_during_lifetimes self) this;;
   relation_if_in_place "locatedAt"
     (NetworkObject.located_at_location self) this;;
   mret this)%M.

Definition Node_getNML_in_place (self : Node.t) (parent : option nat)
  : B nat :=
  (this <- NetworkObject_getNML_in_place "Node" (Node.base self) parent;;
   relation_loop_in_place "hasInboundPort"
     (Node.has_inbound_port_ports self) this;;
   relation_loop_in_place "hasOutoundPort"
     (Node.has_outbound_port_ports self) this;;
   relation_loop_in_place "hasService" (Node.has_service_services self) this;;
   nested_loop_in_place (Node.implemented_by_nodes self) this;;
   mret this)%M.

Definition Port_getNML_in_place (self : Port.t) (parent : option nat)
  : B nat :=
  (this <- NetworkObject_getNML_in_place "Port" (Port.base self) parent;;
   attrib_if_in_place "encoding" (Port._encoding self) this;;
   relation_if_in_place "hasLabel" (Port.has_label_label self) this;;
   relation_loop_in_place "hasService" (Port.has_service_services self) this;;
   relation_loop_in_place "isSink" (Port.is_sink_links self) this;;
   relation_loop_in_place "isSource" (Port.is_source_links self) this;;
   mret this)%M.

Definition Link_getNML_in_place (self : Link.t) (parent : option nat)
  : B nat :=
  (this <- NetworkObject_getNML_in_place "Link" (Link.base self) parent;;
   attrib_if_in_place "encoding" (Link._encoding self) this;;
   (if Link.no_return_traffic self
    then attrib_assign this "no_return_traffic"
           (str_bool (Link.no_return_traffic self))
    else mret tt);;
   mret this)%M.

Definition SwitchingService_getNML_in_place (self : SwitchingService.t)
  (parent : option nat) : B nat :=
  (this <- NetworkObject_getNML_in_place "SwitchingService"
             (SwitchingService.base self) parent;;
   attrib_if_in_place "encoding" (SwitchingService._encoding self) this;;
   (if SwitchingService.label_swapping self
    then attrib_assign this "label_swapping"
           (str_bool (SwitchingService.label_swapping self))
    else mret tt);;
   nested_loop_in_place (SwitchingService.has_inbound_port_ports self) this;;
   nested_loop_in_place (SwitchingService.has_outbound_port_ports self) this;;
   nested_loop_in_place (SwitchingService.provides_link_links self) this;;
   mret this)%M.

Definition AdaptationService_getNML_in_place (self : AdaptationService.t)
  (parent : option nat) : B nat :=
  (this <- NetworkObject_getNML_in_place "AdaptationService"
             (AdaptationService.base self) parent;;
   attrib_if_in_place "adaptation_function"
     (AdaptationService.adaptation_function self) this;;
   nested_loop_in_place (AdaptationService.can_provide_port_ports self) this;;
   nested_loop_in_place (AdaptationService.provides_port_ports self) this;;
   mret this)%M.

Definition DeadaptationService_getNML_in_place
  (self : DeadaptationService.t) (parent : option nat) : B nat :=
  (this <- NetworkObject_getNML_in_place "DeadaptationService"
             (DeadaptationService.base self) parent;;
   attrib_if_in_place "adaptation_function"
     (DeadaptationService.adaptation_function self) this;;
   nested_loop_in_place
     (DeadaptationService.can_provide_port_ports self) this;;
   nested_loop_in_place (DeadaptationService.provides_port_ports self) this;;
   mret this)%M.

Definition Topology_getNML_in_place (self : Topology.t)
  (parent : option nat) : B nat :=
  (this <- NetworkObject_getNML_in_place "Topology" (Topology.base self)
             parent;;
   relation_loop_in_place "hasNode" (Topology.has_node_nodes self) this;;
   relation_loop_in_place "hasInboundPort"
     (Topology.has_inbound_port_ports self) this;;
   relation_loop_in_place "hasOutboundPort"
     (Topology.has_outbound_port_ports self) this;;
   relation_loop_in_place "hasService"
     (Topology.has_service_services self) this;;
   relation_loop_in_place "hasTopology"
     (Topology.has_topology_topologies self) this;;
   mret this)%M.

Definition Location_getNML_in_place (self : Location.t)
  (parent : option nat) : B nat :=
  (this <- new_this parent "Location" None;;
   attrib_if_in_place "id" (Location._identification self) this;;
   attrib_if_in_place "name" (Location._name self) this;;
   attrib_if_in_place "long" (Location.longitude self) this;;
   attrib_if_in_place "lat" (Location.latitude self) this;;
   attrib_if_in_place "alt" (Location.altitude self) this;;
   attrib_if_in_place "unlocode" (Location.unlocode self) this;;
   attrib_if_in_place "address" (Location.address self) this;;
   mret this)%M.

Definition Lifetime_getNML_in_place (self : Lifetime.t)
  (parent : option nat) : B nat :=
  (this <- new_this parent "Lifetime" None;;
   attrib_if_in_place "start" (Lifetime.start self) this;;
   attrib_if_in_place "end" (Lifetime.end_ self) this;;
   mret this)%M.

Definition Label_getNML_in_place (self : Label.t) (parent : option nat)
  : B nat :=
  (this <- new_this parent "Label" None;;
   attrib_if_in_place "labeltype" (Label.labeltype self) this;;
   attrib_if_in_place "value" (Label.value self) this;;
   mret this)%M.

Definition getNML_method_in_place (o : obj) (parent : option nat) : B nat :=
  match o with
  | ONode x => Node_getNML_in_place x parent
  | OPort x => Port_getNML_in_place x parent
  | OLink x => Link_getNML_in_place x parent
  | OSwitchingService x => SwitchingService_getNML_in_place x parent
  | OAdaptationService x => AdaptationService_getNML_in_place x parent
  | ODeadaptationService x => DeadaptationService_getNML_in_place x parent
  | OTopology x => Topology_getNML_in_place x parent
  | OPortGroup x =>
      NetworkObject_getNML_in_place "PortGroup" (PortGroup.base x) parent
  | OLinkGroup x =>
      NetworkObject_getNML_in_place "LinkGroup" (LinkGroup.base x) parent
  | OBidirectionalPort x =>
      NetworkObject_getNML_in_place "BidirectionalPort"
        (BidirectionalPort.base x) parent
  | OBidirectionalLink x =>
      NetworkObject_getNML_in_place "BidirectionalLink"
        (BidirectionalLink.base x) parent
  | OLocation x => Location_getNML_in_place x parent
  | OLifetime x => Lifetime_getNML_in_place x parent
  | OLabel x => Label_getNML_in_place x parent
  | OLabelGroup _ | OOrderedList | OListItem => raise AttributeError
  end.

End InPlace.

(** [self.getNML(parent)], in place, on the object at [a]. *)
Fixpoint getNML_in_place (fuel : nat) (h : heap) (a : addr)
  (parent : option nat) : B nat :=
  match fuel with
  | O => lift Diverge
  | S n =>
      match h !! a with
      | Some o => getNML_method_in_place (getNML_in_place n h) o parent
      | None => raise NoSuchObject
      end
  end.

(** The element [e] stands in the store [s] at [id]: the node at [id] has
    the tag and attributes of [e], and its children, in
    order, are where the children of [e] stand.  A child was created after
    its parent, so its number is larger; every number of the tree is below
    [hi]. *)
Fixpoint tree (s : estore) (hi id : nat) (e : element) {struct e} : Prop :=
  match e with
  | Element t a cs =>
      exists nd,
        s !! id = Some nd /\ id < hi /\
        Etree.tag nd = t /\ Etree.attrib nd = a /\
        (fix go (ids : list nat) (cs : list element) {struct cs} : Prop :=
           match cs, ids with
           | [], [] => True
           | c :: cs', i :: ids' => id < i /\ tree s hi i c /\ go ids' cs'
           | _, _ => False
           end) (Etree.children nd) cs
  end.

(** What a finished call of [getNML(parent)] has done to the store [s]: the
    new element has the next free number, the elements that were there are
    as they were, except that the parent has the new element as its last
    child, and the new element [e] stands there in full. *)
Definition built (s : estore) (parent : option nat) (s' : estore)
  (e : element) : Prop :=
  (forall i, i < length s ->
     s' !! i = if decide (parent = Some i)
               then Etree.append (length s) <$> s !! i
               else s !! i) /\
  tree s' (length s') (length s) e.

(** ** Calls, one after the other

    A call of one of the methods (or one of the attribute assignments) of the
    module, with its receiver and arguments. *)
Inductive call :=
| c_set_identification (self : addr) (identification : string)
| c_set_name (self : addr) (name : string)
| c_set_version (self : addr) (version : string)
| c_exists_during (self lifetime : addr)
| c_is_alias (self network_object : addr)
| c_locatedAt (self location : addr)
| c_Node_has_inbound_port (self port : addr)
| c_Node_has_outbound_port (self port : addr)
| c_Node_has_service (self service : addr)
| c_Node_implementedBy (self node : addr)
| c_Port_set_encoding (self : addr) (encoding : string)
| c_Port_has_label (self label : addr)
| c_Port_has_service (self service : addr)
| c_Port_is_sink (self link : addr)
| c_Port_is_source (self link : addr)
| c_Link_set_encoding (self : addr) (encoding : string)
| c_Link_set_no_return_traffic (self : addr) (b : bool)
| c_Link_has_label (self label : addr)
| c_Link_is_serial_compound_link (self : addr) (ordered_links : list addr)
| c_SwitchingService_set_encoding (self : addr) (encoding : string)
| c_SwitchingService_set_label_swapping (self : addr) (b : bool)
| c_SwitchingService_has_inbound_port (self port : addr)
| c_SwitchingService_has_outbound_port (self port : addr)
| c_SwitchingService_provides_link (self link : addr)
| c_AdaptationService_set_adaptation_function (self : addr) (f : string)
| c_AdaptationService_can_provide_port (self port : addr)
| c_AdaptationService_provides_port (self port : addr)
| c_DeadaptationService_set_adaptation_function (self : addr) (f : string)
| c_DeadaptationService_can_provide_port (self port : addr)
| c_DeadaptationService_provides_port (self port : addr)
| c_Topology_has_node (self node : addr)
| c_Topology_has_inbound_port (self port : addr)
| c_Topology_has_outbound_port (self port : addr)
| c_Topology_has_service (self service : addr)
| c_Topology_has_topology (self topology : addr)
| c_PortGroup_set_encoding (self : addr) (encoding : string)
| c_PortGroup_has_label_group (self label_group : addr)
| c_PortGroup_has_port (self port : addr)
| c_PortGroup_is_sink (self link_group : addr)
| c_PortGroup_is_source (self link_group : addr)
| c_LinkGroup_set_encoding (self : addr) (encoding : string)
| c_LinkGroup_has_label_group (self label_group : addr)
| c_LinkGroup_has_link (self link : addr)
| c_LinkGroup_is_serial_compound_link (self link_group : addr)
| c_BidirectionalPort_set_encoding (self : addr) (encoding : string)
| c_BidirectionalPort_has_port (self port0 port1 : addr)
| c_BidirectionalLink_set_encoding (self : addr) (encoding : string)
| c_BidirectionalLink_has_link (self link0 link1 : addr)
| c_Location_set (self : addr) (f : Location_field) (v : string)
| c_Lifetime_set_start (self : addr) (v : string)
| c_Lifetime_set_end (self : addr) (v : string)
| c_Label_set_labeltype (self : addr) (v : string)
| c_Label_set_value (self : addr) (v : string).

Definition receiver (c : call) : addr :=
  match c with
  | c_set_identification self _ | c_set_name self _ | c_set_version self _
  | c_exists_during self _ | c_is_alias self _ | c_locatedAt self _
  | c_Node_has_inbound_port self _ | c_Node_has_outbound_port self _
  | c_Node_has_service self _ | c_Node_implementedBy self _
  | c_Port_set_encoding self _ | c_Port_has_label self _
  | c_Port_has_service self _ | c_Port_is_sink self _
  | c_Port_is_source self _
  | c_Link_set_encoding self _ | c_Link_set_no_return_traffic self _
  | c_Link_has_label self _ | c_Link_is_serial_compound_link self _
  | c_SwitchingService_set_encoding self _
  | c_SwitchingService_set_label_swapping self _
  | c_SwitchingService_has_inbound_port self _
  | c_SwitchingService_has_outbound_port self _
  | c_SwitchingService_provides_link self _
  | c_AdaptationService_set_adaptation_function self _
  | c_AdaptationService_can_provide_port self _
  | c_AdaptationService_provides_port self _
  | c_DeadaptationService_set_adaptation_function self _
  | c_DeadaptationService_can_provide_port self _
  | c_DeadaptationService_provides_port self _
  | c_Topology_has_node self _ | c_Topology_has_inbound_port self _
  | c_Topology_has_outbound_port self _ | c_Topology_has_service self _
  | c_Topology_has_topology self _
  | c_PortGroup_set_encoding self _ | c_PortGroup_has_label_group self _
  | c_PortGroup_has_port self _ | c_PortGroup_is_sink self _
  | c_PortGroup_is_source self _
  | c_LinkGroup_set_encoding self _ | c_LinkGroup_has_label_group self _
  | c_LinkGroup_has_link self _ | c_LinkGroup_is_serial_compound_link self _
  | c_BidirectionalPort_set_encoding self _
  | c_BidirectionalPort_has_port self _ _
  | c_BidirectionalLink_set_encoding self _
  | c_BidirectionalLink_has_link self _ _
  | c_Location_set self _ _
  | c_Lifetime_set_start self _ | c_Lifetime_set_end self _
  | c_Label_set_labeltype self _ | c_Label_set_value self _ => self
  end.

Section Calls.
Variable is_valid_uri : string -> bool.

Definition exec (c : call) : M unit :=
  match c with
  | c_set_identification self s =>
      NetworkObject_set_identification is_valid_uri self s
  | c_set_name self s => NetworkObject_set_name self s
  | c_set_version self s => NetworkObject_set_version self s
  | c_exists_during self l => NetworkObject_exists_during self l
  | c_is_alias self n => NetworkObject_is_alias self n
  | c_locatedAt self l => NetworkObject_locatedAt self l
  | c_Node_has_inbound_port self p => Node_has_inbound_port self p
  | c_Node_has_outbound_port self p => Node_has_outbound_port self p
  | c_Node_has_service self s => Node_has_service self s
  | c_Node_implementedBy self n => Node_implementedBy self n
  | c_Port_set_encoding self s => Port_set_encoding self s
  | c_Port_has_label self l => Port_has_label self l
  | c_Port_has_service self s => Port_has_service self s
  | c_Port_is_sink self l => Port_is_sink self l
  | c_Port_is_source self l => Port_is_source self l
  | c_Link_set_encoding self s => Link_set_encoding self s
  | c_Link_set_no_return_traffic self b => Link_set_no_return_traffic self b
  | c_Link_has_label self l => Link_has_label self l
  | c_Link_is_serial_compound_link self ls =>
      Link_is_serial_compound_link self ls
  | c_SwitchingService_set_encoding self s =>
      SwitchingService_set_encoding self s
  | c_SwitchingService_set_label_swapping self b =>
      SwitchingService_set_label_swapping self b
  | c_SwitchingService_has_inbound_port self p =>
      SwitchingService_has_inbound_port self p
  | c_SwitchingService_has_outbound_port self p =>
      SwitchingService_has_outbound_port self p
  | c_SwitchingService_provides_link self l =>
      SwitchingService_provides_link self l
  | c_AdaptationService_set_adaptation_function self f =>
      AdaptationService_set_adaptation_function self f
  | c_AdaptationService_can_provide_port self p =>
      AdaptationService_can_provide_port self p
  | c_AdaptationService_provides_port self p =>
      AdaptationService_provides_port self p
  | c_DeadaptationService_set_adaptation_function self f =>
      DeadaptationService_set_adaptation_function self f
  | c_DeadaptationService_can_provide_port self p =>
      DeadaptationService_can_provide_port self p
  | c_DeadaptationService_provides_port self p =>
      DeadaptationService_provides_port self p
  | c_Topology_has_node self n => Topology_has_node self n
  | c_Topology_has_inbound_port self p => Topology_has_inbound_port self p
  | c_Topology_has_outbound_port self p => Topology_has_outbound_port self p
  | c_Topology_has_service self s => Topology_has_service self s
  | c_Topology_has_topology self t => Topology_has_topology self t
  | c_PortGroup_set_encoding self s => PortGroup_set_encoding self s
  | c_PortGroup_has_label_group self g => PortGroup_has_label_group self g
  | c_PortGroup_has_port self p => PortGroup_has_port self p
  | c_PortGroup_is_sink self g => PortGroup_is_sink self g
  | c_PortGroup_is_source self g => PortGroup_is_source self g
  | c_LinkGroup_set_encoding self s => LinkGroup_set_encoding self s
  | c_LinkGroup_has_label_group self g => LinkGroup_has_label_group self g
  | c_LinkGroup_has_link self l => LinkGroup_has_link self l
  | c_LinkGroup_is_serial_compound_link self g =>
      LinkGroup_is_serial_compound_link self g
  | c_BidirectionalPort_set_encoding self s =>
      BidirectionalPort_set_encoding self s
  | c_BidirectionalPort_has_port self p0 p1 =>
      BidirectionalPort_has_port self p0 p1
  | c_BidirectionalLink_set_encoding self s =>
      BidirectionalLink_set_encoding self s
  | c_BidirectionalLink_has_link self l0 l1 =>
      BidirectionalLink_has_link self l0 l1
  | c_Location_set self f v => Location_set self f v
  | c_Lifetime_set_start self v => Lifetime_set_start self v
  | c_Lifetime_set_end self v => Lifetime_set_end self v
  | c_Label_set_labeltype self v => Label_set_labeltype self v
  | c_Label_set_value self v => Label_set_value self v
  end.

(** A caller that makes the calls in turn and goes on after an exception:
    the store it ends with. *)
Definition run (cs : list call) (h : heap) : heap :=
  foldl (fun h c => (exec c h).2) h cs.
End Calls.

(** The class name of the object at an address. *)
Definition class_at (h : heap) (a : addr) : option string :=
  class_name <$> h !! a.

(** What the three validated setters are there to keep: the aliases of an
    object are of its class, the lifetimes it exists during are [Lifetime]s,
    and the ports an [AdaptationService] can provide are [Port]s or
    [PortGroup]s. *)
Definition validated_obj (h : heap) (o : obj) : bool :=
  match base_of o with
  | None => true
  | Some b =>
      forallb (fun x => bool_decide (class_at h x = Some (class_name o)))
        (NetworkObject.is_alias_network_objects b)
      && forallb (fun l => bool_decide (class_at h l = Some "Lifetime"))
           (NetworkObject.exists_during_lifetimes b)
      && match o with
         | OAdaptationService x =>
             forallb (fun p => bool_decide
                                 (class_at h p
                                    ∈ [Some "Port"; Some "PortGroup"]))
               (AdaptationService.can_provide_port_ports x)
         | _ => true
         end
  end.

Definition validated (h : heap) : bool := forallb (validated_obj h) h.

(** The setters whose collection or field no [getNML] reads. *)
Definition unserialized (c : call) : bool :=
  match c with
  | c_Link_has_label _ _ | c_Link_is_serial_compound_link _ _
  | c_AdaptationService_provides_port _ _
  | c_DeadaptationService_provides_port _ _
  | c_PortGroup_set_encoding _ _ | c_PortGroup_has_label_group _ _
  | c_PortGroup_has_port _ _ | c_PortGroup_is_sink _ _
  | c_PortGroup_is_source _ _
  | c_LinkGroup_set_encoding _ _ | c_LinkGroup_has_label_group _ _
  | c_LinkGroup_has_link _ _ | c_LinkGroup_is_serial_compound_link _ _
  | c_BidirectionalPort_set_encoding _ _ | c_BidirectionalPort_has_port _ _ _
  | c_BidirectionalLink_set_encoding _ _
  | c_BidirectionalLink_has_link _ _ _ => true
  | _ => false
  end.

(** ** The shape of a document

    The relation types the serializers write, the element names they use,
    and the attributes each element can carry, collected from the [getNML]
    methods. *)
Definition relation_types : list string :=
  ["isAlias"; "existsDuring"; "locatedAt"; "hasInboundPort"; "hasOutoundPort";
   "hasService"; "hasLabel"; "isSink"; "isSource"; "hasNode";
   "hasOutboundPort"; "hasTopology"].

Definition leaf_classes : list string := ["Location"; "Lifetime"; "Label"].

Definition allowed_keys (t : string) : list string :=
  if bool_decide (t ∈ ["Port"]) then ["id"; "name"; "version"; "encoding"]
  else if bool_decide (t = "Link")
  then ["id"; "name"; "version"; "encoding"; "no_return_traffic"]
  else if bool_decide (t = "SwitchingService")
  then ["id"; "name"; "version"; "encoding"; "label_swapping"]
  else if bool_decide (t ∈ ["AdaptationService"; "DeadaptationService"])
  then ["id"; "name"; "version"; "adaptation_function"]
  else if bool_decide (t = "Location")
  then ["id"; "name"; "long"; "lat"; "alt"; "unlocode"; "address"]
  else if bool_decide (t = "Lifetime") then ["start"; "end"]
  else if bool_decide (t = "Label") then ["labeltype"; "value"]
  else if bool_decide
            (t ∈ ["Node"; "Topology"; "PortGroup"; "LinkGroup";
                  "BidirectionalPort"; "BidirectionalLink"])
  then ["id"; "name"; "version"]
  else [].

(** One attribute of the element of an object: a key among [allowed] with
    a string that is not empty, or [nsmap] with the dictionary
    [NAMESPACES]. *)
Definition attribute_ok (allowed : list string) (kv : string * value)
  : bool :=
  match kv.2 with
  | VStr s => bool_decide (kv.1 ∈ allowed) && negb (String.eqb s "")
  | VDict d => String.eqb kv.1 "nsmap" && bool_decide (d = NAMESPACES)
  end.

(** The attributes of an element: each in order, no key twice. *)
Definition attrib_ok (allowed : list string) (a : list (string * value))
  : bool :=
  forallb (attribute_ok allowed) a && bool_decide (NoDup (a.*1)).

(** One element, given that its children are in order. *)
Definition element_ok (t : string) (a : list (string * value))
  (cs : list element) : bool :=
  if String.eqb t "Relation"
  then match a with
       | [(k, VStr ty)] => String.eqb k "type"
                           && bool_decide (ty ∈ relation_types)
       | _ => false
       end
       && match cs with
          | [c] => negb (String.eqb (tag c) "Relation")
          | _ => false
          end
  else negb (bool_decide (allowed_keys t = []))
       && attrib_ok (allowed_keys t) a
       && (if bool_decide (t ∈ leaf_classes)
           then bool_decide (dict_get "nsmap" a = None)
                && bool_decide (cs = [])
           else bool_decide (dict_get "nsmap" a = Some (VDict NAMESPACES))).

(** A document in order: every element is a [Relation] with one [type]
    attribute of the vocabulary around exactly one entity, or an entity
    named after a class, with string attributes of that class and, unless
    it is a [Location], [Lifetime] or [Label], the attribute [nsmap] that
    holds the dictionary [NAMESPACES]. *)
Fixpoint well_formed (e : element) : bool :=
  match e with
  | Element t a cs => element_ok t a cs && forallb well_formed cs
  end.

(** The serialization of an object, as it may stand under a parent. *)
Definition entity_ok (c : element) : Prop :=
  well_formed c = true /\ tag c <> "Relation".

(** An element under construction. *)
Definition building (allowed : list string) (e : element) : Prop :=
  attrib_ok allowed (attrib e) = true /\
  forallb well_formed (children e) = true.

(** ** What a document is made of

    The attributes and the children of the element of an object, read off
    the serializers: the keyword [nsmap] the element is created with, where
    one is passed, then the entries [if v: this.attrib[k] = v] leaves, in
    the order of the statements; and the related objects in the order the
    loops visit them, each with the type of the [Relation] that wraps it, or
    without one where the loop hands [this] itself to the child. *)

(** [if v: this.attrib[k] = v], on an element that has no [k] yet. *)
Definition present (k : string) (v : option string)
  : list (string * value) :=
  match v with
  | Some s => if truthy v then [(k, VStr s)] else []
  | None => []
  end.

(** [if b: this.attrib[k] = str(b)] *)
Definition flag (k : string) (b : bool) : list (string * value) :=
  if b then [(k, VStr (str_bool b))] else [].

Definition NetworkObject_attrs (b : NetworkObject.t)
  : list (string * value) :=
  keywords (Some NAMESPACES)
  ++ present "id" (NetworkObject._identification b)
  ++ present "name" (NetworkObject._name b)
  ++ present "version" (NetworkObject._version b).

Definition attrs_of (o : obj) : list (string * value) :=
  match o with
  | OPort x =>
      NetworkObject_attrs (Port.base x)
      ++ present "encoding" (Port._encoding x)
  | OLink x =>
      NetworkObject_attrs (Link.base x)
      ++ present "encoding" (Link._encoding x)
      ++ flag "no_return_traffic" (Link.no_return_traffic x)
  | OSwitchingService x =>
      NetworkObject_attrs (SwitchingService.base x)
      ++ present "encoding" (SwitchingService._encoding x)
      ++ flag "label_swapping" (SwitchingService.label_swapping x)
  | OAdaptationService x =>
      NetworkObject_attrs (AdaptationService.base x)
      ++ present "adaptation_function"
           (AdaptationService.adaptation_function x)
  | ODeadaptationService x =>
      NetworkObject_attrs (DeadaptationService.base x)
      ++ present "adaptation_function"
           (DeadaptationService.adaptation_function x)
  | OLocation x =>
      present "id" (Location._identification x)
      ++ present "name" (Location._name x)
      ++ present "long" (Location.longitude x)
      ++ present "lat" (Location.latitude x)
      ++ present "alt" (Location.altitude x)
      ++ present "unlocode" (Location.unlocode x)
      ++ present "address" (Location.address x)
  | OLifetime x =>
      present "start" (Lifetime.start x) ++ present "end" (Lifetime.end_ x)
  | OLabel x =>
      present "labeltype" (Label.labeltype x)
      ++ present "value" (Label.value x)
  | _ =>
      match base_of o with
      | Some b => NetworkObject_attrs b
      | None => []
      end
  end.

(** A related object and how its element is attached: inside a [Relation]
    of the given type, or directly. *)
Abbreviation link := (option string * addr)%type.

Definition wrapped (ty : string) (coll : list addr) : list link :=
  map (pair (Some ty)) coll.

Definition nested (coll : list addr) : list link := map (pair None) coll.

Arguments wrapped : simpl never.
Arguments nested : simpl never.

Definition NetworkObject_links (b : NetworkObject.t) : list link :=
  wrapped "isAlias" (NetworkObject.is_alias_network_objects b)
  ++ wrapped "existsDuring" (NetworkObject.exists_during_lifetimes b)
  ++ wrapped "locatedAt" (option_list (NetworkObject.located_at_location b)).

Definition links (o : obj) : list link :=
  match o with
  | ONode x =>
      NetworkObject_links (Node.base x)
      ++ wrapped "hasInboundPort" (Node.has_inbound_port_ports x)
      ++ wrapped "hasOutoundPort" (Node.has_outbound_port_ports x)
      ++ wrapped "hasService" (Node.has_service_services x)
      ++ nested (Node.implemented_by_nodes x)
  | OPort x =>
      NetworkObject_links (Port.base x)
      ++ wrapped "hasLabel" (option_list (Port.has_label_label x))
      ++ wrapped "hasService" (Port.has_service_services x)
      ++ wrapped "isSink" (Port.is_sink_links x)
      ++ wrapped "isSource" (Port.is_source_links x)
  | OSwitchingService x =>
      NetworkObject_links (SwitchingService.base x)
      ++ nested (SwitchingService.has_inbound_port_ports x)
      ++ nested (SwitchingService.has_outbound_port_ports x)
      ++ nested (SwitchingService.provides_link_links x)
  | OAdaptationService x =>
      NetworkObject_links (AdaptationService.base x)
      ++ nested (AdaptationService.can_provide_port_ports x)
      ++ nested (AdaptationService.provides_port_ports x)
  | ODeadaptationService x =>
      NetworkObject_links (DeadaptationService.base x)
      ++ nested (DeadaptationService.can_provide_port_ports x)
      ++ nested (DeadaptationService.provides_port_ports x)
  | OTopology x =>
      NetworkObject_links (Topology.base x)
      ++ wrapped "hasNode" (Topology.has_node_nodes x)
      ++ wrapped "hasInboundPort" (Topology.has_inbound_port_ports x)
      ++ wrapped "hasOutboundPort" (Topology.has_outbound_port_ports x)
      ++ wrapped "hasService" (Topology.has_service_services x)
      ++ wrapped "hasTopology" (Topology.has_topology_topologies x)
  | _ =>
      match base_of o with
      | Some b => NetworkObject_links b
      | None => []
      end
  end.

(** The child an element gets for a related object whose own element is
    [c]. *)
Definition attach (l : link) (c : element) : element :=
  match l.1 with
  | Some ty => Relation ty c
  | None => c
  end.

(** The children [cs] were added to the children [c0], one for each of the
    links [ls], in order, each the element [rec] returned for it. *)
Definition serialized (rec : addr -> outcome element) (ls : list link)
  (c0 c : list element) : Prop :=
  exists cs,
    Forall2 (fun l e => rec l.2 = Ok e) ls cs /\
    c = c0 ++ zip_with attach ls cs.

(** The objects [getNML] on the object at [a] gets to. *)
Inductive reach (h : heap) : addr -> addr -> Prop :=
| reach_refl a : reach h a a
| reach_step a o b c :
    h !! a = Some o -> b ∈ refs_of o -> reach h b c -> reach h a c.

(** A chain of [n] objects with a [getNML], each related to the next, from
    the object at [a]: the calls that are under way when the recursion is
    [n] deep. *)
Inductive chain (h : heap) : nat -> addr -> Prop :=
| chain_O a : chain h 0 a
| chain_S n a o b :
    h !! a = Some o -> has_getNML o = true -> b ∈ refs_of o ->
    chain h n b -> chain h (S n) a.



(** ** A store to run examples on

    A topology (0) with a node (1) and a deadaptation service (3) that share
    a port (2); the port has a label (4), the topology a lifetime (5) and a
    location (6).  The label group (7) is not related to anything; the two
    links (8, 9) are aliases of each other. *)
Definition example_store : heap :=
  [ OTopology
      (Topology.mk
         (NetworkObject.mk [5] [] (Some 6)
            (Some "urn:ogf:network:example.org:topology") (Some "t") None)
         [1] [] [2] [3] []);
    ONode
      (Node.mk (NetworkObject.set__name (Some "n") NetworkObject.init)
         [2] [2] [] []);
    OPort (Port.mk NetworkObject.init (Some 4) [] [] [] (Some "urn:enc"));
    ODeadaptationService
      (DeadaptationService.mk NetworkObject.init (Some "f") [2] []);
    OLabel (Label.mk None (Some "7"));
    OLifetime (Lifetime.mk (Some "2024") None);
    OLocation (Location.mk None (Some "here") (Some "1.0") None None None
                 None);
    OLabelGroup LabelGroup.init;
    OLink
      (Link.mk (NetworkObject.set_is_alias_network_objects [9]
                  NetworkObject.init) None [] None true None);
    OLink
      (Link.mk (NetworkObject.set_is_alias_network_objects [8]
                  NetworkObject.init) None [] None false None) ].

(** Every member of [trap] is an object of the store that relates, for
    serialization, to a member of [trap]. *)
Definition trapped (h : heap) (trap : list addr) : bool :=
  forallb (fun a =>
             match h !! a with
             | Some o => existsb (fun b => bool_decide (b ∈ trap)) (refs_of o)
             | None => false
             end) trap.

(** Every object at an address of [S] relates, for serialization, to
    addresses of [S] only. *)
Definition closed (h : heap) (S : list addr) : bool :=
  forallb (fun a =>
             match h !! a with
             | Some o => forallb (fun b => bool_decide (b ∈ S)) (refs_of o)
             | None => true
             end) S.

(** The key [Location.getNML] writes a field under. *)
Definition Location_key (f : Location_field) : string :=
  match f with
  | Loc_identification => "id"
  | Loc_name => "name"
  | Loc_longitude => "long"
  | Loc_latitude => "lat"
  | Loc_altitude => "alt"
  | Loc_unlocode => "unlocode"
  | Loc_address => "address"
  end.

(** The assignments to a scalar field that a [getNML] reads: the key the
    serializer of the receiver writes the field under, and the value that
    is assigned (for the two flags, what [str] makes of it when the
    serializer looks at it at all). *)
Definition written (c : call) : option (string * option string) :=
  match c with
  | c_set_identification _ s => Some ("id", Some s)
  | c_set_name _ s => Some ("name", Some s)
  | c_set_version _ s => Some ("version", Some s)
  | c_Port_set_encoding _ s | c_Link_set_encoding _ s
  | c_SwitchingService_set_encoding _ s => Some ("encoding", Some s)
  | c_Link_set_no_return_traffic _ b =>
      Some ("no_return_traffic", if b then Some (str_bool b) else None)
  | c_SwitchingService_set_label_swapping _ b =>
      Some ("label_swapping", if b then Some (str_bool b) else None)
  | c_AdaptationService_set_adaptation_function _ f
  | c_DeadaptationService_set_adaptation_function _ f =>
      Some ("adaptation_function", Some f)
  | c_Location_set _ f v => Some (Location_key f, Some v)
  | c_Lifetime_set_start _ v => Some ("start", Some v)
  | c_Lifetime_set_end _ v => Some ("end", Some v)
  | c_Label_set_labeltype _ v => Some ("labeltype", Some v)
  | c_Label_set_value _ v => Some ("value", Some v)
  | _ => None
  end.

(** The setters that relate the receiver to an object its [getNML]
    visits, with the relation as the serializer of the receiver attaches
    it. *)
Definition related (c : call) : option link :=
  match c with
  | c_exists_during _ l => Some (Some "existsDuring", l)
  | c_is_alias _ n => Some (Some "isAlias", n)
  | c_locatedAt _ l => Some (Some "locatedAt", l)
  | c_Node_has_inbound_port _ p => Some (Some "hasInboundPort", p)
  | c_Node_has_outbound_port _ p => Some (Some "hasOutoundPort", p)
  | c_Node_has_service _ s => Some (Some "hasService", s)
  | c_Node_implementedBy _ n => Some (None, n)
  | c_Port_has_label _ l => Some (Some "hasLabel", l)
  | c_Port_has_service _ s => Some (Some "hasService", s)
  | c_Port_is_sink _ l => Some (Some "isSink", l)
  | c_Port_is_source _ l => Some (Some "isSource", l)
  | c_SwitchingService_has_inbound_port _ p
  | c_SwitchingService_has_outbound_port _ p => Some (None, p)
  | c_SwitchingService_provides_link _ l => Some (None, l)
  | c_AdaptationService_can_provide_port _ p
  | c_DeadaptationService_can_provide_port _ p => Some (None, p)
  | c_Topology_has_node _ n => Some (Some "hasNode", n)
  | c_Topology_has_inbound_port _ p => Some (Some "hasInboundPort", p)
  | c_Topology_has_outbound_port _ p => Some (Some "hasOutboundPort", p)
  | c_Topology_has_service _ s => Some (Some "hasService", s)
  | c_Topology_has_topology _ t => Some (Some "hasTopology", t)
  | _ => None
  end.

(** ** A validator to run examples with

    [is_valid_uri] is a parameter of the development.  Where an example needs
    a concrete one, it uses this check of the scheme rule alone: the string
    starts with a letter, goes on with letters, digits, [+], [-] or [.], and
    reaches a colon. *)
Definition is_alpha (c : ascii) : bool :=
  let n := nat_of_ascii c in
  (Nat.leb 65 n && Nat.leb n 90) || (Nat.leb 97 n && Nat.leb n 122).

Definition is_scheme_char (c : ascii) : bool :=
  let n := nat_of_ascii c in
  is_alpha c || (Nat.leb 48 n && Nat.leb n 57)
  || Nat.eqb n 43 || Nat.eqb n 45 || Nat.eqb n 46.

Fixpoint scheme_rest (s : string) : bool :=
  match s with
  | EmptyString => false
  | String c s' =>
      if Nat.eqb (nat_of_ascii c) 58 then true
      else is_scheme_char c && scheme_rest s'
  end.

Definition has_scheme (s : string) : bool :=
  match s with
  | EmptyString => false
  | String c s' => is_alpha c && scheme_rest s'
  end.

(** [r ⊑ r']: [r'] is [r], or [r] had not finished. *)
Definition le_outcome {A} (r r' : outcome A) : Prop := r = Diverge \/ r = r'.

(** [e'] is [e] with more children at the end and, possibly, other
    attributes; the attribute [nsmap] is as it was. *)
Definition grows (e e' : element) : Prop :=
  tag e' = tag e /\
  dict_get "nsmap" (attrib e') = dict_get "nsmap" (attrib e) /\
  children e `prefix_of` children e'.

(** The call returned a value. *)
Definition is_Ok {A} (r : outcome A) : Prop := exists a, r = Ok a.

(** A statement of a [getNML] that works on the element [this], run on the
    store [s], against what the functional serializer computes for it. *)
Definition step (this : nat) (s : estore) (m : B unit) (r : outcome element)
  : Prop :=
  match r with
  | Ok e' =>
      exists s', m s = (Ok tt, s') /\ tree s' (length s') this e' /\
                 forall i, i < this -> s' !! i = s !! i
  | Raise x => exists s', m s = (Raise x, s')
  | Diverge => exists s', m s = (Diverge, s')
  end.

(** The rest of a [getNML], down to [return this]. *)
Definition sim (this : nat) (s : estore) (m : B nat) (r : outcome element)
  : Prop :=
  match r with
  | Ok e' =>
      exists s', m s = (Ok this, s') /\ tree s' (length s') this e' /\
                 forall i, i < this -> s' !! i = s !! i
  | Raise x => exists s', m s = (Raise x, s')
  | Diverge => exists s', m s = (Diverge, s')
  end.

(** A whole call [getNML(parent)]. *)
Definition done_as (s : estore) (parent : option nat) (m : B nat)
  (r : outcome element) : Prop :=
  match r with
  | Ok e => exists s', m s = (Ok (length s), s') /\ built s parent s' e
  | Raise x => exists s', m s = (Raise x, s')
  | Diverge => exists s', m s = (Diverge, s')
  end.

Definition refines (rec : addr -> outcome element)
  (rec' : addr -> option nat -> B nat) : Prop :=
  forall a parent s,
    (forall p, parent = Some p -> p < length s) ->
    done_as s parent (rec' a parent) (rec a).

(** * Properties *)

(** ** Outcomes: more fuel never changes an answer *)

Lemma le_outcome_refl {A} (r : outcome A) : le_outcome r r.
Proof. by right. Qed.

Lemma le_outcome_trans {A} (r1 r2 r3 : outcome A) :
  le_outcome r1 r2 -> le_outcome r2 r3 -> le_outcome r1 r3.
Proof. intros [->| ->] H; [by left | done]. Qed.

Lemma le_outcome_Ok {A} (r : outcome A) a :
  le_outcome (Ok a) r -> r = Ok a.
Proof. by intros [?| <-]. Qed.

Lemma le_outcome_Raise {A} (r : outcome A) e :
  le_outcome (Raise e) r -> r = Raise e.
Proof. by intros [?| <-]. Qed.

Lemma le_outcome_antisym {A} (r r' : outcome A) :
  le_outcome r r' -> le_outcome r' r -> r = r'.
Proof. intros [->|] [->|]; congruence. Qed.

Lemma obind_mono {A B} (r r' : outcome A) (k k' : A -> outcome B) :
  le_outcome r r' -> (forall a, le_outcome (k a) (k' a)) ->
  le_outcome (obind r k) (obind r' k').
Proof.
  intros [->| <-] Hk; [by left |].
  destruct r; simpl; [apply Hk | by right | by left].
Qed.

Lemma ofold_mono {A B} (body body' : B -> A -> outcome B) l :
  (forall acc x, le_outcome (body acc x) (body' acc x)) ->
  forall acc, le_outcome (ofold body acc l) (ofold body' acc l).
Proof.
  intros Hb. induction l as [|x l IH]; intros acc; simpl.
  - apply le_outcome_refl.
  - apply obind_mono; [apply Hb | apply IH].
Qed.

Section SerializerMono.
Variables rec rec' : addr -> outcome element.
Hypothesis Hrec : forall a, le_outcome (rec a) (rec' a).

Lemma relation_loop_mono ty coll this :
  le_outcome (relation_loop rec ty coll this)
             (relation_loop rec' ty coll this).
Proof.
  apply ofold_mono. intros acc x.
  apply obind_mono; [apply Hrec | intros; apply le_outcome_refl].
Qed.

Lemma nested_loop_mono coll this :
  le_outcome (nested_loop rec coll this) (nested_loop rec' coll this).
Proof.
  apply ofold_mono. intros acc x.
  apply obind_mono; [apply Hrec | intros; apply le_outcome_refl].
Qed.

Lemma relation_if_mono ty x this :
  le_outcome (relation_if rec ty x this) (relation_if rec' ty x this).
Proof.
  destruct x as [a|]; simpl; [| apply le_outcome_refl].
  apply obind_mono; [apply Hrec | intros; apply le_outcome_refl].
Qed.

Local Ltac mono :=
  repeat first
    [ apply le_outcome_refl
    | apply relation_loop_mono
    | apply nested_loop_mono
    | apply relation_if_mono
    | apply obind_mono; [| intros ?] ].

Lemma NetworkObject_getNML_mono cls b :
  le_outcome (NetworkObject_getNML rec cls b)
             (NetworkObject_getNML rec' cls b).
Proof. unfold NetworkObject_getNML. mono. Qed.

Lemma getNML_method_mono o :
  le_outcome (getNML_method rec o) (getNML_method rec' o).
Proof.
  destruct o; simpl;
    try apply NetworkObject_getNML_mono; try apply le_outcome_refl;
    unfold Node_getNML, Port_getNML, Link_getNML, SwitchingService_getNML,
      AdaptationService_getNML, DeadaptationService_getNML, Topology_getNML;
    (apply obind_mono; [apply NetworkObject_getNML_mono | intros ?]); mono.
Qed.
End SerializerMono.

Lemma getNML_S fuel h a :
  le_outcome (getNML fuel h a) (getNML (S fuel) h a).
Proof.
  revert a. induction fuel as [|n IH]; intros a; [by left |].
  change (le_outcome
            (match h !! a with
             | Some o => getNML_method (getNML n h) o
             | None => Raise NoSuchObject end)
            (match h !! a with
             | Some o => getNML_method (getNML (S n) h) o
             | None => Raise NoSuchObject end)).
  destruct (h !! a); [| apply le_outcome_refl].
  by apply getNML_method_mono.
Qed.

Lemma getNML_mono fuel fuel' h a :
  fuel <= fuel' -> le_outcome (getNML fuel h a) (getNML fuel' h a).
Proof.
  induction 1 as [|m _ IH]; [apply le_outcome_refl |].
  eapply le_outcome_trans; [apply IH | apply getNML_S].
Qed.

(** Two runs that both finish give the same answer, whatever their fuel. *)
Lemma getNML_fuel_irrelevant f1 f2 h a :
  getNML f1 h a <> Diverge -> getNML f2 h a <> Diverge ->
  getNML f1 h a = getNML f2 h a.
Proof.
  intros H1 H2.
  destruct (getNML_mono f1 (f1 `max` f2) h a ltac:(lia)) as [?|E1]; [done |].
  destruct (getNML_mono f2 (f1 `max` f2) h a ltac:(lia)) as [?|E2]; [done |].
  congruence.
Qed.

(** The serializer reads [rec] only: equal recursive answers, equal
    result. *)
Lemma getNML_method_ext rec rec' o :
  (forall a, rec a = rec' a) -> getNML_method rec o = getNML_method rec' o.
Proof.
  intros H. apply le_outcome_antisym; apply getNML_method_mono;
    intros a; rewrite H; apply le_outcome_refl.
Qed.

(** ** Dictionaries *)

Lemma dict_get_set_eq {V} k (v : V) d :
  dict_get k (dict_set k v d) = Some v.
Proof.
  induction d as [|[k' v'] d IH]; simpl.
  - by rewrite String.eqb_refl.
  - destruct (String.eqb k k') eqn:E; simpl; rewrite ?String.eqb_refl, ?E;
      done.
Qed.

Lemma dict_get_set_ne {V} k k' (v : V) d :
  k <> k' -> dict_get k (dict_set k' v d) = dict_get k d.
Proof.
  intros Hne. apply String.eqb_neq in Hne.
  induction d as [|[k'' v''] d IH]; simpl.
  - by rewrite Hne.
  - destruct (String.eqb k' k'') eqn:E; simpl.
    + apply String.eqb_eq in E as <-. by rewrite Hne.
    + by rewrite IH.
Qed.

Lemma dict_get_attrib_if_ne k k' v e :
  k <> k' -> dict_get k (attrib (attrib_if k' v e)) = dict_get k (attrib e).
Proof.
  intros Hne. unfold attrib_if. destruct v; [| done].
  destruct (truthy _); [| done]. destruct e; simpl.
  by apply dict_get_set_ne.
Qed.

Lemma dict_get_attrib_if_eq k s e :
  s <> "" -> dict_get k (attrib (attrib_if k (Some s) e)) = Some (VStr s).
Proof.
  intros Hs. unfold attrib_if, truthy.
  apply String.eqb_neq in Hs as ->. destruct e; simpl.
  apply dict_get_set_eq.
Qed.

(** ** The shape of what the loops build *)

Lemma obind_Ok {A B} (r : outcome A) (k : A -> outcome B) b :
  obind r k = Ok b -> exists a, r = Ok a /\ k a = Ok b.
Proof. destruct r; simpl; [eauto | done | done]. Qed.

Lemma grows_refl e : grows e e.
Proof. by repeat split. Qed.

Lemma grows_trans e1 e2 e3 : grows e1 e2 -> grows e2 e3 -> grows e1 e3.
Proof.
  intros (?&?&?) (?&?&?). repeat split; [congruence.. | by etrans].
Qed.

Lemma grows_append_child e c : grows e (append_child e c).
Proof. destruct e. repeat split. by apply prefix_app_r. Qed.

Lemma grows_set_attrib k v e : k <> "nsmap" -> grows e (set_attrib k v e).
Proof.
  intros Hk. destruct e. split; [done |]. split; [| done]. simpl.
  apply dict_get_set_ne. by apply not_eq_sym.
Qed.

Lemma grows_attrib_if k v e : k <> "nsmap" -> grows e (attrib_if k v e).
Proof.
  intros Hk. unfold attrib_if. destruct v; [| apply grows_refl].
  destruct (truthy _); [by apply grows_set_attrib | apply grows_refl].
Qed.

Lemma tag_attrib_if k v e : tag (attrib_if k v e) = tag e.
Proof.
  unfold attrib_if. destruct v; [| done].
  destruct (truthy _); [| done]. by destruct e.
Qed.

Lemma grows_elem_of e e' c : grows e e' -> c ∈ children e -> c ∈ children e'.
Proof. intros (_&_&[cs ->]) ?. apply elem_of_app. by left. Qed.

Lemma elem_of_append_child e c : c ∈ children (append_child e c).
Proof. destruct e; simpl. apply elem_of_app. right. by apply list_elem_of_singleton. Qed.

Section SerializerShape.
Variable rec : addr -> outcome element.

(** A relation loop that returns has serialized every member of the
    collection, wrapped each result and kept what was there before. *)
Lemma relation_loop_Ok ty coll : forall this this',
  relation_loop rec ty coll this = Ok this' ->
  grows this this' /\ attrib this' = attrib this /\
  forall x, x ∈ coll ->
    exists c, rec x = Ok c /\ Relation ty c ∈ children this'.
Proof.
  unfold relation_loop.
  induction coll as [|y coll IH]; intros this this' H; simpl in H.
  - injection H as <-. split; [apply grows_refl |]. split; [done |].
    intros x Hx. by apply elem_of_nil in Hx.
  - apply obind_Ok in H as (acc & H1 & H2).
    apply obind_Ok in H1 as (c & Hc & [= <-]).
    destruct (IH _ _ H2) as (Hg & Ha & Hin).
    split; [eapply grows_trans; [apply grows_append_child | done] |].
    split; [rewrite Ha; by destruct this |].
    intros x [->|Hx]%elem_of_cons; [| by apply Hin].
    exists c. split; [done |].
    eapply grows_elem_of; [done | apply elem_of_append_child].
Qed.

Lemma nested_loop_Ok coll : forall this this',
  nested_loop rec coll this = Ok this' ->
  grows this this' /\ attrib this' = attrib this /\
  forall x, x ∈ coll -> exists c, rec x = Ok c /\ c ∈ children this'.
Proof.
  unfold nested_loop.
  induction coll as [|y coll IH]; intros this this' H; simpl in H.
  - injection H as <-. split; [apply grows_refl |]. split; [done |].
    intros x Hx. by apply elem_of_nil in Hx.
  - apply obind_Ok in H as (acc & H1 & H2).
    apply obind_Ok in H1 as (c & Hc & [= <-]).
    destruct (IH _ _ H2) as (Hg & Ha & Hin).
    split; [eapply grows_trans; [apply grows_append_child | done] |].
    split; [rewrite Ha; by destruct this |].
    intros x [->|Hx]%elem_of_cons; [| by apply Hin].
    exists c. split; [done |].
    eapply grows_elem_of; [done | apply elem_of_append_child].
Qed.

Lemma relation_if_Ok ty x this this' :
  relation_if rec ty x this = Ok this' ->
  grows this this' /\ attrib this' = attrib this.
Proof.
  destruct x as [a|]; simpl; intros H.
  - apply obind_Ok in H as (c & Hc & [= <-]).
    split; [apply grows_append_child | by destruct this].
  - injection H as <-. split; [apply grows_refl | done].
Qed.

(** A loop returns as soon as every recursive call it makes does. *)
Lemma relation_loop_total ty coll : forall this,
  Forall (fun x => is_Ok (rec x)) coll ->
  is_Ok (relation_loop rec ty coll this).
Proof.
  unfold relation_loop. induction coll as [|y coll IH]; intros this H.
  - by eexists.
  - inversion H as [|? ? [c Hc] H']; subst. simpl. rewrite Hc. simpl.
    by apply IH.
Qed.

Lemma nested_loop_total coll : forall this,
  Forall (fun x => is_Ok (rec x)) coll ->
  is_Ok (nested_loop rec coll this).
Proof.
  unfold nested_loop. induction coll as [|y coll IH]; intros this H.
  - by eexists.
  - inversion H as [|? ? [c Hc] H']; subst. simpl. rewrite Hc. simpl.
    by apply IH.
Qed.

Lemma relation_if_total ty x this :
  Forall (fun x => is_Ok (rec x)) (option_list x) ->
  is_Ok (relation_if rec ty x this).
Proof.
  destruct x as [a|]; simpl; intros H; [| by eexists].
  inversion H as [|? ? [c Hc] _]; subst. rewrite Hc. by eexists.
Qed.

Lemma is_Ok_obind {A B} (r : outcome A) (k : A -> outcome B) :
  is_Ok r -> (forall a, is_Ok (k a)) -> is_Ok (obind r k).
Proof. intros [a ->] Hk. apply Hk. Qed.

Lemma is_Ok_Ok {A} (a : A) : is_Ok (Ok a).
Proof. by eexists. Qed.

Local Ltac total :=
  repeat first
    [ apply is_Ok_Ok
    | apply relation_loop_total; assumption
    | apply nested_loop_total; assumption
    | apply relation_if_total; assumption
    | apply is_Ok_obind; [| intros ?] ].

Lemma NetworkObject_getNML_total cls b :
  Forall (fun x => is_Ok (rec x)) (NetworkObject_refs b) ->
  is_Ok (NetworkObject_getNML rec cls b).
Proof.
  unfold NetworkObject_refs. rewrite !Forall_app. intros (?&?&?).
  unfold NetworkObject_getNML. total.
Qed.

Lemma getNML_method_total o :
  has_getNML o = true ->
  Forall (fun x => is_Ok (rec x)) (refs_of o) ->
  is_Ok (getNML_method rec o).
Proof.
  intros Hg H. destruct o; try discriminate Hg; simpl in *;
    try (by apply NetworkObject_getNML_total); try apply is_Ok_Ok;
    rewrite ?Forall_app in H; destruct_and? H;
    unfold Node_getNML, Port_getNML, Link_getNML, SwitchingService_getNML,
      AdaptationService_getNML, DeadaptationService_getNML, Topology_getNML;
    (apply is_Ok_obind; [by apply NetworkObject_getNML_total | intros ?]);
    total.
Qed.
End SerializerShape.

(** ** What every serializer of a network object starts from *)

Section SerializerBase.
Variable rec : addr -> outcome element.

(** The element [NetworkObject.getNML] returns: its tag is the class name,
    it carries the dictionary [NAMESPACES] as its attribute [nsmap], its
    other attributes are among [id], [name] and [version], and each alias
    sits in an [isAlias] wrapper. *)
Lemma NetworkObject_getNML_Ok cls b e :
  NetworkObject_getNML rec cls b = Ok e ->
  tag e = cls /\
  dict_get "nsmap" (attrib e) = Some (VDict NAMESPACES) /\
  attrib e =
    attrib (attrib_if "version" (NetworkObject._version b)
              (attrib_if "name" (NetworkObject._name b)
                 (attrib_if "id" (NetworkObject._identification b)
                    (etree_Element cls (Some NAMESPACES))))) /\
  forall x, x ∈ NetworkObject.is_alias_network_objects b ->
    exists c, rec x = Ok c /\ Relation "isAlias" c ∈ children e.
Proof.
  unfold NetworkObject_getNML. cbv zeta. intros H.
  apply obind_Ok in H as (e1 & H1 & H).
  apply obind_Ok in H as (e2 & H2 & H).
  apply obind_Ok in H as (e3 & H3 & [= <-]).
  apply relation_loop_Ok in H1 as (G1 & A1 & I1).
  apply relation_loop_Ok in H2 as (G2 & A2 & _).
  apply relation_if_Ok in H3 as (G3 & A3).
  pose proof (grows_trans _ _ _ G1 (grows_trans _ _ _ G2 G3)) as (Ht&Hn&_).
  split.
  { by rewrite Ht, !tag_attrib_if. }
  split.
  { by rewrite Hn, !dict_get_attrib_if_ne. }
  split; [congruence |].
  intros x Hx. destruct (I1 x Hx) as (c & Hc & Hin). exists c.
  split; [done |].
  eapply grows_elem_of; [| done]. by eapply grows_trans.
Qed.

Lemma NetworkObject_getNML_no_encoding cls b e :
  NetworkObject_getNML rec cls b = Ok e ->
  dict_get "encoding" (attrib e) = None.
Proof.
  intros (_&_&->&_)%NetworkObject_getNML_Ok.
  by rewrite !dict_get_attrib_if_ne.
Qed.

Local Ltac shape :=
  repeat match goal with
    | H : obind _ _ = Ok _ |- _ =>
        let a := fresh "this" in
        let E := fresh "E" in
        apply obind_Ok in H as (a & E & H)
    | H : Ok _ = Ok _ |- _ => injection H as <-
    | H : relation_loop _ _ _ _ = Ok _ |- _ =>
        apply relation_loop_Ok in H as (H & _ & _)
    | H : nested_loop _ _ _ = Ok _ |- _ =>
        apply nested_loop_Ok in H as (H & _ & _)
    | H : relation_if _ _ _ _ = Ok _ |- _ =>
        apply relation_if_Ok in H as (H & _)
    end.

Local Ltac grows_chain :=
  repeat match goal with
    | |- grows ?e ?e => apply grows_refl
    | |- grows _ (set_attrib _ _ _) =>
        eapply grows_trans; [| by apply grows_set_attrib]
    | |- grows _ (attrib_if _ _ _) =>
        eapply grows_trans; [| by apply grows_attrib_if]
    | |- grows _ (if ?b then _ else _) => destruct b
    | H : grows ?z ?x |- grows _ ?x => eapply grows_trans; [| exact H]
    end.

(** The serializer of every subclass calls [NetworkObject.getNML] first and
    then only adds to the element it got. *)
Lemma getNML_method_base o b e :
  base_of o = Some b -> getNML_method rec o = Ok e ->
  exists e0, NetworkObject_getNML rec (class_name o) b = Ok e0 /\ grows e0 e.
Proof.
  intros Hb H. destruct o; simplify_eq/=;
    try (by eexists; split; [done | apply grows_refl]);
    unfold Node_getNML, Port_getNML, Link_getNML, SwitchingService_getNML,
      AdaptationService_getNML, DeadaptationService_getNML, Topology_getNML
      in H; cbv zeta in H;
    apply obind_Ok in H as (e0 & H0 & H); exists e0; (split; [done |]);
    shape; grows_chain.
Qed.

(** The tag of a serialized object is its class name. *)
Lemma getNML_method_tag o e :
  getNML_method rec o = Ok e -> tag e = class_name o.
Proof.
  intros H. destruct (base_of o) as [b|] eqn:Hb.
  - destruct (getNML_method_base o b e Hb H) as (e0 & H0 & Ht & _).
    apply NetworkObject_getNML_Ok in H0 as (? & _). congruence.
  - destruct o; simplify_eq/=; try done;
      unfold Location_getNML, Lifetime_getNML, Label_getNML; cbv zeta;
      by rewrite !tag_attrib_if.
Qed.
End SerializerBase.

(** ** Acyclic stores are serialized in full *)

Lemma ranked_lookup rank h a o :
  ranked rank h = true -> h !! a = Some o -> ranked_obj rank h a o = true.
Proof.
  unfold ranked. rewrite forallb_forall. intros H Ha.
  apply (H (a, o)). apply list_elem_of_In, elem_of_lookup_imap. eauto.
Qed.

Lemma getNML_ranked rank h :
  ranked rank h = true ->
  forall n a o, rank a < n -> h !! a = Some o -> has_getNML o = true ->
  is_Ok (getNML n h a).
Proof.
  intros Hr. induction n as [|n IH]; intros a o Hlt Ha Hg; [lia |].
  simpl. rewrite Ha. apply getNML_method_total; [done |].
  pose proof (ranked_lookup _ _ _ _ Hr Ha) as Ho.
  unfold ranked_obj in Ho. rewrite Hg in Ho. simpl in Ho.
  rewrite forallb_forall in Ho. apply Forall_forall. intros r Hin.
  apply Ho in Hin. unfold ranked_ref in Hin.
  destruct (h !! r) as [o'|] eqn:Hr'; [| done].
  apply andb_true_iff in Hin as [Hg' Hlt']. apply Nat.ltb_lt in Hlt'.
  eapply IH; [| done | done]. lia.
Qed.

(** ** Objects and the store *)

Lemma base_of_set_base o b b' :
  base_of o = Some b -> base_of (set_base b' o) = Some b'.
Proof. by destruct o as [[]|[]|[]|[]|[]|[]|[]|[]|[]|[]|[]| | | | | |]. Qed.

Lemma class_name_set_base o b : class_name (set_base b o) = class_name o.
Proof. by destruct o as [[]|[]|[]|[]|[]|[]|[]|[]|[]|[]|[]| | | | | |]. Qed.

Lemma has_getNML_base o b : base_of o = Some b -> has_getNML o = true.
Proof. by destruct o. Qed.

Lemma lookup_store (h : heap) a o o' :
  h !! a = Some o -> <[a := o']> h !! a = Some o'.
Proof. intros H. apply list_lookup_insert_eq. by eapply lookup_lt_Some. Qed.

(** ** The validated setters *)

(** C2.  The [identification] setter of a network object: a string the URI
    validator accepts is stored, and the getter then returns it; a string the
    validator rejects raises [IdError] and the store, hence what the getter
    returns, is what it was before the call. *)
Theorem identification_setter_validates
  (is_valid_uri : string -> bool) (h : heap) (self : addr) (o : obj)
  (b : NetworkObject.t) (s : string) :
  h !! self = Some o -> base_of o = Some b ->
  (is_valid_uri s = true ->
   exists h',
     NetworkObject_set_identification is_valid_uri self s h = (Ok tt, h') /\
     NetworkObject_identification self h' = (Ok (Some s), h')) /\
  (is_valid_uri s = false ->
   NetworkObject_set_identification is_valid_uri self s h
     = (Raise IdError, h) /\
   NetworkObject_identification self h
     = (Ok (NetworkObject._identification b), h)).
Proof.
  intros Hself Hb.
  unfold NetworkObject_set_identification, NetworkObject_identification,
    NetworkObject_method, mbind, load.
  rewrite Hself, Hb. split; intros ->; [| done].
  eexists. split; [done |]. unfold store.
  rewrite (lookup_store _ _ _ _ Hself).
  by rewrite (base_of_set_base _ _ _ Hb).
Qed.

Lemma identification_setter_validates_witness :
  (exists h',
     NetworkObject_set_identification has_scheme 0
       "urn:ogf:network:example.org:port:x" [OPort Port.init] = (Ok tt, h') /\
     NetworkObject_identification 0 h'
       = (Ok (Some "urn:ogf:network:example.org:port:x"), h')) /\
  (NetworkObject_set_identification has_scheme 0 "//example.org/port/x"
     [OPort Port.init] = (Raise IdError, [OPort Port.init]) /\
   NetworkObject_identification 0 [OPort Port.init]
     = (Ok None, [OPort Port.init])).
Proof.
  split.
  - apply (identification_setter_validates has_scheme [OPort Port.init] 0
             (OPort Port.init) NetworkObject.init
             "urn:ogf:network:example.org:port:x");
      reflexivity.
  - apply (identification_setter_validates has_scheme [OPort Port.init] 0
             (OPort Port.init) NetworkObject.init "//example.org/port/x");
      reflexivity.
Defined.

(** C8.  [can_provide_port] of an [AdaptationService]: an object that is
    neither a [Port] nor a [PortGroup] raises [CanProvidePortError] and the
    store is what it was, so every later serialization is the one that would
    have been produced without the call; a [Port] or a [PortGroup] is
    appended to [can_provide_port_ports]. *)
Theorem can_provide_port_validates
  (h : heap) (self port : addr) (x : AdaptationService.t) (p : obj) :
  h !! self = Some (OAdaptationService x) -> h !! port = Some p ->
  (class_name p <> "Port" -> class_name p <> "PortGroup" ->
   AdaptationService_can_provide_port self port h
     = (Raise CanProvidePortError, h) /\
   forall fuel root,
     getNML fuel (AdaptationService_can_provide_port self port h).2 root
     = getNML fuel h root) /\
  (class_name p = "Port" \/ class_name p = "PortGroup" ->
   exists x',
     AdaptationService_can_provide_port self port h
       = (Ok tt, <[self := OAdaptationService x']> h) /\
     <[self := OAdaptationService x']> h !! self
       = Some (OAdaptationService x') /\
     AdaptationService.can_provide_port_ports x'
       = AdaptationService.can_provide_port_ports x ++ [port] /\
     AdaptationService.provides_port_ports x'
       = AdaptationService.provides_port_ports x /\
     AdaptationService.base x' = AdaptationService.base x /\
     AdaptationService.adaptation_function x'
       = AdaptationService.adaptation_function x).
Proof.
  intros Hself Hport.
  unfold AdaptationService_can_provide_port, AdaptationService_method,
    mbind, load.
  rewrite Hself, Hport. split.
  - intros H1 H2. rewrite bool_decide_eq_false_2.
    + by split.
    + intros [?|[?|[]%elem_of_nil]%elem_of_cons]%elem_of_cons; done.
  - intros Hc. rewrite bool_decide_eq_true_2.
    + eexists. split; [done |]. split; [by eapply lookup_store |]. done.
    + destruct Hc as [-> | ->]; [by left | by right; left].
Qed.

Lemma can_provide_port_validates_witness :
  (AdaptationService_can_provide_port 0 1
     [OAdaptationService AdaptationService.init; OLink Link.init]
   = (Raise CanProvidePortError,
      [OAdaptationService AdaptationService.init; OLink Link.init]) /\
   forall fuel root,
     getNML fuel
       (AdaptationService_can_provide_port 0 1
          [OAdaptationService AdaptationService.init; OLink Link.init]).2
       root
     = getNML fuel
         [OAdaptationService AdaptationService.init; OLink Link.init] root) /\
  (exists x',
     AdaptationService_can_provide_port 0 1
       [OAdaptationService AdaptationService.init; OPortGroup PortGroup.init]
     = (Ok tt,
        <[0 := OAdaptationService x']>
          [OAdaptationService AdaptationService.init;
           OPortGroup PortGroup.init]) /\
     AdaptationService.can_provide_port_ports x' = [1]).
Proof.
  split.
  - apply (can_provide_port_validates
             [OAdaptationService AdaptationService.init; OLink Link.init]
             0 1 AdaptationService.init (OLink Link.init));
      [reflexivity | reflexivity | discriminate | discriminate].
  - destruct (can_provide_port_validates
                [OAdaptationService AdaptationService.init;
                 OPortGroup PortGroup.init]
                0 1 AdaptationService.init (OPortGroup PortGroup.init)
                eq_refl eq_refl) as [_ H].
    destruct (H (or_intror eq_refl)) as (x' & E & _ & C & _).
    exists x'. split; [exact E | exact C].
Defined.

(** ** Setters that do not do what their name says *)

(** C6.  [provides_port] of an [AdaptationService] and of a
    [DeadaptationService]: the call raises ([self.provides_port] is the
    method itself, which has no [append]) and leaves the store, and with it
    [provides_port_ports] and every later serialization, as it was. *)
Theorem provides_port_always_raises (h : heap) (self port : addr) :
  (forall x, h !! self = Some (OAdaptationService x) ->
     AdaptationService_provides_port self port h = (Raise AttributeError, h))
  /\
  (forall x, h !! self = Some (ODeadaptationService x) ->
     DeadaptationService_provides_port self port h
       = (Raise AttributeError, h)).
Proof.
  split; intros x Hself.
  - unfold AdaptationService_provides_port, AdaptationService_method,
      mbind, load. by rewrite Hself.
  - unfold DeadaptationService_provides_port, DeadaptationService_method,
      mbind, load. by rewrite Hself.
Qed.

Lemma provides_port_always_raises_witness :
  AdaptationService_provides_port 0 2
    [OAdaptationService AdaptationService.init;
     ODeadaptationService DeadaptationService.init; OPort Port.init]
  = (Raise AttributeError,
     [OAdaptationService AdaptationService.init;
      ODeadaptationService DeadaptationService.init; OPort Port.init])
  /\
  DeadaptationService_provides_port 1 2
    [OAdaptationService AdaptationService.init;
     ODeadaptationService DeadaptationService.init; OPort Port.init]
  = (Raise AttributeError,
     [OAdaptationService AdaptationService.init;
      ODeadaptationService DeadaptationService.init; OPort Port.init]).
Proof.
  split.
  - apply (proj1 (provides_port_always_raises
                    [OAdaptationService AdaptationService.init;
                     ODeadaptationService DeadaptationService.init;
                     OPort Port.init] 0 2) AdaptationService.init).
    reflexivity.
  - apply (proj2 (provides_port_always_raises
                    [OAdaptationService AdaptationService.init;
                     ODeadaptationService DeadaptationService.init;
                     OPort Port.init] 1 2) DeadaptationService.init).
    reflexivity.
Defined.

(** C7.  [is_serial_compound_link] of a [Link] makes the given sequence the
    whole collection, whatever was stored; of a [LinkGroup], it adds the one
    given object after those already stored.  Nothing else of the object
    changes. *)
Theorem is_serial_compound_link_replaces_or_appends (h : heap) (self : addr) :
  (forall x ordered_links, h !! self = Some (OLink x) ->
     exists x',
       Link_is_serial_compound_link self ordered_links h
         = (Ok tt, <[self := OLink x']> h) /\
       <[self := OLink x']> h !! self = Some (OLink x') /\
       Link.is_serial_compound_link_links x' = ordered_links /\
       x' = Link.set_is_serial_compound_link_links ordered_links x)
  /\
  (forall x link_group, h !! self = Some (OLinkGroup x) ->
     exists x',
       LinkGroup_is_serial_compound_link self link_group h
         = (Ok tt, <[self := OLinkGroup x']> h) /\
       <[self := OLinkGroup x']> h !! self = Some (OLinkGroup x') /\
       LinkGroup.is_serial_compound_link_link_groups x'
         = LinkGroup.is_serial_compound_link_link_groups x ++ [link_group] /\
       x' = LinkGroup.set_is_serial_compound_link_link_groups
              (LinkGroup.is_serial_compound_link_link_groups x
               ++ [link_group]) x).
Proof.
  split.
  - intros x ordered_links Hself.
    unfold Link_is_serial_compound_link, Link_method, mbind, load.
    rewrite Hself. eexists. split; [done |].
    split; [by eapply lookup_store | done].
  - intros x link_group Hself.
    unfold LinkGroup_is_serial_compound_link, LinkGroup_method, mbind, load.
    rewrite Hself. eexists. split; [done |].
    split; [by eapply lookup_store | done].
Qed.

Lemma is_serial_compound_link_replaces_or_appends_witness :
  (exists x',
     Link_is_serial_compound_link 0 [3; 4]
       [OLink (Link.set_is_serial_compound_link_links [1; 2] Link.init)]
     = (Ok tt, [OLink x']) /\
     Link.is_serial_compound_link_links x' = [3; 4])
  /\
  (exists x',
     LinkGroup_is_serial_compound_link 0 3
       [OLinkGroup (LinkGroup.set_is_serial_compound_link_link_groups [1; 2]
                      LinkGroup.init)]
     = (Ok tt, [OLinkGroup x']) /\
     LinkGroup.is_serial_compound_link_link_groups x' = [1; 2; 3]).
Proof.
  split.
  - destruct (proj1 (is_serial_compound_link_replaces_or_appends
                       [OLink (Link.set_is_serial_compound_link_links [1; 2]
                                 Link.init)] 0)
                _ [3; 4] eq_refl) as (x' & E & _ & C & _).
    exists x'. split; [exact E | exact C].
  - destruct (proj2 (is_serial_compound_link_replaces_or_appends
                       [OLinkGroup
                          (LinkGroup.set_is_serial_compound_link_link_groups
                             [1; 2] LinkGroup.init)] 0)
                _ 3 eq_refl) as (x' & E & _ & C & _).
    exists x'. split; [exact E | exact C].
Defined.

Lemma getNML_unfold n h a :
  getNML (S n) h a =
  match h !! a with
  | Some o => getNML_method (getNML n h) o
  | None => Raise NoSuchObject
  end.
Proof. done. Qed.

(** C10.  [has_label] of a [Link] succeeds and assigns [has_label_label],
    which [Link.getNML] does not read: the serialization of the link, and of
    any object of the store, is what it was before the call. *)
Theorem Link_has_label_not_serialized
  (h : heap) (self label : addr) (x : Link.t) :
  h !! self = Some (OLink x) ->
  exists h',
    Link_has_label self label h = (Ok tt, h') /\
    h' !! self = Some (OLink (Link.set_has_label_label (Some label) x)) /\
    Link.has_label_labels (Link.set_has_label_label (Some label) x)
      = Link.has_label_labels x /\
    forall fuel root, getNML fuel h' root = getNML fuel h root.
Proof.
  intros Hself. unfold Link_has_label, Link_method, mbind, load, store.
  rewrite Hself. eexists. split; [done |].
  split; [by eapply lookup_store |]. split; [done |].
  induction fuel as [|n IH]; intros root; [done |].
  rewrite !getNML_unfold.
  destruct (decide (self = root)) as [<-|Hne].
  - rewrite (lookup_store _ _ _ _ Hself), Hself.
    rewrite (getNML_method_ext _ (getNML n h)) by done.
    by destruct x.
  - rewrite list_lookup_insert_ne by done.
    destruct (h !! root); [| done]. by apply getNML_method_ext.
Qed.

Lemma Link_has_label_not_serialized_witness :
  exists h',
    Link_has_label 0 1 [OLink Link.init; OLabel Label.init] = (Ok tt, h') /\
    h' !! 0 = Some (OLink (Link.set_has_label_label (Some 1) Link.init)) /\
    Link.has_label_labels (Link.set_has_label_label (Some 1) Link.init)
      = Link.has_label_labels Link.init /\
    forall fuel root,
      getNML fuel h' root
      = getNML fuel [OLink Link.init; OLabel Label.init] root.
Proof.
  apply (Link_has_label_not_serialized
           [OLink Link.init; OLabel Label.init] 0 1 Link.init).
  reflexivity.
Defined.

(** ** The children of a serialized object, exactly *)

Lemma children_attrib_if k v e : children (attrib_if k v e) = children e.
Proof.
  unfold attrib_if. destruct v; [| done].
  destruct (truthy _); [| done]. by destruct e.
Qed.

Section SerializerChildren.
Variable rec : addr -> outcome element.

Lemma relation_loop_children ty coll : forall this this',
  relation_loop rec ty coll this = Ok this' ->
  exists cs,
    Forall2 (fun x c => rec x = Ok c) coll cs /\
    children this' = children this ++ map (Relation ty) cs.
Proof.
  unfold relation_loop.
  induction coll as [|y coll IH]; intros this this' H; simpl in H.
  - injection H as <-. exists []. split; [constructor |].
    by rewrite app_nil_r.
  - apply obind_Ok in H as (acc & H1 & H2).
    apply obind_Ok in H1 as (c & Hc & [= <-]).
    destruct (IH _ _ H2) as (cs & Hcs & E). exists (c :: cs).
    split; [by constructor |].
    rewrite E. destruct this; simpl. by rewrite <- app_assoc.
Qed.

Lemma nested_loop_children coll : forall this this',
  nested_loop rec coll this = Ok this' ->
  exists cs,
    Forall2 (fun x c => rec x = Ok c) coll cs /\
    children this' = children this ++ cs.
Proof.
  unfold nested_loop.
  induction coll as [|y coll IH]; intros this this' H; simpl in H.
  - injection H as <-. exists []. split; [constructor |].
    by rewrite app_nil_r.
  - apply obind_Ok in H as (acc & H1 & H2).
    apply obind_Ok in H1 as (c & Hc & [= <-]).
    destruct (IH _ _ H2) as (cs & Hcs & E). exists (c :: cs).
    split; [by constructor |].
    rewrite E. destruct this; simpl. by rewrite <- app_assoc.
Qed.

Lemma relation_if_children ty x this this' :
  relation_if rec ty x this = Ok this' ->
  exists cs,
    Forall2 (fun x c => rec x = Ok c) (option_list x) cs /\
    children this' = children this ++ map (Relation ty) cs.
Proof.
  destruct x as [a|]; simpl; intros H.
  - apply obind_Ok in H as (c & Hc & [= <-]). exists [c].
    split; [by repeat constructor | by destruct this].
  - injection H as <-. exists []. split; [constructor |].
    by rewrite app_nil_r.
Qed.

(** [NetworkObject.getNML]: the [isAlias] wrappers, then the
    [existsDuring] ones, then [locatedAt]. *)
Lemma NetworkObject_getNML_children cls b e :
  NetworkObject_getNML rec cls b = Ok e ->
  exists als lts locs,
    Forall2 (fun x c => rec x = Ok c)
      (NetworkObject.is_alias_network_objects b) als /\
    Forall2 (fun x c => rec x = Ok c)
      (NetworkObject.exists_during_lifetimes b) lts /\
    Forall2 (fun x c => rec x = Ok c)
      (option_list (NetworkObject.located_at_location b)) locs /\
    children e = map (Relation "isAlias") als
                 ++ map (Relation "existsDuring") lts
                 ++ map (Relation "locatedAt") locs.
Proof.
  unfold NetworkObject_getNML. cbv zeta. intros H.
  apply obind_Ok in H as (e1 & H1 & H).
  apply obind_Ok in H as (e2 & H2 & H).
  apply obind_Ok in H as (e3 & H3 & [= <-]).
  apply relation_loop_children in H1 as (als & F1 & C1).
  apply relation_loop_children in H2 as (lts & F2 & C2).
  apply relation_if_children in H3 as (locs & F3 & C3).
  exists als, lts, locs. repeat (split; [done |]).
  rewrite C3, C2, C1, !children_attrib_if. simpl. by rewrite <- app_assoc.
Qed.

(** [Node.getNML]: what [NetworkObject.getNML] built, then the
    [hasInboundPort] wrappers, the wrappers of the outbound ports, the
    [hasService] ones, and the implementing nodes, unwrapped. *)
Lemma Node_getNML_children x e :
  Node_getNML rec x = Ok e ->
  exists e0 ins outs svcs nodes,
    NetworkObject_getNML rec "Node" (Node.base x) = Ok e0 /\
    Forall2 (fun x c => rec x = Ok c) (Node.has_outbound_port_ports x) outs /\
    Forall2 (fun x c => rec x = Ok c) (Node.implemented_by_nodes x) nodes /\
    children e = children e0
                 ++ map (Relation "hasInboundPort") ins
                 ++ map (Relation "hasOutoundPort") outs
                 ++ map (Relation "hasService") svcs
                 ++ nodes.
Proof.
  unfold Node_getNML. intros H.
  apply obind_Ok in H as (e0 & H0 & H).
  apply obind_Ok in H as (e1 & H1 & H).
  apply obind_Ok in H as (e2 & H2 & H).
  apply obind_Ok in H as (e3 & H3 & H).
  apply obind_Ok in H as (e4 & H4 & [= <-]).
  apply relation_loop_children in H1 as (ins & _ & C1).
  apply relation_loop_children in H2 as (outs & F2 & C2).
  apply relation_loop_children in H3 as (svcs & _ & C3).
  apply nested_loop_children in H4 as (nodes & F4 & C4).
  exists e0, ins, outs, svcs, nodes. repeat (split; [done |]).
  rewrite C4, C3, C2, C1. by rewrite <- !app_assoc.
Qed.
End SerializerChildren.

(** [Topology.getNML] wraps each outbound port in a [Relation] of type
    [hasOutboundPort]. *)
Lemma Topology_getNML_outbound rec x e :
  Topology_getNML rec x = Ok e ->
  forall p, p ∈ Topology.has_outbound_port_ports x ->
    exists c, rec p = Ok c /\ Relation "hasOutboundPort" c ∈ children e.
Proof.
  unfold Topology_getNML. intros H p Hp.
  apply obind_Ok in H as (e0 & _ & H).
  apply obind_Ok in H as (e1 & _ & H).
  apply obind_Ok in H as (e2 & _ & H).
  apply obind_Ok in H as (e3 & H3 & H).
  apply obind_Ok in H as (e4 & H4 & H).
  apply obind_Ok in H as (e5 & H5 & [= <-]).
  apply relation_loop_Ok in H3 as (_ & _ & H3).
  apply relation_loop_Ok in H4 as (G4 & _).
  apply relation_loop_Ok in H5 as (G5 & _).
  destruct (H3 p Hp) as (c & Hc & Hin). exists c. split; [done |].
  eapply grows_elem_of; [| exact Hin]. by eapply grows_trans.
Qed.

(** [Port.getNML] writes the encoding of a port that has one. *)
Lemma Port_getNML_encoding rec x e s :
  Port_getNML rec x = Ok e ->
  Port._encoding x = Some s -> s <> "" ->
  dict_get "encoding" (attrib e) = Some (VStr s).
Proof.
  unfold Port_getNML. cbv zeta. intros H Henc Hs.
  apply obind_Ok in H as (e0 & _ & H).
  apply obind_Ok in H as (e1 & H1 & H).
  apply obind_Ok in H as (e2 & H2 & H).
  apply obind_Ok in H as (e3 & H3 & H).
  apply obind_Ok in H as (e4 & H4 & [= <-]).
  apply relation_if_Ok in H1 as (_ & A1).
  apply relation_loop_Ok in H2 as (_ & A2 & _).
  apply relation_loop_Ok in H3 as (_ & A3 & _).
  apply relation_loop_Ok in H4 as (_ & A4 & _).
  rewrite A4, A3, A2, A1, Henc. by apply dict_get_attrib_if_eq.
Qed.

Lemma class_name_not_Relation o : class_name o <> "Relation".
Proof. by destruct o. Qed.

Lemma getNML_tag fuel h a e :
  getNML fuel h a = Ok e -> exists o, h !! a = Some o /\ tag e = class_name o.
Proof.
  destruct fuel as [|n]; [done |]. rewrite getNML_unfold.
  destruct (h !! a) as [o|]; [| done]. intros H. exists o.
  split; [done | by eapply getNML_method_tag].
Qed.

(** ** The relation type of a node's outbound ports *)

(** C5 (what the code does).  A serialized [Node] wraps each of its outbound
    ports in a [Relation] of type [hasOutoundPort], and no child of the
    element is a [Relation] of type [hasOutboundPort], the type [Topology]
    writes. *)
Theorem Node_outbound_relation_type
  (fuel : nat) (h : heap) (a : addr) (x : Node.t) (e : element) :
  h !! a = Some (ONode x) -> getNML (S fuel) h a = Ok e ->
  (forall port, port ∈ Node.has_outbound_port_ports x ->
     exists c, getNML fuel h port = Ok c /\
               Relation "hasOutoundPort" c ∈ children e) /\
  (forall c, c ∈ children e -> tag c = "Relation" ->
     dict_get "type" (attrib c) <> Some (VStr "hasOutboundPort")).
Proof.
  intros Ha H. rewrite getNML_unfold, Ha in H. simpl in H.
  apply Node_getNML_children in H
    as (e0 & ins & outs & svcs & nodes & H0 & Fo & Fn & C).
  apply NetworkObject_getNML_children in H0 as (als & lts & locs & _ & _ & _ & C0).
  split.
  - intros port Hp.
    apply list_elem_of_lookup in Hp as [i Hi].
    destruct (Forall2_lookup_l _ _ _ _ _ Fo Hi) as (c & Hc & E).
    exists c. split; [done |]. rewrite C, !elem_of_app. right. right. left.
    apply list_elem_of_fmap. exists c. split; [done |].
    by eapply list_elem_of_lookup_2.
  - intros c Hc Ht. rewrite C, C0, !elem_of_app in Hc.
    destruct Hc as [[Hc|[Hc|Hc]]|[Hc|[Hc|[Hc|Hc]]]];
      try (apply list_elem_of_fmap in Hc as (c' & -> & _); by destruct c').
    apply list_elem_of_lookup in Hc as [i Hi].
    eapply Forall2_lookup_r in Fn as (n & _ & E); [| exact Hi].
    apply getNML_tag in E as (o & _ & E). rewrite Ht in E.
    by destruct (class_name_not_Relation o).
Qed.

Lemma Node_outbound_relation_type_witness :
  (forall port, port ∈ [1] ->
     exists c,
       getNML 1 [ONode (Node.set_has_outbound_port_ports [1] Node.init);
                 OPort Port.init] port = Ok c /\
       Relation "hasOutoundPort" c
         ∈ children
             (Element "Node" [("nsmap", VDict NAMESPACES)]
                [Relation "hasOutoundPort"
                   (Element "Port" [("nsmap", VDict NAMESPACES)] [])])) /\
  (forall c,
     c ∈ children
           (Element "Node" [("nsmap", VDict NAMESPACES)]
              [Relation "hasOutoundPort"
                 (Element "Port" [("nsmap", VDict NAMESPACES)] [])]) ->
     tag c = "Relation" ->
     dict_get "type" (attrib c) <> Some (VStr "hasOutboundPort")).
Proof.
  apply (Node_outbound_relation_type 1
           [ONode (Node.set_has_outbound_port_ports [1] Node.init);
            OPort Port.init]
           0 (Node.set_has_outbound_port_ports [1] Node.init)).
  - reflexivity.
  - reflexivity.
Defined.

(** ** The encoding of the groups *)

(** C4 (what the code does).  [PortGroup] and [LinkGroup] define no
    [getNML]; the inherited one writes [id], [name] and [version] only.
    Whatever their encoding is set to, the serialized element has no
    [encoding] attribute. *)
Theorem group_encoding_not_serialized
  (fuel : nat) (h : heap) (a : addr) (o : obj) (e : element) :
  h !! a = Some o ->
  class_name o = "PortGroup" \/ class_name o = "LinkGroup" ->
  getNML fuel h a = Ok e ->
  dict_get "encoding" (attrib e) = None.
Proof.
  intros Ha Hc H. destruct fuel as [|n]; [done |].
  rewrite getNML_unfold, Ha in H.
  destruct Hc as [Hc|Hc]; destruct o; try discriminate Hc; simpl in H;
    by eapply NetworkObject_getNML_no_encoding.
Qed.

Lemma group_encoding_not_serialized_witness :
  (PortGroup_set_encoding 0 "urn:encoding:x" [OPortGroup PortGroup.init]).2
    !! 0
  = Some (OPortGroup (PortGroup.set__encoding (Some "urn:encoding:x")
                        PortGroup.init)) /\
  dict_get "encoding"
    (attrib (Element "PortGroup" [("nsmap", VDict NAMESPACES)] [])) = None.
Proof.
  split; [reflexivity |].
  apply (group_encoding_not_serialized 1
           (PortGroup_set_encoding 0 "urn:encoding:x"
              [OPortGroup PortGroup.init]).2
           0
           (OPortGroup (PortGroup.set__encoding (Some "urn:encoding:x")
                          PortGroup.init))).
  - reflexivity.
  - left. reflexivity.
  - reflexivity.
Defined.

(** ** Aliases *)

(** C3.  [a.is_alias(b)] for two objects of the same class succeeds and
    appends [b] to the aliases of [a]; every serialization of [a] that then
    returns holds a [Relation] of type [isAlias] around the serialization of
    [b], and the serialization of [a] does return when the store has no
    cycle and nothing that cannot be serialized.  For two objects of
    different classes the call raises [IsAliasError] and the store, hence
    every serialization, is what it was. *)
Theorem is_alias_same_class_only
  (h : heap) (a b : addr) (oa ob : obj) (ba : NetworkObject.t) :
  h !! a = Some oa -> h !! b = Some ob -> base_of oa = Some ba ->
  (class_name oa = class_name ob ->
   exists h' oa' ba',
     NetworkObject_is_alias a b h = (Ok tt, h') /\
     h' !! a = Some oa' /\ base_of oa' = Some ba' /\
     NetworkObject.is_alias_network_objects ba'
       = NetworkObject.is_alias_network_objects ba ++ [b] /\
     (forall fuel e, getNML fuel h' a = Ok e ->
        exists eb, getNML fuel h' b = Ok eb /\
                   Relation "isAlias" eb ∈ children e) /\
     (forall rank, ranked rank h' = true -> is_Ok (getNML (S (rank a)) h' a)))
  /\
  (class_name oa <> class_name ob ->
   NetworkObject_is_alias a b h = (Raise IsAliasError, h)).
Proof.
  intros Ha Hb Hba.
  unfold NetworkObject_is_alias, NetworkObject_method, mbind, load.
  rewrite Ha, Hba, Hb. split.
  - intros Hc. rewrite (proj2 (String.eqb_eq _ _) Hc). cbn [negb].
    set (ba' := NetworkObject.set_is_alias_network_objects _ ba).
    exists (<[a := set_base ba' oa]> h), (set_base ba' oa), ba'.
    pose proof (lookup_store _ _ _ (set_base ba' oa) Ha) as Ha'.
    pose proof (base_of_set_base _ _ ba' Hba) as Hba'.
    repeat (split; [done |]). split.
    + intros [|n] e He; [done |].
      rewrite getNML_unfold, Ha' in He.
      destruct (getNML_method_base _ _ _ _ Hba' He) as (e0 & H0 & Hg).
      apply NetworkObject_getNML_Ok in H0 as (_ & _ & _ & Hin).
      destruct (Hin b) as (eb & Heb & Hrel).
      { apply elem_of_app. right. by apply list_elem_of_singleton. }
      exists eb. split.
      * pose proof (getNML_S n (<[a := set_base ba' oa]> h) b) as Hm.
        rewrite Heb in Hm. by apply le_outcome_Ok in Hm.
      * by eapply grows_elem_of.
    + intros rank Hr. eapply getNML_ranked; [done | lia | done |].
      by eapply has_getNML_base.
  - intros Hne%String.eqb_neq. by rewrite Hne.
Qed.

Lemma is_alias_same_class_only_witness :
  (exists h',
     NetworkObject_is_alias 0 1
       [ONode Node.init; ONode Node.init; OPort Port.init] = (Ok tt, h') /\
     exists e eb,
       getNML 2 h' 0 = Ok e /\ getNML 2 h' 1 = Ok eb /\
       Relation "isAlias" eb ∈ children e) /\
  NetworkObject_is_alias 0 2
    [ONode Node.init; ONode Node.init; OPort Port.init]
  = (Raise IsAliasError, [ONode Node.init; ONode Node.init; OPort Port.init]).
Proof.
  split.
  - destruct (proj1 (is_alias_same_class_only
                       [ONode Node.init; ONode Node.init; OPort Port.init]
                       0 1 (ONode Node.init) (ONode Node.init)
                       NetworkObject.init eq_refl eq_refl eq_refl) eq_refl)
      as (h' & oa' & ba' & E & _ & _ & _ & Hin & Hok).
    exists h'. split; [exact E |].
    injection E as <-.
    destruct (Hok (fun a => match a with 0 => 1 | _ => 0 end) eq_refl)
      as [e He].
    destruct (Hin 2 e He) as (eb & Heb & Hrel).
    exists e, eb. split; [exact He |]. split; [exact Heb | exact Hrel].
  - apply (proj2 (is_alias_same_class_only
                    [ONode Node.init; ONode Node.init; OPort Port.init]
                    0 2 (ONode Node.init) (OPort Port.init)
                    NetworkObject.init eq_refl eq_refl eq_refl)).
    discriminate.
Defined.

(** ** The scenario of the specification *)

Section ScenarioShape.
Variable rec : addr -> outcome element.

Lemma Topology_getNML_nodes x e :
  Topology_getNML rec x = Ok e ->
  forall n, n ∈ Topology.has_node_nodes x ->
    exists c, rec n = Ok c /\ Relation "hasNode" c ∈ children e.
Proof.
  unfold Topology_getNML. intros H n Hn.
  apply obind_Ok in H as (e0 & _ & H).
  apply obind_Ok in H as (e1 & H1 & H).
  apply obind_Ok in H as (e2 & H2 & H).
  apply obind_Ok in H as (e3 & H3 & H).
  apply obind_Ok in H as (e4 & H4 & H).
  apply obind_Ok in H as (e5 & H5 & [= <-]).
  apply relation_loop_Ok in H1 as (_ & _ & H1).
  apply relation_loop_Ok in H2 as (G2 & _).
  apply relation_loop_Ok in H3 as (G3 & _).
  apply relation_loop_Ok in H4 as (G4 & _).
  apply relation_loop_Ok in H5 as (G5 & _).
  destruct (H1 n Hn) as (c & Hc & Hin). exists c. split; [done |].
  eapply grows_elem_of; [| exact Hin].
  eapply grows_trans; [exact G2 |]. eapply grows_trans; [exact G3 |].
  eapply grows_trans; [exact G4 | exact G5].
Qed.

Lemma Node_getNML_inbound x e :
  Node_getNML rec x = Ok e ->
  forall p, p ∈ Node.has_inbound_port_ports x ->
    exists c, rec p = Ok c /\ Relation "hasInboundPort" c ∈ children e.
Proof.
  unfold Node_getNML. intros H p Hp.
  apply obind_Ok in H as (e0 & _ & H).
  apply obind_Ok in H as (e1 & H1 & H).
  apply obind_Ok in H as (e2 & H2 & H).
  apply obind_Ok in H as (e3 & H3 & H).
  apply obind_Ok in H as (e4 & H4 & [= <-]).
  apply relation_loop_Ok in H1 as (_ & _ & H1).
  apply relation_loop_Ok in H2 as (G2 & _).
  apply relation_loop_Ok in H3 as (G3 & _).
  apply nested_loop_Ok in H4 as (G4 & _).
  destruct (H1 p Hp) as (c & Hc & Hin). exists c. split; [done |].
  eapply grows_elem_of; [| exact Hin].
  eapply grows_trans; [exact G2 |]. eapply grows_trans; [exact G3 | exact G4].
Qed.

Lemma Port_getNML_id x e s :
  Port_getNML rec x = Ok e ->
  NetworkObject._identification (Port.base x) = Some s -> s <> "" ->
  dict_get "id" (attrib e) = Some (VStr s).
Proof.
  unfold Port_getNML. cbv zeta. intros H Hid Hs.
  apply obind_Ok in H as (e0 & H0 & H).
  apply obind_Ok in H as (e1 & H1 & H).
  apply obind_Ok in H as (e2 & H2 & H).
  apply obind_Ok in H as (e3 & H3 & H).
  apply obind_Ok in H as (e4 & H4 & [= <-]).
  apply relation_if_Ok in H1 as (_ & A1).
  apply relation_loop_Ok in H2 as (_ & A2 & _).
  apply relation_loop_Ok in H3 as (_ & A3 & _).
  apply relation_loop_Ok in H4 as (_ & A4 & _).
  apply NetworkObject_getNML_Ok in H0 as (_ & _ & A0 & _).
  rewrite A4, A3, A2, A1, dict_get_attrib_if_ne by done.
  rewrite A0, !dict_get_attrib_if_ne by done. rewrite Hid.
  by apply dict_get_attrib_if_eq.
Qed.
End ScenarioShape.

(** C1 (what the code does).  A [Topology] [t], a [Node] [n] and a [Port]
    [p]: after [t.has_node(n)], [n.has_inbound_port(p)] and
    [p.identification = "urn:ogf:network:example.org:port:x"] (a string the
    validator accepts), what [t.getNML()] returns is an element whose tag is
    the plain name [Topology], not that name in the namespace
    [http://schemas.ogf.org/nml/2013/05/base]: the keyword [nsmap] has
    become an attribute [nsmap] of the element, with the dictionary as its
    value, and no namespace is bound.  The rest is as the scenario has it:
    a child [Relation] of type [hasNode] around an element [Node], with a
    child [Relation] of type [hasInboundPort] around an element [Port]
    whose attribute [id] is that string.  The call returns when the store
    has no cycle and nothing that cannot be serialized; when the three
    objects are as their constructors leave them, it returns exactly these
    four nested elements, the three of the objects each with the attribute
    [nsmap]. *)
Theorem topology_node_port_scenario
  (is_valid_uri : string -> bool) (h : heap) (t n p : addr)
  (T : Topology.t) (N : Node.t) (P : Port.t) :
  is_valid_uri "urn:ogf:network:example.org:port:x" = true ->
  h !! t = Some (OTopology T) ->
  h !! n = Some (ONode N) ->
  h !! p = Some (OPort P) ->
  exists h',
    (Topology_has_node t n;;
     Node_has_inbound_port n p;;
     NetworkObject_set_identification is_valid_uri p
       "urn:ogf:network:example.org:port:x")%M h = (Ok tt, h') /\
    (forall fuel root,
       call_getNML fuel t h' = (Ok root, h') ->
       tag root = "Topology" /\
       tag root
         <> qualified "http://schemas.ogf.org/nml/2013/05/base" "Topology" /\
       dict_get "nsmap" (attrib root)
         = Some (VDict [("nml", "http://schemas.ogf.org/nml/2013/05/base")])
       /\
       exists node port,
         Relation "hasNode" node ∈ children root /\
         tag node = "Node" /\
         Relation "hasInboundPort" port ∈ children node /\
         tag port = "Port" /\
         dict_get "id" (attrib port)
           = Some (VStr "urn:ogf:network:example.org:port:x")) /\
    (forall rank,
       ranked rank h' = true -> is_Ok (getNML (S (rank t)) h' t)) /\
    (T = Topology.init -> N = Node.init -> P = Port.init ->
     forall fuel, 3 <= fuel ->
       call_getNML fuel t h'
       = (Ok (Element "Topology"
                [("nsmap",
                  VDict [("nml", "http://schemas.ogf.org/nml/2013/05/base")])]
                [Element "Relation" [("type", VStr "hasNode")]
                   [Element "Node"
                      [("nsmap",
                        VDict [("nml",
                                "http://schemas.ogf.org/nml/2013/05/base")])]
                      [Element "Relation" [("type", VStr "hasInboundPort")]
                         [Element "Port"
                            [("nsmap",
                              VDict
                                [("nml",
                                  "http://schemas.ogf.org/nml/2013/05/base")]);
                             ("id",
                              VStr "urn:ogf:network:example.org:port:x")]
                            []]]]]),
          h')).
Proof.
  intros Hv Ht Hn Hp.
  assert (t <> n) as Htn by (intros ->; congruence).
  assert (t <> p) as Htp by (intros ->; congruence).
  assert (n <> p) as Hnp by (intros ->; congruence).
  unfold Topology_has_node, Topology_method, Node_has_inbound_port,
    Node_method, NetworkObject_set_identification, NetworkObject_method,
    call_getNML, mbind, load, store.
  rewrite Ht.
  rewrite (list_lookup_insert_ne h t n) by done. rewrite Hn.
  rewrite (list_lookup_insert_ne _ n p) by done.
  rewrite (list_lookup_insert_ne h t p) by done. rewrite Hp.
  cbn [base_of]. rewrite Hv.
  eexists. split; [reflexivity |].
  match goal with |- context [getNML _ ?h3 _] => set (h3' := h3) end.
  set (T' := Topology.set_has_node_nodes (Topology.has_node_nodes T ++ [n]) T).
  set (N' := Node.set_has_inbound_port_ports
               (Node.has_inbound_port_ports N ++ [p]) N).
  set (P' := set_base (NetworkObject.set__identification
                         (Some "urn:ogf:network:example.org:port:x")
                         (Port.base P)) (OPort P)).
  assert (h3' !! t = Some (OTopology T')) as Ht3.
  { unfold h3'. rewrite !list_lookup_insert_ne by done.
    by eapply lookup_store. }
  assert (h3' !! n = Some (ONode N')) as Hn3.
  { unfold h3'. rewrite list_lookup_insert_ne by done.
    eapply lookup_store. rewrite list_lookup_insert_ne by done. exact Hn. }
  assert (h3' !! p = Some P') as Hp3.
  { unfold h3'. eapply lookup_store.
    rewrite !list_lookup_insert_ne by done. exact Hp. }
  clearbody h3'. split; [| split].
  - intros [|f1] root [= Hroot].
    rewrite Ht3 in Hroot.
    pose proof (getNML_method_tag _ _ _ Hroot) as Htag.
    destruct (getNML_method_base _ (OTopology T') (Topology.base T') _
                eq_refl Hroot)
      as (e0 & H0 & _ & Hns & _).
    apply NetworkObject_getNML_Ok in H0 as (_ & Hns0 & _).
    split; [done |]. split; [by rewrite Htag |].
    split; [by rewrite Hns, Hns0 |].
    destruct (Topology_getNML_nodes _ _ _ Hroot n) as (node & Hnode & Hin).
    { apply elem_of_app. right. by apply list_elem_of_singleton. }
    destruct f1 as [|f2]; [done |].
    rewrite getNML_unfold, Hn3 in Hnode.
    pose proof (getNML_method_tag _ _ _ Hnode) as Htagn.
    destruct (Node_getNML_inbound _ _ _ Hnode p) as (port & Hport & Hin').
    { apply elem_of_app. right. by apply list_elem_of_singleton. }
    destruct f2 as [|f3]; [done |].
    rewrite getNML_unfold, Hp3 in Hport.
    pose proof (getNML_method_tag _ _ _ Hport) as Htagp.
    exists node, port.
    split; [exact Hin |]. split; [exact Htagn |]. split; [exact Hin' |].
    split; [by rewrite Htagp; destruct P |].
    unfold P' in Hport. destruct P as [bP ? ? ? ? ?].
    eapply Port_getNML_id; [exact Hport | reflexivity | discriminate].
  - intros rank Hr. eapply getNML_ranked; [done | lia | done | done].
  - intros -> -> -> fuel Hf. f_equal.
    apply le_outcome_Ok. eapply le_outcome_trans; [| by apply getNML_mono].
    rewrite !getNML_unfold, Ht3.
    cbn - [getNML]. rewrite !getNML_unfold, Hn3.
    cbn - [getNML]. rewrite !getNML_unfold, Hp3.
    apply le_outcome_refl.
Qed.

Lemma topology_node_port_scenario_witness :
  exists h',
    (Topology_has_node 0 1;;
     Node_has_inbound_port 1 2;;
     NetworkObject_set_identification has_scheme 2
       "urn:ogf:network:example.org:port:x")%M
      [OTopology Topology.init; ONode Node.init; OPort Port.init]
    = (Ok tt, h') /\
    call_getNML 3 0 h'
    = (Ok (Element "Topology"
             [("nsmap",
               VDict [("nml", "http://schemas.ogf.org/nml/2013/05/base")])]
             [Element "Relation" [("type", VStr "hasNode")]
                [Element "Node"
                   [("nsmap",
                     VDict [("nml",
                             "http://schemas.ogf.org/nml/2013/05/base")])]
                   [Element "Relation" [("type", VStr "hasInboundPort")]
                      [Element "Port"
                         [("nsmap",
                           VDict
                             [("nml",
                               "http://schemas.ogf.org/nml/2013/05/base")]);
                          ("id", VStr "urn:ogf:network:example.org:port:x")]
                         []]]]]),
       h') /\
    "Topology"
      <> qualified "http://schemas.ogf.org/nml/2013/05/base" "Topology" /\
    dict_get "nsmap"
      [("nsmap", VDict [("nml", "http://schemas.ogf.org/nml/2013/05/base")])]
    = Some (VDict [("nml", "http://schemas.ogf.org/nml/2013/05/base")]).
Proof.
  destruct (topology_node_port_scenario has_scheme
              [OTopology Topology.init; ONode Node.init; OPort Port.init]
              0 1 2 Topology.init Node.init Port.init
              eq_refl eq_refl eq_refl eq_refl)
    as (h' & E & Hshape & Hret & Hexact).
  exists h'. split; [exact E |].
  pose proof (Hexact eq_refl eq_refl eq_refl 3 (le_n 3)) as E3.
  split; [exact E3 |].
  destruct (Hshape 3 _ E3) as (_ & Hq & Hns & _).
  split; [exact Hq | exact Hns].
Defined.

(** ** The in-place builder computes the same element *)

Lemma element_ind_Forall (P : element -> Prop) :
  (forall t a cs, Forall P cs -> P (Element t a cs)) -> forall e, P e.
Proof.
  intros H. fix IH 1. intros [t a cs]. apply H.
  induction cs as [|c cs IHcs]; constructor; [apply IH | exact IHcs].
Qed.

Lemma tree_unfold s hi id t a cs :
  tree s hi id (Element t a cs) <->
  exists nd,
    s !! id = Some nd /\ id < hi /\
    Etree.tag nd = t /\ Etree.attrib nd = a /\
    Forall2 (fun i c => id < i /\ tree s hi i c) (Etree.children nd) cs.
Proof.
  simpl. apply exist_proper. intros nd.
  repeat (apply and_iff_compat_l).
  generalize (Etree.children nd). clear nd.
  induction cs as [|c cs IH]; intros [|i ids]; simpl.
  - split; [constructor | done].
  - split; [done | inversion 1].
  - split; [done | inversion 1].
  - rewrite IH. split.
    + intros (?&?&?). by constructor.
    + inversion 1; subst. tauto.
Qed.

Lemma tree_mono s s' hi hi' id e :
  tree s hi id e -> hi <= hi' ->
  (forall i, id <= i -> i < hi -> s' !! i = s !! i) ->
  tree s' hi' id e.
Proof.
  revert id. induction e as [t a cs IH] using element_ind_Forall.
  intros id H Hhi Hs. apply tree_unfold in H as (nd & Hnd & Hid & Ht & Ha & Hc).
  apply tree_unfold. exists nd. rewrite Hs by lia.
  repeat (split; [done || lia |]).
  revert Hc. generalize (Etree.children nd). clear Hnd.
  induction IH as [|c cs Hc' _ IHcs]; intros ids; inversion 1; subst; constructor.
  - split; [tauto |]. apply Hc'; [tauto | done |]. intros; apply Hs; lia.
  - by apply IHcs.
Qed.

Lemma tree_lt s hi id e : tree s hi id e -> id < hi.
Proof. destruct e. intros (?&?&?&_)%tree_unfold. done. Qed.

Lemma tree_set_attrib s hi this k v e :
  tree s hi this e ->
  tree (alter (Etree.set_attrib k v) this s) hi this (set_attrib k v e).
Proof.
  destruct e as [t a cs]. simpl set_attrib. rewrite !tree_unfold.
  intros (nd & Hnd & Hlt & <- & <- & Hc).
  exists (Etree.set_attrib k v nd). rewrite list_lookup_alter.
  rewrite decide_True by done. rewrite Hnd.
  repeat (split; [done |]). simpl.
  eapply Forall2_impl; [| exact Hc]. intros i c [Hi Hic]. split; [done |].
  eapply tree_mono; [done.. |]. intros j Hj _.
  by rewrite list_lookup_alter_ne by lia.
Qed.

Lemma tree_append_child s s' hi hi' this id e c :
  tree s hi this e -> tree s' hi' id c -> this < id -> hi <= hi' ->
  s' !! this = Etree.append id <$> s !! this ->
  (forall i, this < i -> i < hi -> s' !! i = s !! i) ->
  tree s' hi' this (append_child e c).
Proof.
  destruct e as [t a cs]. simpl append_child. rewrite !tree_unfold.
  intros (nd & Hnd & Hlt & <- & <- & Hc) Hid Hlt' Hhi Hthis Hs.
  exists (Etree.append id nd). rewrite Hthis, Hnd.
  repeat (split; [done || lia |]). simpl.
  apply Forall2_app; [| by repeat constructor].
  eapply Forall2_impl; [| exact Hc]. intros i ci [Hi Hic]. split; [done |].
  eapply tree_mono; [done.. |]. intros j Hj Hj'. apply Hs; lia.
Qed.

(** The store after [relation = etree.SubElement(this, 'Relation')] and
    [relation.attrib['type'] = ty]. *)
Lemma open_relation this ty (s : estore) :
  this < length s ->
  exists s2,
    (forall A (k : nat -> B A),
       (relation <- SubElement this "Relation" None;;
        attrib_assign relation "type" ty;;
        k relation)%M s = k (length s) s2) /\
    length s2 = S (length s) /\
    s2 !! length s = Some (Etree.mk "Relation" [("type", VStr ty)] []) /\
    s2 !! this = Etree.append (length s) <$> s !! this /\
    forall i, i < length s -> i <> this -> s2 !! i = s !! i.
Proof.
  intros Hlt. eexists. split; [reflexivity |].
  split; [by rewrite !length_alter, length_app; simpl; lia |].
  split.
  - rewrite list_lookup_alter, decide_True by done.
    rewrite list_lookup_alter_ne by lia.
    by rewrite list_lookup_middle.
  - split.
    + rewrite list_lookup_alter_ne by lia.
      rewrite list_lookup_alter, decide_True by done.
      by rewrite lookup_app_l.
    + intros i Hi Hne. rewrite !list_lookup_alter_ne by lia.
      by rewrite lookup_app_l.
Qed.

Lemma tree_Relation (s : estore) hi id ty c :
  s !! id = Some (Etree.mk "Relation" [("type", VStr ty)] [S id]) ->
  tree s hi (S id) c -> tree s hi id (Relation ty c).
Proof.
  intros Hid Hc. apply tree_unfold. eexists. split; [done |].
  pose proof (tree_lt _ _ _ _ Hc).
  repeat (split; [done || lia |]). simpl.
  constructor; [split; [lia | done] | constructor].
Qed.

Section Refinement.
Variable rec : addr -> outcome element.
Variable rec' : addr -> option nat -> B nat.
Hypothesis Hrec : refines rec rec'.

(** One pass of a relation-wrapping loop. *)
Lemma step_relation this s e ty x :
  tree s (length s) this e ->
  step this s
    (relation <- SubElement this "Relation" None;;
     attrib_assign relation "type" ty;;
     _ <- rec' x (Some relation);;
     mret tt)%M
    (child <- rec x;; Ok (append_child e (Relation ty child))).
Proof.
  intros Ht. pose proof (tree_lt _ _ _ _ Ht) as Hlt.
  destruct (open_relation this ty s Hlt) as (s2 & E2 & L2 & Hr & Hthis & Hold).
  pose proof (Hrec x (Some (length s)) s2) as Hx.
  unfold done_as in Hx. unfold step.
  destruct (rec x) as [c| |]; cbn [obind]; rewrite E2; unfold mbind.
  - destruct Hx as (s3 & E3 & Hframe & Hc).
    { intros p [= <-]. lia. }
    rewrite E3. eexists. split; [done |].
    assert (length s2 <= length s3) as L3.
    { apply tree_lt in Hc. lia. }
    split.
    + eapply (tree_append_child s s3 (length s) (length s3) this (length s));
        [done | | done | lia | |].
      * apply tree_Relation; [| by rewrite <- L2].
        rewrite Hframe by lia. rewrite decide_True by done.
        by rewrite Hr, L2.
      * rewrite Hframe by lia. rewrite decide_False by (intros [=]; lia).
        done.
      * intros i Hi Hi'. rewrite Hframe by lia.
        rewrite decide_False by (intros [=]; lia). apply Hold; lia.
    + intros i Hi. rewrite Hframe by lia.
      rewrite decide_False by (intros [=]; lia). apply Hold; lia.
  - destruct Hx as (s3 & E3); [intros p [= <-]; lia |].
    rewrite E3. by eexists.
  - destruct Hx as (s3 & E3); [intros p [= <-]; lia |].
    rewrite E3. by eexists.
Qed.

(** One pass of a loop that nests directly. *)
Lemma step_nested this s e x :
  tree s (length s) this e ->
  step this s (_ <- rec' x (Some this);; mret tt)%M
    (child <- rec x;; Ok (append_child e child)).
Proof.
  intros Ht. pose proof (tree_lt _ _ _ _ Ht) as Hlt.
  pose proof (Hrec x (Some this) s) as Hx.
  unfold done_as in Hx. unfold step, mbind, mret.
  destruct (rec x) as [c| |]; simpl.
  - destruct Hx as (s3 & E3 & Hframe & Hc); [by intros p [= <-] |].
    rewrite E3. eexists. split; [done |].
    pose proof (tree_lt _ _ _ _ Hc) as L3.
    split.
    + eapply (tree_append_child s s3 (length s) (length s3) this (length s));
        [done | done | done | lia | |].
      * rewrite Hframe by lia. by rewrite decide_True.
      * intros i Hi Hi'. rewrite Hframe by lia.
        by rewrite decide_False by (intros [=]; lia).
    + intros i Hi. rewrite Hframe by lia.
      by rewrite decide_False by (intros [=]; lia).
  - destruct Hx as (s3 & E3); [by intros p [= <-] |].
    rewrite E3. by eexists.
  - destruct Hx as (s3 & E3); [by intros p [= <-] |].
    rewrite E3. by eexists.
Qed.

Lemma step_seq this s (m1 m2 : B unit) r1 g :
  step this s m1 r1 ->
  (forall s1 e1, tree s1 (length s1) this e1 -> step this s1 m2 (g e1)) ->
  step this s (m1;; m2)%M (obind r1 g).
Proof.
  unfold step at 1. intros H1 H2. destruct r1 as [e1| |]; simpl.
  - destruct H1 as (s1 & E1 & Ht1 & F1). specialize (H2 s1 e1 Ht1).
    unfold step in *. unfold mbind. rewrite E1.
    destruct (g e1); [| done | done].
    destruct H2 as (s2 & E2 & Ht2 & F2). exists s2.
    repeat (split; [done |]). intros i Hi. by rewrite F2, F1.
  - destruct H1 as (s1 & E1). unfold mbind. rewrite E1. by eexists.
  - destruct H1 as (s1 & E1). unfold mbind. rewrite E1. by eexists.
Qed.

Lemma step_skip this (s : estore) e :
  tree s (length s) this e -> step this s (mret tt) (Ok e).
Proof. intros Ht. by exists s. Qed.

Lemma step_attrib_assign this (s : estore) e k v :
  tree s (length s) this e ->
  step this s (attrib_assign this k v) (Ok (set_attrib k v e)).
Proof.
  intros Ht. eexists. split; [done |]. split.
  - rewrite length_alter. by apply tree_set_attrib.
  - intros i Hi. by rewrite list_lookup_alter_ne by lia.
Qed.

Lemma step_attrib_if this (s : estore) e k v :
  tree s (length s) this e ->
  step this s (attrib_if_in_place k v this) (Ok (attrib_if k v e)).
Proof.
  intros Ht. unfold attrib_if_in_place, attrib_if. destruct v; [| by apply step_skip].
  destruct (truthy _); [by apply step_attrib_assign | by apply step_skip].
Qed.

Lemma step_relation_loop this ty coll : forall s e,
  tree s (length s) this e ->
  step this s (relation_loop_in_place rec' ty coll this)
    (relation_loop rec ty coll e).
Proof.
  unfold relation_loop_in_place, relation_loop.
  induction coll as [|x coll IH]; intros s e Ht; simpl.
  - by apply step_skip.
  - apply step_seq; [by apply step_relation | apply IH].
Qed.

Lemma step_nested_loop this coll : forall s e,
  tree s (length s) this e ->
  step this s (nested_loop_in_place rec' coll this) (nested_loop rec coll e).
Proof.
  unfold nested_loop_in_place, nested_loop.
  induction coll as [|x coll IH]; intros s e Ht; simpl.
  - by apply step_skip.
  - apply step_seq; [by apply step_nested | apply IH].
Qed.

Lemma step_relation_if this ty x s e :
  tree s (length s) this e ->
  step this s (relation_if_in_place rec' ty x this)
    (relation_if rec ty x e).
Proof.
  intros Ht. destruct x as [a|]; simpl;
    [by apply step_relation | by apply step_skip].
Qed.

Lemma sim_ret this (s : estore) e :
  tree s (length s) this e -> sim this s (mret this) (Ok e).
Proof. intros Ht. by exists s. Qed.

Lemma sim_seq this s (m : B unit) (K : B nat) r1 g :
  step this s m r1 ->
  (forall s1 e1, tree s1 (length s1) this e1 -> sim this s1 K (g e1)) ->
  sim this s (m;; K)%M (obind r1 g).
Proof.
  unfold step. intros H1 H2. destruct r1 as [e1| |]; simpl.
  - destruct H1 as (s1 & E1 & Ht1 & F1). specialize (H2 s1 e1 Ht1).
    unfold sim in *. unfold mbind. rewrite E1.
    destruct (g e1); [| done | done].
    destruct H2 as (s2 & E2 & Ht2 & F2). exists s2.
    repeat (split; [done |]). intros i Hi. by rewrite F2, F1.
  - destruct H1 as (s1 & E1). unfold mbind. rewrite E1. by eexists.
  - destruct H1 as (s1 & E1). unfold mbind. rewrite E1. by eexists.
Qed.

Lemma sim_pure this s (m : B unit) (K : B nat) e1 r :
  step this s m (Ok e1) ->
  (forall s1, tree s1 (length s1) this e1 -> sim this s1 K r) ->
  sim this s (m;; K)%M r.
Proof.
  intros (s1 & E1 & Ht1 & F1) H2. specialize (H2 s1 Ht1).
  unfold sim in *. unfold mbind. rewrite E1.
  destruct r; [| done | done].
  destruct H2 as (s2 & E2 & Ht2 & F2). exists s2.
  repeat (split; [done |]). intros i Hi. by rewrite F2, F1.
Qed.

Lemma new_this_spec parent cls ns (s : estore) :
  (forall p, parent = Some p -> p < length s) ->
  exists s1,
    new_this parent cls ns s = (Ok (length s), s1) /\
    tree s1 (length s1) (length s) (etree_Element cls ns) /\
    forall i, i < length s ->
      s1 !! i = if decide (parent = Some i)
                then Etree.append (length s) <$> s !! i
                else s !! i.
Proof.
  intros Hp. unfold etree_Element. destruct parent as [p|]; cbn [new_this].
  - specialize (Hp p eq_refl). eexists. split; [reflexivity |]. split.
    + apply tree_unfold. eexists.
      rewrite list_lookup_alter_ne by lia.
      rewrite list_lookup_middle by done.
      rewrite length_alter, length_app. simpl.
      repeat (split; [done || lia |]). constructor.
    + intros i Hi. rewrite list_lookup_alter.
      destruct (decide (p = i)) as [->|Hne].
      * rewrite decide_True by done. by rewrite lookup_app_l.
      * rewrite decide_False by congruence. by rewrite lookup_app_l.
  - eexists. split; [reflexivity |]. split.
    + apply tree_unfold. eexists.
      rewrite list_lookup_middle by done. rewrite length_app. simpl.
      repeat (split; [done || lia |]). constructor.
    + intros i Hi. by rewrite lookup_app_l.
Qed.

Lemma done_new parent cls ns s (K : nat -> B nat) r :
  (forall p, parent = Some p -> p < length s) ->
  (forall s1, tree s1 (length s1) (length s) (etree_Element cls ns) ->
     sim (length s) s1 (K (length s)) r) ->
  done_as s parent (this <- new_this parent cls ns;; K this)%M r.
Proof.
  intros Hp HK.
  destruct (new_this_spec parent cls ns s Hp) as (s1 & E1 & Ht1 & F1).
  specialize (HK s1 Ht1). unfold sim in HK. unfold done_as, mbind.
  rewrite E1. destruct r; [| done | done].
  destruct HK as (s2 & E2 & Ht2 & F2). exists s2. split; [done |].
  split; [| done]. intros i Hi. by rewrite F2, F1.
Qed.

Lemma done_then s parent (m0 : B nat) (K : nat -> B nat) r0 g :
  done_as s parent m0 r0 ->
  (forall s1 e0, tree s1 (length s1) (length s) e0 ->
     sim (length s) s1 (K (length s)) (g e0)) ->
  done_as s parent (this <- m0;; K this)%M (obind r0 g).
Proof.
  unfold done_as at 1. intros H0 HK. destruct r0 as [e0| |]; simpl.
  - destruct H0 as (s1 & E1 & F1 & Ht1). specialize (HK s1 e0 Ht1).
    unfold sim in HK. unfold done_as, mbind. rewrite E1.
    destruct (g e0); [| done | done].
    destruct HK as (s2 & E2 & Ht2 & F2). exists s2. split; [done |].
    split; [| done]. intros i Hi. by rewrite F2, F1.
  - destruct H0 as (s1 & E1). unfold mbind. rewrite E1. by eexists.
  - destruct H0 as (s1 & E1). unfold mbind. rewrite E1. by eexists.
Qed.

Local Ltac sim_steps :=
  repeat first
    [ eapply sim_ret; eassumption
    | eapply sim_seq;
      [ first [ eapply step_relation_loop | eapply step_nested_loop
              | eapply step_relation_if ]; eassumption
      | intros ? ? ? ]
    | eapply sim_pure;
      [ first [ eapply step_attrib_if | eapply step_attrib_assign
              | eapply step_skip ]; eassumption
      | intros ? ? ] ].

Lemma NetworkObject_getNML_refines cls b parent s :
  (forall p, parent = Some p -> p < length s) ->
  done_as s parent (NetworkObject_getNML_in_place rec' cls b parent)
    (NetworkObject_getNML rec cls b).
Proof.
  intros Hp. unfold NetworkObject_getNML_in_place, NetworkObject_getNML.
  cbv zeta. apply done_new; [done |]. intros s1 Ht. sim_steps.
Qed.

Lemma getNML_method_refines o parent s :
  (forall p, parent = Some p -> p < length s) ->
  done_as s parent (getNML_method_in_place rec' o parent)
    (getNML_method rec o).
Proof.
  intros Hp. destruct o; cbn [getNML_method_in_place getNML_method];
    try (by apply NetworkObject_getNML_refines);
    try (by eexists);
    unfold Node_getNML_in_place, Node_getNML, Port_getNML_in_place,
      Port_getNML, Link_getNML_in_place, Link_getNML,
      SwitchingService_getNML_in_place, SwitchingService_getNML,
      AdaptationService_getNML_in_place, AdaptationService_getNML,
      DeadaptationService_getNML_in_place, DeadaptationService_getNML,
      Topology_getNML_in_place, Topology_getNML,
      Location_getNML_in_place, Location_getNML,
      Lifetime_getNML_in_place, Lifetime_getNML,
      Label_getNML_in_place, Label_getNML;
    cbv zeta;
    try (apply done_then; [by apply NetworkObject_getNML_refines |];
         intros s1 e0 Ht);
    try (apply done_new; [done |]; intros s1 Ht);
    repeat match goal with
      | |- context [if ?b then _ else _] => destruct b
      end;
    sim_steps.
Qed.
End Refinement.

(** The in-place [getNML] builds, under [parent], the element the functional
    [getNML] computes, raises when it raises, and runs out of fuel when it
    does. *)
Theorem getNML_in_place_refines fuel h :
  refines (getNML fuel h) (getNML_in_place fuel h).
Proof.
  induction fuel as [|n IH]; intros a parent s Hp.
  - by exists s.
  - simpl. destruct (h !! a) as [o|].
    + by apply getNML_method_refines.
    + by exists s.
Qed.

(** ** Serializing twice *)

(** C9.  Two successive calls of [getNML] on the same root of an unchanged
    store of objects.  The objects are untouched by both calls, and the two
    calls give the same answer whenever both finish.  On an acyclic store of
    serializable objects both return the same tree [e]; built in place, the
    second call makes new elements only, so that afterwards [e] stands twice
    in the store of elements, where the first call built it and where the
    second did, and no element that existed before is changed. *)
Theorem getNML_twice_identical (h : heap) (root : addr) (f1 f2 : nat) :
  (forall r1 h1 r2 h2,
     call_getNML f1 root h = (r1, h1) ->
     call_getNML f2 root h1 = (r2, h2) ->
     h1 = h /\ h2 = h /\ (r1 <> Diverge -> r2 <> Diverge -> r1 = r2))
  /\
  (forall rank o,
     ranked rank h = true -> h !! root = Some o -> has_getNML o = true ->
     rank root < f1 -> rank root < f2 ->
     exists e,
       (e1 <- call_getNML f1 root;;
        e2 <- call_getNML f2 root;;
        mret (e1, e2))%M h = (Ok (e, e), h) /\
       forall s : estore,
       exists s1 s2,
         getNML_in_place f1 h root None s = (Ok (length s), s1) /\
         getNML_in_place f2 h root None s1 = (Ok (length s1), s2) /\
         tree s2 (length s2) (length s) e /\
         tree s2 (length s2) (length s1) e /\
         forall i, i < length s -> s2 !! i = s !! i).
Proof.
  split.
  - unfold call_getNML. intros r1 h1 r2 h2 [= <- <-] [= <- <-].
    split; [done |]. split; [done |]. apply getNML_fuel_irrelevant.
  - intros rank o Hr Ho Hg Hf1 Hf2.
    destruct (getNML_ranked rank h Hr f1 root o Hf1 Ho Hg) as [e1 E1].
    destruct (getNML_ranked rank h Hr f2 root o Hf2 Ho Hg) as [e2 E2].
    assert (e2 = e1) as ->.
    { assert (getNML f1 h root = getNML f2 h root) as E
        by (apply getNML_fuel_irrelevant; congruence).
      congruence. }
    exists e1. split.
    { unfold mbind, call_getNML, mret. by rewrite E1, E2. }
    intros s.
    pose proof (getNML_in_place_refines f1 h root None s) as H1.
    unfold done_as in H1. rewrite E1 in H1.
    destruct H1 as (s1 & R1 & F1 & T1); [done |].
    pose proof (getNML_in_place_refines f2 h root None s1) as H2.
    unfold done_as in H2. rewrite E2 in H2.
    destruct H2 as (s2 & R2 & F2 & T2); [done |].
    pose proof (tree_lt _ _ _ _ T1). pose proof (tree_lt _ _ _ _ T2).
    exists s1, s2. split; [done |]. split; [done |]. split.
    { eapply tree_mono; [exact T1 | lia |].
      intros i _ Hi. by rewrite F2. }
    split; [done |].
    intros i Hi. rewrite F2 by lia. by rewrite F1.
Qed.

Lemma getNML_twice_identical_witness :
  (exists e,
     (e1 <- call_getNML 3 0;;
      e2 <- call_getNML 5 0;;
      mret (e1, e2))%M
       [OTopology (Topology.set_has_node_nodes [1] Topology.init);
        ONode (Node.set_has_inbound_port_ports [2] Node.init);
        OPort Port.init]
     = (Ok (e, e),
        [OTopology (Topology.set_has_node_nodes [1] Topology.init);
         ONode (Node.set_has_inbound_port_ports [2] Node.init);
         OPort Port.init]) /\
     exists s1 s2,
       getNML_in_place 3
         [OTopology (Topology.set_has_node_nodes [1] Topology.init);
          ONode (Node.set_has_inbound_port_ports [2] Node.init);
          OPort Port.init] 0 None [] = (Ok 0, s1) /\
       getNML_in_place 5
         [OTopology (Topology.set_has_node_nodes [1] Topology.init);
          ONode (Node.set_has_inbound_port_ports [2] Node.init);
          OPort Port.init] 0 None s1 = (Ok (length s1), s2) /\
       tree s2 (length s2) 0 e /\ tree s2 (length s2) (length s1) e) /\
  getNML 3
    [OTopology (Topology.set_has_node_nodes [1] Topology.init);
     ONode (Node.set_has_inbound_port_ports [2] Node.init);
     OPort Port.init] 0
  = getNML 5
      [OTopology (Topology.set_has_node_nodes [1] Topology.init);
       ONode (Node.set_has_inbound_port_ports [2] Node.init);
       OPort Port.init] 0.
Proof.
  split.
  - destruct (proj2 (getNML_twice_identical
                       [OTopology
                          (Topology.set_has_node_nodes [1] Topology.init);
                        ONode (Node.set_has_inbound_port_ports [2] Node.init);
                        OPort Port.init] 0 3 5)
                (fun a => 2 - a)
                (OTopology (Topology.set_has_node_nodes [1] Topology.init))
                eq_refl eq_refl eq_refl
                ltac:(simpl; lia) ltac:(simpl; lia))
      as (e & E & Hs).
    destruct (Hs []) as (s1 & s2 & R1 & R2 & T1 & T2 & _).
    exists e. split; [exact E |]. exists s1, s2.
    split; [exact R1 |]. split; [exact R2 |]. split; [exact T1 | exact T2].
  - apply (proj1 (getNML_twice_identical
                    [OTopology (Topology.set_has_node_nodes [1] Topology.init);
                     ONode (Node.set_has_inbound_port_ports [2] Node.init);
                     OPort Port.init] 0 3 5)
             _ _ _ _ eq_refl eq_refl);
      discriminate.
Defined.

(** * More of the module *)

(** ** Every document is in order *)

Lemma dict_set_keys {V} k (v : V) d k' :
  k' ∈ (dict_set k v d).*1 -> k' = k \/ k' ∈ d.*1.
Proof.
  induction d as [|[k0 v0] d IH]; simpl.
  - intros ->%list_elem_of_singleton. by left.
  - destruct (String.eqb k k0) eqn:E; simpl.
    + apply String.eqb_eq in E as <-. rewrite !elem_of_cons. tauto.
    + rewrite !elem_of_cons. intros [->|H]; [tauto |].
      destruct (IH H); tauto.
Qed.

Lemma dict_set_NoDup {V} k (v : V) d :
  NoDup d.*1 -> NoDup (dict_set k v d).*1.
Proof.
  induction d as [|[k0 v0] d IH]; simpl; intros H.
  - repeat constructor. by intros ?%elem_of_nil.
  - apply list.NoDup_cons in H as [Hk0 Hd].
    destruct (String.eqb k k0) eqn:E; simpl.
    + apply String.eqb_eq in E as <-. by apply list.NoDup_cons.
    + apply list.NoDup_cons. split; [| by apply IH].
      intros [->|Hin]%dict_set_keys; [| done].
      by rewrite String.eqb_refl in E.
Qed.

Lemma dict_set_forallb {V} (P : string * V -> bool) k v d :
  P (k, v) = true -> forallb P d = true -> forallb P (dict_set k v d) = true.
Proof.
  intros HP. induction d as [|[k0 v0] d IH]; simpl.
  - by rewrite HP.
  - intros [H0 Hd]%andb_true_iff.
    destruct (String.eqb k k0); simpl; [by rewrite HP | by rewrite H0, IH].
Qed.

Lemma attrib_ok_dict_set allowed k v a :
  k ∈ allowed -> v <> "" ->
  attrib_ok allowed a = true ->
  attrib_ok allowed (dict_set k (VStr v) a) = true.
Proof.
  unfold attrib_ok. intros Hk Hv [Ha Hn]%andb_true_iff.
  apply bool_decide_eq_true in Hn. apply andb_true_iff. split.
  - apply dict_set_forallb; [| done]. unfold attribute_ok. simpl.
    rewrite bool_decide_eq_true_2 by done.
    by apply String.eqb_neq in Hv as ->.
  - by apply bool_decide_eq_true, dict_set_NoDup.
Qed.

Lemma building_new allowed cls ns :
  ns = None \/ ns = Some NAMESPACES ->
  building allowed (etree_Element cls ns).
Proof. by intros [-> | ->]. Qed.

Lemma building_set_attrib allowed k v e :
  k ∈ allowed -> v <> "" ->
  building allowed e -> building allowed (set_attrib k v e).
Proof.
  intros Hk Hv [Ha Hc]. destruct e; simpl in *.
  split; [by apply attrib_ok_dict_set | done].
Qed.

Lemma building_attrib_if allowed k v e :
  k ∈ allowed -> building allowed e -> building allowed (attrib_if k v e).
Proof.
  intros Hk He. unfold attrib_if. destruct v as [s|]; [| done].
  destruct (truthy (Some s)) eqn:E; [| done].
  apply building_set_attrib; [done | | done].
  intros ->. done.
Qed.

Lemma building_append_child allowed e c :
  building allowed e -> well_formed c = true ->
  building allowed (append_child e c).
Proof.
  intros [Ha Hc] Hw. destruct e as [t a cs]. unfold building.
  cbn [append_child children attrib] in *. split; [done |].
  rewrite forallb_app, Hc. cbn [forallb]. by rewrite Hw.
Qed.

Lemma well_formed_Relation ty c :
  ty ∈ relation_types -> entity_ok c -> well_formed (Relation ty c) = true.
Proof.
  intros Hty [Hw Ht].
  change (well_formed (Relation ty c))
    with (element_ok "Relation" [("type", VStr ty)] [c]
          && (well_formed c && true)).
  unfold element_ok. rewrite !String.eqb_refl, Hw.
  rewrite (bool_decide_eq_true_2 (ty ∈ relation_types)) by done.
  by apply String.eqb_neq in Ht as ->.
Qed.

Section WellFormed.
Variable rec : addr -> outcome element.
Hypothesis Hrec : forall x c, rec x = Ok c -> entity_ok c.

Lemma relation_loop_building allowed ty coll : forall this this',
  ty ∈ relation_types -> building allowed this ->
  relation_loop rec ty coll this = Ok this' -> building allowed this'.
Proof.
  unfold relation_loop.
  induction coll as [|x coll IH]; intros this this' Hty Hb H; simpl in H.
  - by injection H as <-.
  - apply obind_Ok in H as (acc & H1 & H2).
    apply obind_Ok in H1 as (c & Hc & [= <-]).
    eapply IH; [done | | exact H2].
    apply building_append_child; [done |].
    apply well_formed_Relation; [done | by eapply Hrec].
Qed.

Lemma nested_loop_building allowed coll : forall this this',
  building allowed this ->
  nested_loop rec coll this = Ok this' -> building allowed this'.
Proof.
  unfold nested_loop.
  induction coll as [|x coll IH]; intros this this' Hb H; simpl in H.
  - by injection H as <-.
  - apply obind_Ok in H as (acc & H1 & H2).
    apply obind_Ok in H1 as (c & Hc & [= <-]).
    eapply IH; [| exact H2].
    apply building_append_child; [done |]. by eapply Hrec.
Qed.

Lemma relation_if_building allowed ty x this this' :
  ty ∈ relation_types -> building allowed this ->
  relation_if rec ty x this = Ok this' -> building allowed this'.
Proof.
  intros Hty Hb. destruct x as [a|]; simpl; intros H.
  - apply obind_Ok in H as (c & Hc & [= <-]).
    apply building_append_child; [done |].
    apply well_formed_Relation; [done | by eapply Hrec].
  - by injection H as <-.
Qed.

Local Ltac member := apply (bool_decide_unpack _); vm_compute; exact I.

Local Ltac build :=
  repeat match goal with
    | H : obind _ _ = Ok _ |- _ =>
        let a := fresh "this" in
        let E := fresh "E" in
        apply obind_Ok in H as (a & E & H)
    | H : Ok _ = Ok _ |- _ => injection H as <-
    end;
  repeat match goal with
    | |- building _ (etree_Element _ _) =>
        apply building_new; first [by left | by right]
    | |- building _ (attrib_if _ _ _) =>
        apply building_attrib_if; [member |]
    | |- building _ (set_attrib _ (str_bool true) _) =>
        apply building_set_attrib; [member | discriminate |]
    | |- building _ (if ?b then _ else _) => destruct b eqn:?
    | H : relation_loop _ _ _ _ = Ok ?e |- building _ ?e =>
        eapply relation_loop_building; [| | exact H]; [member |]
    | H : nested_loop _ _ _ = Ok ?e |- building _ ?e =>
        eapply nested_loop_building; [| exact H]
    | H : relation_if _ _ _ _ = Ok ?e |- building _ ?e =>
        eapply relation_if_building; [| | exact H]; [member |]
    end.

Lemma NetworkObject_getNML_building allowed cls b e :
  "id" ∈ allowed -> "name" ∈ allowed -> "version" ∈ allowed ->
  NetworkObject_getNML rec cls b = Ok e -> building allowed e.
Proof.
  intros H1 H2 H3 H. unfold NetworkObject_getNML in H. cbv zeta in H.
  build. by repeat apply building_attrib_if.
Qed.

Lemma getNML_method_building o e :
  getNML_method rec o = Ok e -> building (allowed_keys (class_name o)) e.
Proof.
  intros H. destruct o; cbn [getNML_method class_name] in H |- *;
    try discriminate H;
    try (eapply NetworkObject_getNML_building; [member.. | exact H]);
    try (injection H as <-;
         unfold Location_getNML, Lifetime_getNML, Label_getNML; cbv zeta;
         build; done);
    unfold Node_getNML, Port_getNML, Link_getNML, SwitchingService_getNML,
      AdaptationService_getNML, DeadaptationService_getNML, Topology_getNML
      in H; cbv zeta in H;
    apply obind_Ok in H as (e0 & H0 & H);
    match goal with
    | |- building ?al _ =>
        eapply (NetworkObject_getNML_building al) in H0; [| member..]
    end;
    build; try exact H0.
Qed.

Lemma getNML_method_nsmap o e :
  getNML_method rec o = Ok e ->
  dict_get "nsmap" (attrib e)
  = if bool_decide (class_name o ∈ leaf_classes)
    then None else Some (VDict NAMESPACES).
Proof.
  intros H. destruct (base_of o) as [b|] eqn:Hb.
  - destruct (getNML_method_base _ _ _ _ Hb H) as (e0 & H0 & _ & Hn & _).
    apply NetworkObject_getNML_Ok in H0 as (_ & Hn0 & _).
    rewrite Hn, Hn0. by destruct o.
  - destruct o; simplify_eq/=; try done;
      unfold Location_getNML, Lifetime_getNML, Label_getNML; cbv zeta;
      by rewrite !dict_get_attrib_if_ne.
Qed.

Lemma getNML_method_leaf o e :
  getNML_method rec o = Ok e -> class_name o ∈ leaf_classes ->
  children e = [].
Proof.
  intros H Hl. destruct o; cbn [getNML_method class_name] in *;
    try (by apply (bool_decide_pack _) in Hl; vm_compute in Hl);
    injection H as <-;
    unfold Location_getNML, Lifetime_getNML, Label_getNML; cbv zeta;
    by rewrite !children_attrib_if.
Qed.
End WellFormed.

Lemma getNML_method_entity_ok rec o e :
  (forall x c, rec x = Ok c -> entity_ok c) ->
  getNML_method rec o = Ok e -> entity_ok e.
Proof.
  intros Hrec H. split.
  2: { rewrite (getNML_method_tag _ _ _ H). apply class_name_not_Relation. }
  pose proof (getNML_method_tag _ _ _ H) as Ht.
  pose proof (getNML_method_nsmap _ _ _ H) as Hn.
  pose proof (getNML_method_building _ Hrec _ _ H) as [Ha Hc].
  pose proof (getNML_method_leaf _ _ _ H) as Hl.
  destruct e as [t a cs]. cbn [tag attrib children] in *.
  subst t. cbn [well_formed]. rewrite Hc. unfold element_ok.
  destruct o; cbn [class_name getNML_method] in *; try discriminate H;
    rewrite Ha, Hn; try (rewrite Hl by (apply (bool_decide_unpack _);
                                        vm_compute; exact I));
    vm_compute; reflexivity.
Qed.

Lemma getNML_entity_ok fuel h : forall a e,
  getNML fuel h a = Ok e -> entity_ok e.
Proof.
  induction fuel as [|n IH]; intros a e H; [done |].
  rewrite getNML_unfold in H. destruct (h !! a) as [o|]; [| done].
  by eapply getNML_method_entity_ok.
Qed.

(** ** What a call can do to the store *)

Lemma validated_obj_alias h o b x :
  base_of o = Some b -> class_at h x = Some (class_name o) ->
  validated_obj h o = true ->
  validated_obj h
    (set_base (NetworkObject.set_is_alias_network_objects
                 (NetworkObject.is_alias_network_objects b ++ [x]) b) o)
  = true.
Proof.
  intros Hb Hx. unfold validated_obj.
  rewrite (base_of_set_base _ _ _ Hb), Hb, class_name_set_base.
  cbn [NetworkObject.set_is_alias_network_objects
         NetworkObject.is_alias_network_objects
         NetworkObject.exists_during_lifetimes].
  rewrite forallb_app. cbn [forallb]. rewrite (bool_decide_eq_true_2 _ Hx).
  rewrite !andb_true_r. by destruct o as [[]|[]|[]|[]|[]|[]|[]|[]|[]|[]|[]| | | | | |].
Qed.

Lemma validated_obj_lifetime h o b l :
  base_of o = Some b -> class_at h l = Some "Lifetime" ->
  validated_obj h o = true ->
  validated_obj h
    (set_base (NetworkObject.set_exists_during_lifetimes
                 (NetworkObject.exists_during_lifetimes b ++ [l]) b) o)
  = true.
Proof.
  intros Hb Hl. unfold validated_obj.
  rewrite (base_of_set_base _ _ _ Hb), Hb, class_name_set_base.
  cbn [NetworkObject.set_exists_during_lifetimes
         NetworkObject.is_alias_network_objects
         NetworkObject.exists_during_lifetimes].
  rewrite forallb_app. cbn [forallb]. rewrite (bool_decide_eq_true_2 _ Hl).
  rewrite !andb_true_r. by destruct o as [[]|[]|[]|[]|[]|[]|[]|[]|[]|[]|[]| | | | | |].
Qed.

Lemma validated_obj_base h o b b' :
  base_of o = Some b ->
  NetworkObject.is_alias_network_objects b'
    = NetworkObject.is_alias_network_objects b ->
  NetworkObject.exists_during_lifetimes b'
    = NetworkObject.exists_during_lifetimes b ->
  validated_obj h (set_base b' o) = validated_obj h o.
Proof.
  intros Hb Ha Hl. unfold validated_obj.
  rewrite (base_of_set_base _ _ _ Hb), Hb, class_name_set_base, Ha, Hl.
  by destruct o as [[]|[]|[]|[]|[]|[]|[]|[]|[]|[]|[]| | | | | |].
Qed.

Lemma getNML_method_Link_unread rec x v l :
  getNML_method rec
    (OLink (Link.mk (Link.base x) (Link.has_label_labels x) l
              (Link._encoding x) (Link.no_return_traffic x) v))
  = getNML_method rec (OLink x).
Proof. by destruct x. Qed.

Section CallCases.
Variable is_valid_uri : string -> bool.

Lemma exec_cases c h :
  (exists e, exec is_valid_uri c h = (Raise e, h)) \/
  (exists o o',
     h !! receiver c = Some o /\
     exec is_valid_uri c h = (Ok tt, <[receiver c := o']> h) /\
     class_name o' = class_name o /\
     (validated_obj h o = true -> validated_obj h o' = true) /\
     (unserialized c = true ->
      forall rec, getNML_method rec o' = getNML_method rec o)).
Proof.
  destruct c; cbn [exec receiver unserialized];
    unfold NetworkObject_set_identification, NetworkObject_set_name,
      NetworkObject_set_version, NetworkObject_exists_during,
      NetworkObject_is_alias, NetworkObject_locatedAt, NetworkObject_method,
      Node_has_inbound_port, Node_has_outbound_port, Node_has_service,
      Node_implementedBy, Node_method,
      Port_set_encoding, Port_has_label, Port_has_service, Port_is_sink,
      Port_is_source, Port_method,
      Link_set_encoding, Link_set_no_return_traffic, Link_has_label,
      Link_is_serial_compound_link, Link_method,
      SwitchingService_set_encoding, SwitchingService_set_label_swapping,
      SwitchingService_has_inbound_port, SwitchingService_has_outbound_port,
      SwitchingService_provides_link, SwitchingService_method,
      AdaptationService_set_adaptation_function,
      AdaptationService_can_provide_port, AdaptationService_provides_port,
      AdaptationService_method,
      DeadaptationService_set_adaptation_function,
      DeadaptationService_can_provide_port,
      DeadaptationService_provides_port, DeadaptationService_method,
      Topology_has_node, Topology_has_inbound_port,
      Topology_has_outbound_port, Topology_has_service,
      Topology_has_topology, Topology_method,
      PortGroup_set_encoding, PortGroup_has_label_group, PortGroup_has_port,
      PortGroup_is_sink, PortGroup_is_source, PortGroup_method,
      LinkGroup_set_encoding, LinkGroup_has_label_group, LinkGroup_has_link,
      LinkGroup_is_serial_compound_link, LinkGroup_method,
      BidirectionalPort_set_encoding, BidirectionalPort_has_port,
      BidirectionalPort_method,
      BidirectionalLink_set_encoding, BidirectionalLink_has_link,
      BidirectionalLink_method,
      Location_set, Lifetime_set_start, Lifetime_set_end,
      Label_set_labeltype, Label_set_value,
      mbind, load, store, raise, lift, mret;
    (destruct (h !! self) as [o|] eqn:Hself; [| by left; eexists]).
  all: try (destruct (base_of o) as [b|] eqn:Hb; [| by left; eexists]).
  (* the methods of NetworkObject *)
  { destruct (is_valid_uri identification); [| by left; eexists].
    right. exists o. eexists. repeat (split; [done |]).
    split; [apply class_name_set_base |].
    split; [by rewrite (validated_obj_base _ _ _ _ Hb) | done]. }
  { right. exists o. eexists. repeat (split; [done |]).
    split; [apply class_name_set_base |].
    split; [by rewrite (validated_obj_base _ _ _ _ Hb) | done]. }
  { right. exists o. eexists. repeat (split; [done |]).
    split; [apply class_name_set_base |].
    split; [by rewrite (validated_obj_base _ _ _ _ Hb) | done]. }
  { destruct (h !! lifetime) as [l|] eqn:Hl; [| by left; eexists].
    destruct (String.eqb (class_name l) "Lifetime") eqn:E;
      [| by left; eexists].
    apply String.eqb_eq in E. right. exists o. eexists.
    repeat (split; [done |]). split; [apply class_name_set_base |].
    split; [| done]. apply validated_obj_lifetime; [done |].
    unfold class_at. by rewrite Hl, <- E. }
  { destruct (h !! network_object) as [n|] eqn:Hn; [| by left; eexists].
    destruct (String.eqb (class_name o) (class_name n)) eqn:E;
      [| by left; eexists].
    apply String.eqb_eq in E. right. exists o. eexists.
    repeat (split; [done |]). split; [apply class_name_set_base |].
    split; [| done]. apply validated_obj_alias; [done |].
    unfold class_at. by rewrite Hn, E. }
  { right. exists o. eexists. repeat (split; [done |]).
    split; [apply class_name_set_base |].
    split; [by rewrite (validated_obj_base _ _ _ _ Hb) | done]. }
  (* the methods of the subclasses *)
  all: destruct o as [x|x|x|x|x|x|x|x|x|x|x|x|x|x|x| |];
    try (by left; eexists).
  all: try (right; eexists _, _;
            split; [reflexivity |]; split; [reflexivity |];
            split; [reflexivity |]; split; [intros Hv; exact Hv |];
            first [ discriminate | by intros _ rec; destruct x ]).
  (* can_provide_port of an AdaptationService *)
  destruct (h !! port) as [p|] eqn:Hp; [| by left; eexists].
  destruct (bool_decide (class_name p ∈ ["Port"; "PortGroup"])) eqn:E;
    [| by left; eexists].
  apply bool_decide_eq_true in E. right. eexists _, _.
  split; [reflexivity |]. split; [reflexivity |]. split; [reflexivity |].
  split; [| discriminate].
  unfold validated_obj. cbn [base_of class_name AdaptationService.base
    AdaptationService.can_provide_port_ports
    AdaptationService.set_can_provide_port_ports].
  rewrite forallb_app. cbn [forallb].
  intros [Hab Hc]%andb_true_iff. rewrite Hab, Hc, andb_true_r.
  cbn [andb]. apply bool_decide_eq_true.
  unfold class_at. rewrite Hp. simpl.
  apply elem_of_cons in E as [->|E]; [by left |].
  apply elem_of_cons in E as [->|E]; [by right; left |].
  by apply elem_of_nil in E.
Qed.
End CallCases.

(** X1.  Every element of a document [getNML] returns is in order: a
    [Relation] carries exactly one attribute, [type], with a value of the
    vocabulary, and exactly one child, which is the element of an object;
    the element of an object is named after its class and carries string
    attributes of that class only, each once and none empty, besides the
    attribute [nsmap]: the element of every class but [Location],
    [Lifetime] and [Label] has one, whose value is the dictionary
    [NAMESPACES], and the elements of those three have none, and no
    children.  The root is the element of the object serialized. *)
Theorem getNML_well_formed
  (fuel : nat) (h : heap) (a : addr) (e : element) :
  getNML fuel h a = Ok e ->
  well_formed e = true /\
  exists o, h !! a = Some o /\ tag e = class_name o.
Proof.
  intros H. split; [by eapply getNML_entity_ok |]. by eapply getNML_tag.
Qed.

Lemma getNML_well_formed_witness :
  well_formed
    (Element "Node" [("nsmap", VDict NAMESPACES); ("name", VStr "n1")]
       [Relation "hasOutoundPort"
          (Element "Port" [("nsmap", VDict NAMESPACES); ("encoding", VStr "e")]
             [Relation "hasLabel" (Element "Label" [("value", VStr "7")] [])])])
  = true /\
  exists o,
    [ONode (Node.mk (NetworkObject.set__name (Some "n1") NetworkObject.init)
              [] [1] [] []);
     OPort (Port.mk NetworkObject.init (Some 2) [] [] [] (Some "e"));
     OLabel (Label.mk None (Some "7"))] !! 0 = Some o /\
    tag (Element "Node" [("nsmap", VDict NAMESPACES); ("name", VStr "n1")]
           [Relation "hasOutoundPort"
              (Element "Port"
                 [("nsmap", VDict NAMESPACES); ("encoding", VStr "e")]
                 [Relation "hasLabel"
                    (Element "Label" [("value", VStr "7")] [])])])
    = class_name o.
Proof.
  apply (getNML_well_formed 3
           [ONode (Node.mk (NetworkObject.set__name (Some "n1")
                              NetworkObject.init) [] [1] [] []);
            OPort (Port.mk NetworkObject.init (Some 2) [] [] [] (Some "e"));
            OLabel (Label.mk None (Some "7"))] 0).
  reflexivity.
Defined.

(** ** Calls and what they keep *)

Lemma class_at_insert (h : heap) a o o' b :
  h !! a = Some o -> class_name o' = class_name o ->
  class_at (<[a := o']> h) b = class_at h b.
Proof.
  intros Ha Hc. unfold class_at. destruct (decide (a = b)) as [<-|Hne].
  - rewrite (lookup_store _ _ _ _ Ha), Ha. simpl. by rewrite Hc.
  - by rewrite list_lookup_insert_ne.
Qed.

(** X2.  A call changes at most its receiver: the store keeps its size,
    every object keeps its class, every object but the receiver is as it
    was, and a call that raises leaves the whole store as it was. *)
Theorem exec_frame (is_valid_uri : string -> bool) (c : call) (h : heap) :
  length (exec is_valid_uri c h).2 = length h /\
  (forall a, class_at (exec is_valid_uri c h).2 a = class_at h a) /\
  (forall a, a <> receiver c -> (exec is_valid_uri c h).2 !! a = h !! a) /\
  ((exec is_valid_uri c h).1 <> Ok tt -> (exec is_valid_uri c h).2 = h).
Proof.
  destruct (exec_cases is_valid_uri c h)
    as [[e ->]|(o & o' & Ho & -> & Hc & _)]; cbn [fst snd].
  - done.
  - split; [apply length_insert |].
    split; [intros a; by eapply class_at_insert |].
    split; [intros a Ha; by apply list_lookup_insert_ne |]. done.
Qed.

Lemma forallb_ext_in {A} (f g : A -> bool) l :
  (forall x, f x = g x) -> forallb f l = forallb g l.
Proof. intros H. induction l as [|x l IH]; simpl; [done |]. by rewrite H, IH. Qed.

Lemma validated_obj_ext h h' o :
  (forall a, class_at h' a = class_at h a) ->
  validated_obj h' o = validated_obj h o.
Proof.
  intros H. unfold validated_obj. destruct (base_of o); [| done].
  f_equal; [f_equal |].
  - apply forallb_ext_in. intros x. by rewrite H.
  - apply forallb_ext_in. intros x. by rewrite H.
  - destruct o; try done. apply forallb_ext_in. intros y. by rewrite H.
Qed.

Lemma validated_lookup h :
  validated h = true <->
  forall a o, h !! a = Some o -> validated_obj h o = true.
Proof.
  unfold validated. rewrite forallb_forall. split.
  - intros H a o Ha. apply H, list_elem_of_In.
    by eapply list_elem_of_lookup_2.
  - intros H o [a Ha]%list_elem_of_In%list_elem_of_lookup. by eapply H.
Qed.

Lemma exec_validated is_valid_uri c h :
  validated h = true -> validated (exec is_valid_uri c h).2 = true.
Proof.
  intros Hv.
  destruct (exec_cases is_valid_uri c h)
    as [[e ->]|(o & o' & Ho & -> & Hc & Hval & _)]; cbn [snd]; [done |].
  apply validated_lookup. intros a oa Ha.
  rewrite (validated_obj_ext h) by (intros b; by eapply class_at_insert).
  destruct (decide (receiver c = a)) as [<-|Hne].
  - rewrite (lookup_store _ _ _ _ Ho) in Ha. injection Ha as <-.
    apply Hval. by eapply validated_lookup.
  - rewrite list_lookup_insert_ne in Ha by done.
    by eapply validated_lookup.
Qed.

(** X3.  The validated setters keep what they check, whatever is called
    and in whatever order, exceptions included: if in a store every alias is
    of the class of its object, every lifetime an object exists during is a
    [Lifetime], and every port an [AdaptationService] can provide is a
    [Port] or a [PortGroup], then so it is after any sequence of calls. *)
Theorem run_validated
  (is_valid_uri : string -> bool) (cs : list call) (h : heap) :
  validated h = true -> validated (run is_valid_uri cs h) = true.
Proof.
  revert h. induction cs as [|c cs IH]; intros h Hv; [done |].
  cbn [run foldl]. apply IH. by apply exec_validated.
Qed.

Lemma run_validated_witness :
  validated
    (run has_scheme
       [c_is_alias 0 1; c_is_alias 0 2; c_exists_during 0 3;
        c_exists_during 0 2; c_AdaptationService_can_provide_port 4 2;
        c_AdaptationService_can_provide_port 4 0;
        c_Node_has_service 0 4; c_set_identification 0 "no scheme"]
       [ONode Node.init; ONode Node.init; OPort Port.init;
        OLifetime Lifetime.init;
        OAdaptationService AdaptationService.init]) = true.
Proof.
  apply (run_validated has_scheme
           [c_is_alias 0 1; c_is_alias 0 2; c_exists_during 0 3;
            c_exists_during 0 2; c_AdaptationService_can_provide_port 4 2;
            c_AdaptationService_can_provide_port 4 0;
            c_Node_has_service 0 4; c_set_identification 0 "no scheme"]
           [ONode Node.init; ONode Node.init; OPort Port.init;
            OLifetime Lifetime.init;
            OAdaptationService AdaptationService.init]).
  reflexivity.
Defined.

Lemma getNML_insert_same_method (h : heap) a o o' :
  h !! a = Some o ->
  (forall rec, getNML_method rec o' = getNML_method rec o) ->
  forall fuel root, getNML fuel (<[a := o']> h) root = getNML fuel h root.
Proof.
  intros Ha Hm. induction fuel as [|n IH]; intros root; [done |].
  rewrite !getNML_unfold.
  destruct (decide (a = root)) as [<-|Hne].
  - rewrite (lookup_store _ _ _ _ Ha), Ha, Hm.
    by apply getNML_method_ext.
  - rewrite list_lookup_insert_ne by done.
    destruct (h !! root); [| done]. by apply getNML_method_ext.
Qed.

(** X4.  What is stored but never written to a document: [has_label] and
    [is_serial_compound_link] of a [Link], [provides_port] of the two
    adaptation services, and every setter of [PortGroup], [LinkGroup],
    [BidirectionalPort] and [BidirectionalLink].  After such a call the
    serialization of every object of the store is what it was before. *)
Theorem unserialized_calls_change_no_document
  (is_valid_uri : string -> bool) (c : call) (h : heap) :
  unserialized c = true ->
  forall fuel root,
    getNML fuel (exec is_valid_uri c h).2 root = getNML fuel h root.
Proof.
  intros Hu.
  destruct (exec_cases is_valid_uri c h)
    as [[e ->]|(o & o' & Ho & -> & _ & _ & Hm)]; cbn [snd]; [done |].
  apply getNML_insert_same_method with o; [done | by apply Hm].
Qed.

Lemma unserialized_calls_change_no_document_witness :
  getNML 2
    (exec has_scheme (c_BidirectionalPort_has_port 0 1 2)
       [OBidirectionalPort BidirectionalPort.init; OPort Port.init;
        OPort Port.init]).2 0
  = getNML 2
      [OBidirectionalPort BidirectionalPort.init; OPort Port.init;
       OPort Port.init] 0.
Proof.
  apply (unserialized_calls_change_no_document has_scheme
           (c_BidirectionalPort_has_port 0 1 2)
           [OBidirectionalPort BidirectionalPort.init; OPort Port.init;
            OPort Port.init]).
  reflexivity.
Defined.

(** ** Attributes and children, exactly *)

Lemma dict_get_app {V} k (d1 d2 : list (string * V)) :
  dict_get k (d1 ++ d2)
  = match dict_get k d1 with Some v => Some v | None => dict_get k d2 end.
Proof.
  induction d1 as [|[k' v'] d1 IH]; simpl; [done |].
  by destruct (String.eqb k k').
Qed.

Lemma dict_get_present k k' v :
  dict_get k (present k' v)
  = if String.eqb k k'
    then (if truthy v then VStr <$> v else None) else None.
Proof.
  unfold present. destruct v as [s|]; [| by destruct (String.eqb k k')].
  destruct (truthy (Some s)); simpl; by destruct (String.eqb k k').
Qed.

Lemma dict_get_flag k k' b :
  dict_get k (flag k' b)
  = if String.eqb k k'
    then (if b then Some (VStr "True") else None) else None.
Proof. unfold flag. destruct b; simpl; by destruct (String.eqb k k'). Qed.

Lemma dict_set_fresh {V} k (v : V) d :
  dict_get k d = None -> dict_set k v d = d ++ [(k, v)].
Proof.
  induction d as [|[k' v'] d IH]; simpl; [done |].
  destruct (String.eqb k k'); [done |]. intros H. by rewrite IH.
Qed.

Lemma attrib_attrib_if k v e :
  dict_get k (attrib e) = None ->
  attrib (attrib_if k v e) = attrib e ++ present k v.
Proof.
  intros H. unfold attrib_if, present. destruct v as [s|].
  - destruct (truthy (Some s)); [| by rewrite app_nil_r].
    destruct e; simpl in *. by apply dict_set_fresh.
  - by rewrite app_nil_r.
Qed.

Lemma attrib_flag k (b : bool) e :
  dict_get k (attrib e) = None ->
  attrib (if b then set_attrib k (str_bool b) e else e)
  = attrib e ++ flag k b.
Proof.
  intros H. unfold flag. destruct b; [| by rewrite app_nil_r].
  destruct e; simpl in *. by apply dict_set_fresh.
Qed.

Lemma children_set_attrib k v e : children (set_attrib k v e) = children e.
Proof. by destruct e. Qed.

Lemma dict_get_if_set_ne k k' (b : bool) v e :
  k <> k' ->
  dict_get k (attrib (if b then set_attrib k' v e else e))
  = dict_get k (attrib e).
Proof.
  intros Hne. destruct b; [| done]. destruct e; simpl.
  by apply dict_get_set_ne.
Qed.

Local Ltac fresh_key :=
  repeat first
    [ rewrite dict_get_attrib_if_ne by done
    | rewrite dict_get_if_set_ne by done ];
  try match goal with H : attrib _ = _ |- _ => rewrite H end;
  rewrite ?dict_get_app, ?dict_get_present, ?dict_get_flag; reflexivity.

Local Ltac attrs :=
  repeat first
    [ rewrite attrib_attrib_if by fresh_key
    | rewrite attrib_flag by fresh_key ];
  cbn [etree_Element attrib app keywords]; rewrite <- ?app_assoc.

Lemma NetworkObject_getNML_attrib rec cls b e :
  NetworkObject_getNML rec cls b = Ok e -> attrib e = NetworkObject_attrs b.
Proof.
  intros (_ & _ & -> & _)%NetworkObject_getNML_Ok.
  unfold NetworkObject_attrs. by attrs.
Qed.

Lemma getNML_method_attrib rec o e :
  getNML_method rec o = Ok e -> attrib e = attrs_of o.
Proof.
  intros H. destruct o; cbn [getNML_method attrs_of base_of] in *;
    try discriminate H;
    try (by eapply NetworkObject_getNML_attrib);
    try (injection H as <-;
         unfold Location_getNML, Lifetime_getNML, Label_getNML; cbv zeta;
         by attrs);
    unfold Node_getNML, Port_getNML, Link_getNML, SwitchingService_getNML,
      AdaptationService_getNML, DeadaptationService_getNML, Topology_getNML
      in H; cbv zeta in H;
    apply obind_Ok in H as (e0 & H0 & H);
    apply NetworkObject_getNML_attrib in H0;
    repeat match goal with
      | H : obind _ _ = Ok _ |- _ =>
          let a := fresh "this" in
          let E := fresh "E" in
          apply obind_Ok in H as (a & E & H)
      | H : Ok _ = Ok _ |- _ => injection H as <-
      | H : relation_loop _ _ _ _ = Ok ?e |- _ =>
          apply relation_loop_Ok in H as (_ & H & _); rewrite H; clear H
      | H : nested_loop _ _ _ = Ok ?e |- _ =>
          apply nested_loop_Ok in H as (_ & H & _); rewrite H; clear H
      | H : relation_if _ _ _ _ = Ok ?e |- _ =>
          apply relation_if_Ok in H as (_ & H); rewrite H; clear H
      end.
  all: try done.
  all: unfold NetworkObject_attrs in *.
  all: repeat first
    [ rewrite attrib_attrib_if by fresh_key
    | rewrite attrib_flag by fresh_key ].
  all: rewrite H0, <- ?app_assoc; done.
Qed.

Section SerializerLinks.
Variable rec : addr -> outcome element.

Lemma serialized_nil c : serialized rec [] c c.
Proof. exists []. split; [constructor | by rewrite app_nil_r]. Qed.

Lemma serialized_app ls1 ls2 c0 c1 c2 :
  serialized rec ls1 c0 c1 -> serialized rec ls2 c1 c2 ->
  serialized rec (ls1 ++ ls2) c0 c2.
Proof.
  intros (cs1 & F1 & ->) (cs2 & F2 & ->). exists (cs1 ++ cs2).
  split; [by apply Forall2_app |].
  rewrite zip_with_app by (by eapply Forall2_length).
  by rewrite app_assoc.
Qed.

Lemma serialized_wrapped ty coll cs c0 :
  Forall2 (fun x c => rec x = Ok c) coll cs ->
  serialized rec (wrapped ty coll) c0 (c0 ++ map (Relation ty) cs).
Proof.
  intros F. exists cs. split.
  - unfold wrapped. by apply Forall2_fmap_l.
  - f_equal. unfold wrapped. clear c0.
    induction F as [|x c coll cs _ _ IH]; [done |].
    simpl. by rewrite IH.
Qed.

Lemma serialized_nested coll cs c0 :
  Forall2 (fun x c => rec x = Ok c) coll cs ->
  serialized rec (nested coll) c0 (c0 ++ cs).
Proof.
  intros F. exists cs. split.
  - unfold nested. by apply Forall2_fmap_l.
  - f_equal. unfold nested. clear c0.
    induction F as [|x c coll cs _ _ IH]; [done |].
    simpl. by rewrite <- IH.
Qed.

Lemma relation_loop_links ty coll this this' :
  relation_loop rec ty coll this = Ok this' ->
  serialized rec (wrapped ty coll) (children this) (children this').
Proof.
  intros (cs & F & ->)%relation_loop_children. by apply serialized_wrapped.
Qed.

Lemma nested_loop_links coll this this' :
  nested_loop rec coll this = Ok this' ->
  serialized rec (nested coll) (children this) (children this').
Proof.
  intros (cs & F & ->)%nested_loop_children. by apply serialized_nested.
Qed.

Lemma relation_if_links ty x this this' :
  relation_if rec ty x this = Ok this' ->
  serialized rec (wrapped ty (option_list x)) (children this)
    (children this').
Proof.
  intros (cs & F & ->)%relation_if_children. by apply serialized_wrapped.
Qed.

Local Ltac links_chain :=
  repeat match goal with
    | H : obind _ _ = Ok _ |- _ =>
        let a := fresh "this" in
        let E := fresh "E" in
        apply obind_Ok in H as (a & E & H)
    | H : Ok _ = Ok _ |- _ => injection H as <-
    | H : relation_loop _ _ _ _ = Ok _ |- _ => apply relation_loop_links in H
    | H : nested_loop _ _ _ = Ok _ |- _ => apply nested_loop_links in H
    | H : relation_if _ _ _ _ = Ok _ |- _ => apply relation_if_links in H
    | H : context [children (attrib_if _ _ _)] |- _ =>
        rewrite children_attrib_if in H
    | H : context [children (if ?b then _ else _)] |- _ => destruct b
    | H : context [children (set_attrib _ _ _)] |- _ =>
        rewrite children_set_attrib in H
    end;
  repeat match goal with
    | |- context [children (if ?b then _ else _)] => destruct b
    end;
  rewrite ?children_set_attrib, ?children_attrib_if;
  repeat (eapply serialized_app; [eassumption |]);
  first [ eassumption | apply serialized_nil ].

Lemma NetworkObject_getNML_links cls b e :
  NetworkObject_getNML rec cls b = Ok e ->
  serialized rec (NetworkObject_links b) [] (children e).
Proof.
  unfold NetworkObject_getNML, NetworkObject_links. cbv zeta. intros H.
  links_chain.
Qed.

Lemma getNML_method_links o e :
  getNML_method rec o = Ok e -> serialized rec (links o) [] (children e).
Proof.
  intros H. destruct o; cbn [getNML_method links base_of] in *;
    try discriminate H;
    try (by eapply NetworkObject_getNML_links);
    try (injection H as <-;
         unfold Location_getNML, Lifetime_getNML, Label_getNML; cbv zeta;
         rewrite !children_attrib_if; apply serialized_nil);
    unfold Node_getNML, Port_getNML, Link_getNML, SwitchingService_getNML,
      AdaptationService_getNML, DeadaptationService_getNML, Topology_getNML
      in H; cbv zeta in H;
    apply obind_Ok in H as (e0 & H0 & H);
    apply NetworkObject_getNML_links in H0.
  all: try (eapply serialized_app; [exact H0 |]); links_chain.
Qed.
End SerializerLinks.

Lemma links_refs o : (links o).*2 = refs_of o.
Proof.
  assert (forall ty coll, (wrapped ty coll).*2 = coll) as Hw.
  { intros ty coll. unfold wrapped. rewrite <- list_fmap_compose.
    apply list_fmap_id. }
  assert (forall coll, (nested coll).*2 = coll) as Hn.
  { intros coll. unfold nested. rewrite <- list_fmap_compose.
    apply list_fmap_id. }
  destruct o; cbn [links refs_of base_of]; try done;
    unfold NetworkObject_links, NetworkObject_refs;
    by rewrite ?fmap_app, ?Hw, ?Hn.
Qed.

(** ** When a serializer does not return, and what it reads *)

Lemma getNML_method_Ok_refs rec o e :
  getNML_method rec o = Ok e -> Forall (fun x => is_Ok (rec x)) (refs_of o).
Proof.
  intros (cs & F & _)%getNML_method_links. rewrite <- links_refs.
  apply Forall_fmap. eapply Forall2_Forall_l; [exact F |].
  apply Forall_true. intros c l Hl. by exists c.
Qed.

Lemma getNML_method_has_getNML rec o e :
  getNML_method rec o = Ok e -> has_getNML o = true.
Proof. by destruct o. Qed.

Section SerializerFails.
Variable rec : addr -> outcome element.

Lemma obind_fails (r : outcome element) (k : element -> outcome element) r' :
  obind r k = r' -> ~ is_Ok r' -> r = r' \/ exists a, r = Ok a /\ k a = r'.
Proof. destruct r; simpl; intros <- Hn; eauto. Qed.

Lemma relation_loop_fails ty coll : forall this r,
  relation_loop rec ty coll this = r -> ~ is_Ok r ->
  exists x, x ∈ coll /\ rec x = r.
Proof.
  unfold relation_loop. induction coll as [|y coll IH]; intros this r H Hn.
  - simpl in H. subst r. destruct Hn. by eexists.
  - simpl in H. destruct (rec y) as [c| |] eqn:Hy; simpl in H.
    + destruct (IH _ _ H Hn) as (x & Hx & E). exists x.
      split; [by right | done].
    + exists y. split; [by left | congruence].
    + exists y. split; [by left | congruence].
Qed.

Lemma nested_loop_fails coll : forall this r,
  nested_loop rec coll this = r -> ~ is_Ok r ->
  exists x, x ∈ coll /\ rec x = r.
Proof.
  unfold nested_loop. induction coll as [|y coll IH]; intros this r H Hn.
  - simpl in H. subst r. destruct Hn. by eexists.
  - simpl in H. destruct (rec y) as [c| |] eqn:Hy; simpl in H.
    + destruct (IH _ _ H Hn) as (x & Hx & E). exists x.
      split; [by right | done].
    + exists y. split; [by left | congruence].
    + exists y. split; [by left | congruence].
Qed.

Lemma relation_if_fails ty x this r :
  relation_if rec ty x this = r -> ~ is_Ok r ->
  exists y, y ∈ option_list x /\ rec y = r.
Proof.
  destruct x as [a|]; simpl; intros H Hn.
  - exists a. split; [by left |].
    destruct (rec a); simpl in H; [| done..]. subst r. destruct Hn.
    by eexists.
  - subst r. destruct Hn. by eexists.
Qed.

Local Ltac fails :=
  repeat match goal with
    | H : Ok _ = ?r, Hn : ~ is_Ok ?r |- _ =>
        destruct Hn; rewrite <- H; by eexists
    | H : obind _ _ = ?r, Hn : ~ is_Ok ?r |- _ =>
        apply obind_fails in H as [H|(? & ? & H)]; [| | exact Hn]
    | H : relation_loop _ _ _ _ = ?r, Hn : ~ is_Ok ?r |- _ =>
        apply relation_loop_fails in H as (? & ? & ?); [| exact Hn]
    | H : nested_loop _ _ _ = ?r, Hn : ~ is_Ok ?r |- _ =>
        apply nested_loop_fails in H as (? & ? & ?); [| exact Hn]
    | H : relation_if _ _ _ _ = ?r, Hn : ~ is_Ok ?r |- _ =>
        apply relation_if_fails in H as (? & ? & ?); [| exact Hn]
    end.

Lemma NetworkObject_getNML_fails cls b r :
  NetworkObject_getNML rec cls b = r -> ~ is_Ok r ->
  exists x, x ∈ NetworkObject_refs b /\ rec x = r.
Proof.
  unfold NetworkObject_getNML, NetworkObject_refs. cbv zeta. intros H Hn.
  fails; eexists; (split; [| eassumption]); rewrite ?elem_of_app; auto.
Qed.

Lemma getNML_method_fails o r :
  getNML_method rec o = r -> ~ is_Ok r ->
  (has_getNML o = false /\ r = Raise AttributeError) \/
  exists x, x ∈ refs_of o /\ rec x = r.
Proof.
  intros H Hn.
  destruct o; cbn [getNML_method refs_of base_of has_getNML] in *;
    try (by left);
    try (by right; eapply NetworkObject_getNML_fails);
    try (destruct Hn; rewrite <- H; by eexists);
    right;
    unfold Node_getNML, Port_getNML, Link_getNML, SwitchingService_getNML,
      AdaptationService_getNML, DeadaptationService_getNML, Topology_getNML
      in H; cbv zeta in H;
    (apply obind_fails in H as [H|(e0 & _ & H)]; [| | exact Hn]);
    try (apply NetworkObject_getNML_fails in H as (y & Hy & E);
         [| exact Hn]; exists y; split; [| exact E];
         rewrite ?elem_of_app; auto).
  all: fails; eexists; (split; [| eassumption]); rewrite ?elem_of_app; auto 10.
Qed.
End SerializerFails.

Section SerializerReads.
Variables rec rec' : addr -> outcome element.

Lemma ofold_ext_in {A B} (body body' : B -> A -> outcome B) l :
  (forall acc x, x ∈ l -> body acc x = body' acc x) ->
  forall acc, ofold body acc l = ofold body' acc l.
Proof.
  induction l as [|y l IH]; intros H acc; [done |].
  simpl. rewrite H by by left. destruct (body' acc y); simpl; [| done..].
  apply IH. intros acc' x Hx. apply H. by right.
Qed.

Lemma relation_loop_ext_in ty coll this :
  (forall x, x ∈ coll -> rec x = rec' x) ->
  relation_loop rec ty coll this = relation_loop rec' ty coll this.
Proof.
  intros H. unfold relation_loop. apply ofold_ext_in.
  intros acc x Hx. by rewrite H.
Qed.

Lemma nested_loop_ext_in coll this :
  (forall x, x ∈ coll -> rec x = rec' x) ->
  nested_loop rec coll this = nested_loop rec' coll this.
Proof.
  intros H. unfold nested_loop. apply ofold_ext_in.
  intros acc x Hx. by rewrite H.
Qed.

Lemma relation_if_ext_in ty x this :
  (forall y, y ∈ option_list x -> rec y = rec' y) ->
  relation_if rec ty x this = relation_if rec' ty x this.
Proof.
  intros H. destruct x as [a|]; simpl; [| done]. rewrite H; [done |].
  by left.
Qed.

Lemma obind_ext {A B} (r r' : outcome A) (k k' : A -> outcome B) :
  r = r' -> (forall a, k a = k' a) -> obind r k = obind r' k'.
Proof. intros -> H. destruct r'; simpl; [apply H | done..]. Qed.

Local Ltac reads H :=
  repeat first
    [ reflexivity
    | apply obind_ext; [| intros ?]
    | apply relation_loop_ext_in; intros ? ?; apply H;
      rewrite ?elem_of_app; auto 10
    | apply nested_loop_ext_in; intros ? ?; apply H;
      rewrite ?elem_of_app; auto 10
    | apply relation_if_ext_in; intros ? ?; apply H;
      rewrite ?elem_of_app; auto 10 ].

Lemma NetworkObject_getNML_ext_in cls b :
  (forall x, x ∈ NetworkObject_refs b -> rec x = rec' x) ->
  NetworkObject_getNML rec cls b = NetworkObject_getNML rec' cls b.
Proof.
  unfold NetworkObject_getNML, NetworkObject_refs. cbv zeta. intros H.
  reads H.
Qed.

Lemma getNML_method_ext_in o :
  (forall x, x ∈ refs_of o -> rec x = rec' x) ->
  getNML_method rec o = getNML_method rec' o.
Proof.
  intros H. destruct o; cbn [getNML_method refs_of base_of] in *;
    try done; try (by apply NetworkObject_getNML_ext_in);
    unfold Node_getNML, Port_getNML, Link_getNML, SwitchingService_getNML,
      AdaptationService_getNML, DeadaptationService_getNML, Topology_getNML;
    cbv zeta;
    (apply obind_ext;
     [apply NetworkObject_getNML_ext_in; intros ? ?; apply H;
      rewrite ?elem_of_app; auto | intros ?]);
    reads H.
Qed.
End SerializerReads.

Lemma reach_trans h a b c : reach h a b -> reach h b c -> reach h a c.
Proof.
  induction 1 as [|a o b' c' Ha Hb _ IH]; [done |].
  intros Hc. eapply reach_step; [done | done | by apply IH].
Qed.

Lemma reach_ref h a o b :
  h !! a = Some o -> b ∈ refs_of o -> reach h a b.
Proof. intros Ha Hb. eapply reach_step; [done | done | apply reach_refl]. Qed.

Lemma getNML_trapped (h : heap) (trap : list addr) :
  (forall a, a ∈ trap ->
     exists o b, h !! a = Some o /\ b ∈ refs_of o /\ b ∈ trap) ->
  forall fuel a, a ∈ trap -> ~ is_Ok (getNML fuel h a).
Proof.
  intros Ht. induction fuel as [|n IH]; intros a Ha [e He]; [done |].
  rewrite getNML_unfold in He.
  destruct (Ht a Ha) as (o & b & Ho & Hb & Hbt). rewrite Ho in He.
  apply getNML_method_Ok_refs in He.
  rewrite list.Forall_forall in He. by apply (IH b Hbt), He.
Qed.

(** ** The document of an object, part by part *)

Lemma getNML_attrib_exact fuel h a e :
  getNML fuel h a = Ok e ->
  exists o, h !! a = Some o /\ attrib e = attrs_of o.
Proof.
  destruct fuel as [|n]; [done |]. rewrite getNML_unfold.
  destruct (h !! a) as [o|]; [| done]. intros H. exists o.
  split; [done | by eapply getNML_method_attrib].
Qed.

(** X5.  The attributes of the element [getNML] returns for an object,
    all of them and in order: first [nsmap], with the dictionary
    [NAMESPACES] as its value, which the element of every class but
    [Location], [Lifetime] and [Label] is created with; then the scalar
    fields of the object that are set and not empty, as strings, in the
    order the serializers write them: [id], [name], [version], then, by
    class, [encoding], [no_return_traffic], [label_swapping] (both written
    as [True], and only when set) or [adaptation_function]; for a
    [Location] [id], [name], [long], [lat], [alt], [unlocode], [address];
    for a [Lifetime] [start], [end]; for a [Label] [labeltype], [value]. *)
Theorem getNML_attributes (fuel : nat) (h : heap) (a : addr) (e : element) :
  getNML fuel h a = Ok e ->
  exists o, h !! a = Some o /\ attrib e = attrs_of o.
Proof.
  destruct fuel as [|n]; [done |]. rewrite getNML_unfold.
  destruct (h !! a) as [o|] eqn:Ha; [| done]. intros H. exists o.
  split; [done |]. by apply getNML_method_attrib with (getNML n h).
Qed.

Lemma getNML_attributes_witness :
  exists o,
    example_store !! 2 = Some o /\
    attrib
      (Element "Port"
         [("nsmap", VDict NAMESPACES); ("encoding", VStr "urn:enc")]
         [Relation "hasLabel" (Element "Label" [("value", VStr "7")] [])])
    = attrs_of o.
Proof.
  apply (getNML_attributes 2 example_store 2
           (Element "Port"
              [("nsmap", VDict NAMESPACES); ("encoding", VStr "urn:enc")]
              [Relation "hasLabel"
                 (Element "Label" [("value", VStr "7")] [])])).
  reflexivity.
Defined.

(** X6.  The children of the element [getNML] returns for an object are the
    elements of its related objects, one for each, in the order of the
    loops of its serializer (those of [NetworkObject.getNML] first: aliases,
    lifetimes, location), each inside a [Relation] of the type of its loop,
    or directly where the loop hands [this] to the child ([implementedBy]
    of a [Node], and every loop of the three services). *)
Theorem getNML_children_in_order
  (fuel : nat) (h : heap) (a : addr) (e : element) :
  getNML (S fuel) h a = Ok e ->
  exists o cs,
    h !! a = Some o /\
    Forall2 (fun l c => getNML fuel h l.2 = Ok c) (links o) cs /\
    children e = zip_with attach (links o) cs.
Proof.
  rewrite getNML_unfold. destruct (h !! a) as [o|]; [| done]. intros H.
  destruct (getNML_method_links _ _ _ H) as (cs & F & E).
  exists o, cs. split; [done |]. split; [done | exact E].
Qed.

Lemma getNML_children_in_order_witness :
  exists o cs,
    example_store !! 1 = Some o /\
    Forall2 (fun l c => getNML 2 example_store l.2 = Ok c) (links o) cs /\
    children
      (Element "Node" [("nsmap", VDict NAMESPACES); ("name", VStr "n")]
         [Relation "hasInboundPort"
            (Element "Port"
               [("nsmap", VDict NAMESPACES); ("encoding", VStr "urn:enc")]
               [Relation "hasLabel"
                  (Element "Label" [("value", VStr "7")] [])]);
          Relation "hasOutoundPort"
            (Element "Port"
               [("nsmap", VDict NAMESPACES); ("encoding", VStr "urn:enc")]
               [Relation "hasLabel"
                  (Element "Label" [("value", VStr "7")] [])])])
    = zip_with attach (links o) cs.
Proof.
  apply (getNML_children_in_order 2 example_store 1). reflexivity.
Defined.

(** X7.  A call of [getNML] returns exactly when the object has a [getNML]
    and the calls it makes on its related objects all return. *)
Theorem getNML_returns_iff (fuel : nat) (h : heap) (a : addr) :
  is_Ok (getNML (S fuel) h a) <->
  exists o,
    h !! a = Some o /\ has_getNML o = true /\
    Forall (fun x => is_Ok (getNML fuel h x)) (refs_of o).
Proof.
  rewrite getNML_unfold. split.
  - intros [e He]. destruct (h !! a) as [o|]; [| done]. exists o.
    split; [done |].
    split; [by eapply getNML_method_has_getNML
           | by eapply getNML_method_Ok_refs].
  - intros (o & -> & Hg & F). by apply getNML_method_total.
Qed.

(** X8.  The ways [getNML] fails.  It raises none of the exceptions of the
    module.  It raises [AttributeError], and then it has got, from the
    object it was called on, to an object without a [getNML] (a
    [LabelGroup], an [OrderedList] or a [ListItem]); in the embedding it
    may also have got to an address outside the store.  Or the recursion
    gets as deep as it may ([RecursionError] in Python, [Diverge] here),
    and then a chain of that many objects with a [getNML], each related to
    the next, starts at the object it was called on. *)
Theorem getNML_fails_in_two_ways (fuel : nat) (h : heap) (a : addr) :
  (forall x, getNML fuel h a = Raise x ->
     exists b,
       reach h a b /\
       match h !! b with
       | Some o => has_getNML o = false /\ x = AttributeError
       | None => x = NoSuchObject
       end) /\
  (getNML fuel h a = Diverge -> chain h fuel a).
Proof.
  revert a. induction fuel as [|n IH]; intros a.
  { split; [done |]. intros _. constructor. }
  rewrite getNML_unfold. destruct (h !! a) as [o|] eqn:Ha.
  - split.
    + intros x H.
      apply getNML_method_fails in H as [[Hg [= <-]]|(r & Hr & H)];
        [| | by intros [? ?]].
      * exists a. split; [apply reach_refl |]. by rewrite Ha.
      * destruct (proj1 (IH r) _ H) as (b & Hb & Hx). exists b.
        split; [by eapply reach_step | done].
    + intros H.
      assert (has_getNML o = true) as Hg by (by destruct o).
      apply getNML_method_fails in H as [[_ [=]]|(r & Hr & H)];
        [| by intros [? ?]].
      apply (chain_S h n a o r); [done | done | done | by apply IH].
  - split; [| done]. intros x [= <-]. exists a.
    split; [apply reach_refl |]. by rewrite Ha.
Qed.

Lemma getNML_fails_in_two_ways_witness :
  (exists b,
     reach (<[4 := OLabelGroup LabelGroup.init]> example_store) 1 b /\
     match (<[4 := OLabelGroup LabelGroup.init]> example_store) !! b with
     | Some o => has_getNML o = false /\ AttributeError = AttributeError
     | None => AttributeError = NoSuchObject
     end) /\
  chain example_store 5 8.
Proof.
  split.
  - apply (proj1 (getNML_fails_in_two_ways 3
                    (<[4 := OLabelGroup LabelGroup.init]> example_store) 1)
             AttributeError).
    reflexivity.
  - apply (proj2 (getNML_fails_in_two_ways 5 example_store 8)).
    reflexivity.
Defined.

(** X9.  Objects that relate to each other in a circle are never
    serialized: if every object of a set relates, for serialization, to an
    object of the set, [getNML] returns on none of them, however deep the
    recursion may go. *)
Theorem getNML_never_returns_in_a_circle (h : heap) (trap : list addr) :
  trapped h trap = true ->
  forall fuel, Forall (fun a => ~ is_Ok (getNML fuel h a)) trap.
Proof.
  intros Ht fuel. apply list.Forall_forall. intros a Ha.
  apply (getNML_trapped h trap); [| done].
  intros a' Ha'. unfold trapped in Ht. rewrite forallb_forall in Ht.
  specialize (Ht a' (proj1 (list_elem_of_In _ _) Ha')).
  destruct (h !! a') as [o|]; [| done].
  apply existsb_exists in Ht as (b & Hb%list_elem_of_In & Hbt).
  exists o, b. split; [done |]. split; [done |].
  by apply bool_decide_eq_true in Hbt.
Qed.

Lemma getNML_never_returns_in_a_circle_witness :
  Forall (fun a => ~ is_Ok (getNML 5 example_store a)) [8; 9].
Proof.
  apply (getNML_never_returns_in_a_circle example_store [8; 9]).
  reflexivity.
Defined.

(** Two objects that are aliases of each other. *)
Lemma is_alias_cycle_never_returns (h : heap) (a b : addr) oa ob ba bb :
  h !! a = Some oa -> base_of oa = Some ba ->
  h !! b = Some ob -> base_of ob = Some bb ->
  b ∈ NetworkObject.is_alias_network_objects ba ->
  a ∈ NetworkObject.is_alias_network_objects bb ->
  forall fuel, ~ is_Ok (getNML fuel h a).
Proof.
  intros Ha Hba Hb Hbb Hab Hba' fuel.
  assert (forall o bo x, base_of o = Some bo ->
            x ∈ NetworkObject.is_alias_network_objects bo -> x ∈ refs_of o)
    as Hrefs.
  { intros o bo x Ho Hx.
    destruct o; simplify_eq/=; unfold NetworkObject_refs;
      rewrite ?elem_of_app; auto. }
  apply (getNML_trapped h [a; b]); [| by left].
  intros x [->|[->|[]%elem_of_nil]%elem_of_cons]%elem_of_cons.
  - exists oa, b. split; [done |]. split; [by eapply Hrefs |].
    right. by left.
  - exists ob, a. split; [done |]. split; [by eapply Hrefs | by left].
Qed.

Lemma reach_closed (h : heap) (S : list addr) a b :
  closed h S = true -> reach h a b -> a ∈ S -> b ∈ S.
Proof.
  intros Hc. induction 1 as [|a o b' c Ha Hb _ IH]; [done |].
  intros HaS. apply IH. unfold closed in Hc. rewrite forallb_forall in Hc.
  specialize (Hc a (proj1 (list_elem_of_In _ _) HaS)). rewrite Ha in Hc.
  rewrite forallb_forall in Hc.
  specialize (Hc b' (proj1 (list_elem_of_In _ _) Hb)).
  by apply bool_decide_eq_true in Hc.
Qed.

(** X10.  [getNML] reads the objects it gets to from the object it is called
    on, and no others: two stores that hold the same objects at those
    addresses give the same answer. *)
Theorem getNML_reads_what_it_reaches
  (fuel : nat) (h h' : heap) (a : addr) :
  (forall b, reach h a b -> h' !! b = h !! b) ->
  getNML fuel h' a = getNML fuel h a.
Proof.
  revert a. induction fuel as [|n IH]; intros a H; [done |].
  rewrite !getNML_unfold, (H a (reach_refl h a)).
  destruct (h !! a) as [o|] eqn:Ha; [| done].
  apply getNML_method_ext_in. intros x Hx. apply IH.
  intros b Hb. apply H. by eapply reach_step.
Qed.

Lemma getNML_reads_what_it_reaches_witness :
  getNML 3
    (<[1 := ONode Node.init]> (<[7 := OListItem]> example_store)) 2
  = getNML 3 example_store 2.
Proof.
  apply (getNML_reads_what_it_reaches 3 example_store
           (<[1 := ONode Node.init]> (<[7 := OListItem]> example_store)) 2).
  intros b Hb.
  apply (reach_closed example_store [2; 4]) in Hb;
    [| reflexivity | by left].
  apply elem_of_cons in Hb as [->|Hb]; [reflexivity |].
  apply elem_of_cons in Hb as [->|Hb]; [reflexivity |].
  by apply elem_of_nil in Hb.
Defined.

(** X11.  [getNML(parent)] with a parent element: the element it builds is
    the one it builds without a parent, made the last child of [parent];
    the children the parent had, and every other element that existed,
    are as they were.  When the call without a parent raises, so does the
    call with one. *)
Theorem getNML_under_a_parent
  (fuel : nat) (h : heap) (a : addr) (p : nat) (s : estore) :
  p < length s ->
  (forall e, getNML fuel h a = Ok e ->
     exists s',
       getNML_in_place fuel h a (Some p) s = (Ok (length s), s') /\
       s' !! p = Etree.append (length s) <$> s !! p /\
       (forall i, i < length s -> i <> p -> s' !! i = s !! i) /\
       tree s' (length s') (length s) e) /\
  (forall x, getNML fuel h a = Raise x ->
     (getNML_in_place fuel h a (Some p) s).1 = Raise x).
Proof.
  intros Hp.
  pose proof (getNML_in_place_refines fuel h a (Some p) s) as H.
  unfold done_as in H. split.
  - intros e He. rewrite He in H.
    destruct H as (s' & R & F & T); [by intros ? [= <-] |].
    exists s'. split; [done |]. split.
    { rewrite (F p Hp). by rewrite decide_True. }
    split; [| done]. intros i Hi Hne. rewrite (F i Hi).
    rewrite decide_False; [done |]. by intros [= ->].
  - intros x Hx. rewrite Hx in H.
    destruct H as (s' & R); [by intros ? [= <-] |]. by rewrite R.
Qed.

Lemma getNML_under_a_parent_witness :
  (forall e, getNML 2 example_store 2 = Ok e ->
     exists s',
       getNML_in_place 2 example_store 2 (Some 0)
         [Etree.mk "Relation" [("type", VStr "hasPort")] []]
       = (Ok 1, s') /\
       s' !! 0 = Etree.append 1
                   <$> [Etree.mk "Relation" [("type", VStr "hasPort")] []]
                       !! 0 /\
       (forall i, i < 1 -> i <> 0 ->
          s' !! i = [Etree.mk "Relation" [("type", VStr "hasPort")] []] !! i)
       /\ tree s' (length s') 1 e) /\
  (forall x, getNML 2 example_store 2 = Raise x ->
     (getNML_in_place 2 example_store 2 (Some 0)
        [Etree.mk "Relation" [("type", VStr "hasPort")] []]).1 = Raise x).
Proof.
  apply (getNML_under_a_parent 2 example_store 2 0
           [Etree.mk "Relation" [("type", VStr "hasPort")] []]).
  simpl. lia.
Defined.

(** ** The relations a setter adds or replaces *)

Lemma serialized_elem_of rec ls cs0 cs l :
  serialized rec ls cs0 cs -> l ∈ ls ->
  exists c, rec l.2 = Ok c /\ attach l c ∈ cs.
Proof.
  intros (es & F & ->) [i Hi]%list_elem_of_lookup.
  destruct (Forall2_lookup_l _ _ _ _ _ F Hi) as (c & Hc & Hr).
  exists c. split; [done |]. apply elem_of_app. right.
  apply list_elem_of_lookup. exists i.
  rewrite lookup_zip_with, Hi. simpl. by rewrite Hc.
Qed.

Lemma serialized_inv rec ls cs c' :
  serialized rec ls [] cs -> c' ∈ cs ->
  exists l c, l ∈ ls /\ rec l.2 = Ok c /\ c' = attach l c.
Proof.
  intros (es & F & ->) [i Hi]%list_elem_of_lookup. simpl in Hi.
  rewrite lookup_zip_with in Hi.
  destruct (ls !! i) as [l|] eqn:Hl; [| done]. simpl in Hi.
  destruct (es !! i) as [c|] eqn:Hc; [| done]. simpl in Hi.
  injection Hi as <-. exists l, c.
  split; [by eapply list_elem_of_lookup_2 |]. split; [| done].
  by eapply Forall2_lookup_lr in F.
Qed.

Lemma Relation_inj ty ty' c c' :
  Relation ty c = Relation ty' c' -> ty = ty' /\ c = c'.
Proof. by intros [= -> ->]. Qed.

(** The child a [Relation] of type [ty] wraps is the element of an object
    the serializer relates by [ty]; an element attached directly is no
    [Relation]. *)
Lemma getNML_Relation_child fuel h a o e ty c' :
  h !! a = Some o -> getNML (S fuel) h a = Ok e ->
  Relation ty c' ∈ children e ->
  exists x, (Some ty, x) ∈ links o /\ getNML fuel h x = Ok c'.
Proof.
  intros Ha He Hin. rewrite getNML_unfold, Ha in He.
  apply getNML_method_links in He.
  destruct (serialized_inv _ _ _ _ He Hin) as ([[t|] x] & c & Hl & Hc & E);
    unfold attach in E; simpl in *.
  - apply Relation_inj in E as [<- <-]. by exists x.
  - apply getNML_tag in Hc as (ox & _ & Ht). rewrite <- E in Ht.
    by destruct (class_name_not_Relation ox).
Qed.

Lemma getNML_link_child fuel h a o e l :
  h !! a = Some o -> getNML (S fuel) h a = Ok e -> l ∈ links o ->
  exists c, getNML fuel h l.2 = Ok c /\ attach l c ∈ children e.
Proof.
  intros Ha He Hl. rewrite getNML_unfold, Ha in He.
  apply getNML_method_links in He. by eapply serialized_elem_of.
Qed.

Lemma links_set_base o b b' :
  base_of o = Some b ->
  exists rest,
    links o = NetworkObject_links b ++ rest /\
    links (set_base b' o) = NetworkObject_links b' ++ rest.
Proof.
  intros Hb. destruct o as [[]|[]|[]|[]|[]|[]|[]|[]|[]|[]|[]| | | | | |];
    simplify_eq/=; try (by eexists); exists []; by rewrite !app_nil_r.
Qed.

Lemma elem_of_wrapped ty ty' x coll :
  (Some ty, x) ∈ wrapped ty' coll <-> ty = ty' /\ x ∈ coll.
Proof.
  unfold wrapped. rewrite list_elem_of_fmap. split.
  - intros (y & [= -> ->] & Hy). done.
  - intros [-> Hx]. by exists x.
Qed.

Lemma elem_of_nested ty x coll : (Some ty, x) ∈ nested coll <-> False.
Proof.
  unfold nested. rewrite list_elem_of_fmap. split; [| done].
  by intros (y & [=] & _).
Qed.

Lemma elem_of_option_list_iff {A} (x : A) (mx : option A) :
  x ∈ option_list mx <-> mx = Some x.
Proof.
  destruct mx as [y|]; simpl.
  - rewrite list_elem_of_singleton. split; congruence.
  - rewrite elem_of_nil. split; [done | discriminate].
Qed.

(** The only [locatedAt] relation of an object is its location. *)
Lemma links_locatedAt o x :
  (Some "locatedAt", x) ∈ links o <->
  exists b, base_of o = Some b /\
            NetworkObject.located_at_location b = Some x.
Proof.
  destruct o as [[]|[]|[]|[]|[]|[]|[]|[]|[]|[]|[]| | | | | |];
    cbn [links base_of]; unfold NetworkObject_links;
    rewrite ?elem_of_app, ?elem_of_wrapped, ?elem_of_nested,
      ?elem_of_nil, ?elem_of_option_list_iff;
    (split;
     [ intros H; destruct_or? H; destruct_and? H; try discriminate;
       try done; by eexists
     | intros (b' & Hb & Hl); simplify_eq/=; auto 10 ]).
Qed.

Lemma links_hasLabel (p : Port.t) x :
  (Some "hasLabel", x) ∈ links (OPort p) <-> Port.has_label_label p = Some x.
Proof.
  destruct p; cbn [links]; unfold NetworkObject_links;
    rewrite ?elem_of_app, ?elem_of_wrapped, ?elem_of_nested,
      ?elem_of_nil, ?elem_of_option_list_iff;
    (split;
     [ intros H; destruct_or? H; destruct_and? H; try discriminate; done
     | intros H; auto 10 ]).
Qed.

Lemma links_existsDuring o b x :
  base_of o = Some b -> x ∈ NetworkObject.exists_during_lifetimes b ->
  (Some "existsDuring", x) ∈ links o.
Proof.
  intros Hb Hx. destruct (links_set_base o b b Hb) as (rest & -> & _).
  unfold NetworkObject_links.
  rewrite !elem_of_app, !elem_of_wrapped. auto.
Qed.

Lemma getNML_Lifetime fuel h a x e :
  h !! a = Some (OLifetime x) -> getNML fuel h a = Ok e ->
  e = Lifetime_getNML x.
Proof.
  intros Ha. destruct fuel as [|n]; [done |]. rewrite getNML_unfold, Ha.
  by intros [= <-].
Qed.

(** X12.  [exists_during] takes a [Lifetime] and nothing else.  Given one,
    it appends it to the lifetimes of the object, whatever its class, and
    every serialization of the object that then returns holds a [Relation]
    of type [existsDuring] around the element of the lifetime; the
    serialization returns when the store has no cycle and nothing that
    cannot be serialized.  Given an object of another class it raises
    [ExistsDuringError] and the store is what it was. *)
Theorem exists_during_validates
  (h : heap) (self lifetime : addr) (o l : obj) (b : NetworkObject.t) :
  h !! self = Some o -> base_of o = Some b -> h !! lifetime = Some l ->
  (forall x, l = OLifetime x ->
   exists h',
     NetworkObject_exists_during self lifetime h = (Ok tt, h') /\
     h' = <[self := set_base
                      (NetworkObject.set_exists_during_lifetimes
                         (NetworkObject.exists_during_lifetimes b
                          ++ [lifetime]) b) o]> h /\
     (forall fuel e, getNML fuel h' self = Ok e ->
        Relation "existsDuring" (Lifetime_getNML x) ∈ children e) /\
     (forall rank, ranked rank h' = true ->
        is_Ok (getNML (S (rank self)) h' self)))
  /\
  (class_name l <> "Lifetime" ->
   NetworkObject_exists_during self lifetime h
   = (Raise ExistsDuringError, h)).
Proof.
  intros Ha Hb Hl.
  unfold NetworkObject_exists_during, NetworkObject_method, mbind, load.
  rewrite Ha, Hb, Hl. split.
  - intros x ->. cbn [class_name String.eqb negb].
    set (b' := NetworkObject.set_exists_during_lifetimes _ b).
    exists (<[self := set_base b' o]> h).
    pose proof (lookup_store _ _ _ (set_base b' o) Ha) as Ha'.
    pose proof (base_of_set_base _ _ b' Hb) as Hb'.
    split; [done |]. split; [done |]. split.
    + intros [|n] e He; [done |].
      destruct (getNML_link_child _ _ _ _ _ (Some "existsDuring", lifetime)
                  Ha' He) as (c & Hc & Hin).
      { eapply links_existsDuring; [done |]. subst b'. simpl.
        apply elem_of_app. right. by apply list_elem_of_singleton. }
      simpl in Hc. apply getNML_Lifetime with (x := x) in Hc; [by subst c |].
      rewrite list_lookup_insert_ne; [done |].
      intros <-. rewrite Ha in Hl. by simplify_eq.
    + intros rank Hr. eapply getNML_ranked; [done | lia | done |].
      by eapply has_getNML_base.
  - intros Hne%String.eqb_neq. by rewrite Hne.
Qed.

Lemma exists_during_validates_witness :
  (forall x, OLifetime (Lifetime.mk (Some "2024") None) = OLifetime x ->
   exists h',
     NetworkObject_exists_during 2 5 example_store = (Ok tt, h') /\
     h' = <[2 := set_base
                   (NetworkObject.set_exists_during_lifetimes
                      (NetworkObject.exists_during_lifetimes
                         NetworkObject.init ++ [5]) NetworkObject.init)
                   (OPort (Port.mk NetworkObject.init (Some 4) [] [] []
                             (Some "urn:enc")))]> example_store /\
     (forall fuel e, getNML fuel h' 2 = Ok e ->
        Relation "existsDuring" (Lifetime_getNML x) ∈ children e) /\
     (forall rank, ranked rank h' = true -> is_Ok (getNML (S (rank 2)) h' 2)))
  /\
  (class_name (OLifetime (Lifetime.mk (Some "2024") None)) <> "Lifetime" ->
   NetworkObject_exists_during 2 5 example_store
   = (Raise ExistsDuringError, example_store)).
Proof.
  apply (exists_during_validates example_store 2 5
           (OPort (Port.mk NetworkObject.init (Some 4) [] [] []
                     (Some "urn:enc")))
           (OLifetime (Lifetime.mk (Some "2024") None)) NetworkObject.init);
    reflexivity.
Defined.

(** X13.  [locatedAt] takes any object and replaces the location the object
    had: in every serialization that then returns, the [Relation]s of type
    [locatedAt] are around the element of the new location and around no
    other. *)
Theorem locatedAt_replaces
  (h : heap) (self location : addr) (o : obj) (b : NetworkObject.t) :
  h !! self = Some o -> base_of o = Some b ->
  exists h',
    NetworkObject_locatedAt self location h = (Ok tt, h') /\
    h' = <[self := set_base
                     (NetworkObject.set_located_at_location (Some location)
                        b) o]> h /\
    forall fuel e, getNML (S fuel) h' self = Ok e ->
      exists c,
        getNML fuel h' location = Ok c /\
        forall c', Relation "locatedAt" c' ∈ children e <-> c' = c.
Proof.
  intros Ha Hb.
  unfold NetworkObject_locatedAt, NetworkObject_method, mbind, load, store.
  rewrite Ha, Hb.
  set (b' := NetworkObject.set_located_at_location _ b).
  exists (<[self := set_base b' o]> h).
  pose proof (lookup_store _ _ _ (set_base b' o) Ha) as Ha'.
  pose proof (base_of_set_base _ _ b' Hb) as Hb'.
  split; [done |]. split; [done |]. intros fuel e He.
  destruct (getNML_link_child _ _ _ _ _ (Some "locatedAt", location) Ha' He)
    as (c & Hc & Hin).
  { apply links_locatedAt. by exists b'. }
  exists c. split; [done |]. intros c'. split.
  - intros Hin'.
    destruct (getNML_Relation_child _ _ _ _ _ _ _ Ha' He Hin')
      as (x & (b'' & Hb'' & Hx)%links_locatedAt & Hc').
    rewrite Hb' in Hb''. injection Hb'' as <-. simpl in Hx.
    injection Hx as <-. simpl in Hc. congruence.
  - by intros ->.
Qed.

Lemma locatedAt_replaces_witness :
  exists h',
    NetworkObject_locatedAt 0 5 example_store = (Ok tt, h') /\
    h' = <[0 := set_base
                  (NetworkObject.set_located_at_location (Some 5)
                     (NetworkObject.mk [5] [] (Some 6)
                        (Some "urn:ogf:network:example.org:topology")
                        (Some "t") None))
                  (OTopology
                     (Topology.mk
                        (NetworkObject.mk [5] [] (Some 6)
                           (Some "urn:ogf:network:example.org:topology")
                           (Some "t") None)
                        [1] [] [2] [3] []))]> example_store /\
    forall fuel e, getNML (S fuel) h' 0 = Ok e ->
      exists c,
        getNML fuel h' 5 = Ok c /\
        forall c', Relation "locatedAt" c' ∈ children e <-> c' = c.
Proof.
  apply (locatedAt_replaces example_store 0 5
           (OTopology
              (Topology.mk
                 (NetworkObject.mk [5] [] (Some 6)
                    (Some "urn:ogf:network:example.org:topology")
                    (Some "t") None)
                 [1] [] [2] [3] []))
           (NetworkObject.mk [5] [] (Some 6)
              (Some "urn:ogf:network:example.org:topology") (Some "t")
              None));
    reflexivity.
Defined.

(** X14.  [has_label] of a [Port] takes any object and replaces the label
    the port had: in every serialization of the port that then returns, the
    [Relation]s of type [hasLabel] are around the element of the new label
    and around no other. *)
Theorem Port_has_label_replaces
  (h : heap) (self label : addr) (x : Port.t) :
  h !! self = Some (OPort x) ->
  exists h',
    Port_has_label self label h = (Ok tt, h') /\
    h' = <[self := OPort (Port.set_has_label_label (Some label) x)]> h /\
    forall fuel e, getNML (S fuel) h' self = Ok e ->
      exists c,
        getNML fuel h' label = Ok c /\
        forall c', Relation "hasLabel" c' ∈ children e <-> c' = c.
Proof.
  intros Ha. unfold Port_has_label, Port_method, mbind, load, store.
  rewrite Ha.
  set (x' := Port.set_has_label_label _ x).
  exists (<[self := OPort x']> h).
  pose proof (lookup_store _ _ _ (OPort x') Ha) as Ha'.
  split; [done |]. split; [done |]. intros fuel e He.
  destruct (getNML_link_child _ _ _ _ _ (Some "hasLabel", label) Ha' He)
    as (c & Hc & Hin).
  { by apply links_hasLabel. }
  exists c. split; [done |]. intros c'. split.
  - intros Hin'.
    destruct (getNML_Relation_child _ _ _ _ _ _ _ Ha' He Hin')
      as (y & Hy%links_hasLabel & Hc').
    simpl in Hy. injection Hy as <-. simpl in Hc. congruence.
  - by intros ->.
Qed.

Lemma Port_has_label_replaces_witness :
  exists c,
    getNML 1
      (<[0 := OPort (Port.set_has_label_label (Some 2)
                       (Port.mk NetworkObject.init (Some 1) [] [] [] None))]>
         [OPort (Port.mk NetworkObject.init (Some 1) [] [] [] None);
          OLabel (Label.mk None (Some "7"));
          OLabel (Label.mk (Some "vlan") (Some "8"))]) 2 = Ok c /\
    forall c',
      Relation "hasLabel" c'
      ∈ children
          (Element "Port" [("nsmap", VDict NAMESPACES)]
             [Relation "hasLabel"
                (Element "Label"
                   [("labeltype", VStr "vlan"); ("value", VStr "8")] [])])
      <-> c' = c.
Proof.
  destruct (Port_has_label_replaces
              [OPort (Port.mk NetworkObject.init (Some 1) [] [] [] None);
               OLabel (Label.mk None (Some "7"));
               OLabel (Label.mk (Some "vlan") (Some "8"))]
              0 2 (Port.mk NetworkObject.init (Some 1) [] [] [] None)
              eq_refl) as (h' & _ & -> & H).
  apply (H 1). reflexivity.
Defined.

(** X15.  [can_provide_port] of a [DeadaptationService] checks nothing,
    unlike that of an [AdaptationService]: it appends whatever it is given.
    Every serialization of the service that then returns holds the element
    of that object as a child, not wrapped in a [Relation]; and when the
    object has no [getNML], no serialization of the service returns any
    more. *)
Theorem DeadaptationService_can_provide_port_unchecked
  (h : heap) (self port : addr) (x : DeadaptationService.t) :
  h !! self = Some (ODeadaptationService x) ->
  exists h',
    DeadaptationService_can_provide_port self port h = (Ok tt, h') /\
    h' = <[self := ODeadaptationService
                     (DeadaptationService.set_can_provide_port_ports
                        (DeadaptationService.can_provide_port_ports x
                         ++ [port]) x)]> h /\
    (forall fuel e, getNML (S fuel) h' self = Ok e ->
       exists c, getNML fuel h' port = Ok c /\ c ∈ children e /\
                 tag c <> "Relation") /\
    (forall o, h !! port = Some o -> has_getNML o = false ->
       forall fuel, ~ is_Ok (getNML fuel h' self)).
Proof.
  intros Ha.
  unfold DeadaptationService_can_provide_port, DeadaptationService_method,
    mbind, load, store.
  rewrite Ha.
  set (x' := DeadaptationService.set_can_provide_port_ports _ x).
  exists (<[self := ODeadaptationService x']> h).
  pose proof (lookup_store _ _ _ (ODeadaptationService x') Ha) as Ha'.
  assert ((None, port) ∈ links (ODeadaptationService x')) as Hl.
  { cbn [links]. rewrite !elem_of_app. right. left.
    unfold nested. apply list_elem_of_fmap. exists port.
    split; [done |]. subst x'. simpl. apply elem_of_app. right.
    by apply list_elem_of_singleton. }
  split; [done |]. split; [done |]. split.
  - intros fuel e He.
    destruct (getNML_link_child _ _ _ _ _ _ Ha' He Hl) as (c & Hc & Hin).
    exists c. split; [done |]. split; [done |].
    apply getNML_tag in Hc as (oc & _ & ->).
    apply class_name_not_Relation.
  - intros o Ho Hg [|n] [e He]; [done |].
    destruct (getNML_link_child _ _ _ _ _ _ Ha' He Hl) as (c & Hc & _).
    simpl in Hc. destruct n as [|m]; [done |].
    rewrite getNML_unfold in Hc.
    rewrite list_lookup_insert_ne in Hc.
    + rewrite Ho in Hc. apply getNML_method_has_getNML in Hc. congruence.
    + intros <-. rewrite Ha in Ho. by simplify_eq.
Qed.

Lemma DeadaptationService_can_provide_port_unchecked_witness :
  exists h',
    DeadaptationService_can_provide_port 3 7 example_store = (Ok tt, h') /\
    h' = <[3 := ODeadaptationService
                  (DeadaptationService.set_can_provide_port_ports
                     (DeadaptationService.can_provide_port_ports
                        (DeadaptationService.mk NetworkObject.init
                           (Some "f") [2] []) ++ [7])
                     (DeadaptationService.mk NetworkObject.init (Some "f")
                        [2] []))]> example_store /\
    (forall fuel e, getNML (S fuel) h' 3 = Ok e ->
       exists c, getNML fuel h' 7 = Ok c /\ c ∈ children e /\
                 tag c <> "Relation") /\
    (forall o, example_store !! 7 = Some o -> has_getNML o = false ->
       forall fuel, ~ is_Ok (getNML fuel h' 3)).
Proof.
  apply (DeadaptationService_can_provide_port_unchecked example_store 3 7
           (DeadaptationService.mk NetworkObject.init (Some "f") [2] [])).
  reflexivity.
Defined.

(** ** Calls, case by case *)

Ltac unfold_calls :=
  unfold NetworkObject_set_identification, NetworkObject_set_name,
    NetworkObject_set_version, NetworkObject_exists_during,
    NetworkObject_is_alias, NetworkObject_locatedAt, NetworkObject_method,
    Node_has_inbound_port, Node_has_outbound_port, Node_has_service,
    Node_implementedBy, Node_method,
    Port_set_encoding, Port_has_label, Port_has_service, Port_is_sink,
    Port_is_source, Port_method,
    Link_set_encoding, Link_set_no_return_traffic, Link_has_label,
    Link_is_serial_compound_link, Link_method,
    SwitchingService_set_encoding, SwitchingService_set_label_swapping,
    SwitchingService_has_inbound_port, SwitchingService_has_outbound_port,
    SwitchingService_provides_link, SwitchingService_method,
    AdaptationService_set_adaptation_function,
    AdaptationService_can_provide_port, AdaptationService_provides_port,
    AdaptationService_method,
    DeadaptationService_set_adaptation_function,
    DeadaptationService_can_provide_port,
    DeadaptationService_provides_port, DeadaptationService_method,
    Topology_has_node, Topology_has_inbound_port,
    Topology_has_outbound_port, Topology_has_service,
    Topology_has_topology, Topology_method,
    PortGroup_set_encoding, PortGroup_has_label_group, PortGroup_has_port,
    PortGroup_is_sink, PortGroup_is_source, PortGroup_method,
    LinkGroup_set_encoding, LinkGroup_has_label_group, LinkGroup_has_link,
    LinkGroup_is_serial_compound_link, LinkGroup_method,
    BidirectionalPort_set_encoding, BidirectionalPort_has_port,
    BidirectionalPort_method,
    BidirectionalLink_set_encoding, BidirectionalLink_has_link,
    BidirectionalLink_method,
    Location_set, Lifetime_set_start, Lifetime_set_end,
    Label_set_labeltype, Label_set_value,
    mbind, load, store, raise, lift, mret in *.


Ltac cases_in H :=
  repeat (cbv beta iota in H;
          match type of H with
          | context [match ?x with _ => _ end] =>
              lazymatch x with
              | context [match _ with _ => _ end] => fail
              | _ => destruct x eqn:?
              end
          end).

Local Ltac lookup_key :=
  cbn [attrs_of base_of set_base Location_assign Location_key];
  unfold NetworkObject_attrs;
  rewrite ?dict_get_app, ?dict_get_present, ?dict_get_flag;
  cbn;
  repeat match goal with
    | |- context [truthy ?v] => destruct (truthy v)
    | |- context [if ?b then _ else _] => destruct b
    end;
  reflexivity.

Section CallsWritten.
Variable is_valid_uri : string -> bool.

Lemma exec_written c h h' k v :
  written c = Some (k, v) -> exec is_valid_uri c h = (Ok tt, h') ->
  exists o o',
    h !! receiver c = Some o /\ h' = <[receiver c := o']> h /\
    dict_get k (attrs_of o') = VStr <$> (if truthy v then v else None).
Proof.
  destruct c; cbn [written]; try discriminate; intros [= <- <-];
    cbn [exec receiver]; unfold_calls;
    (destruct (h !! self) as [o|] eqn:Hself; [| discriminate]).
  all: destruct o as [[]|[]|[]|[]|[]|[]|[]|[]|[]|[]|[]|[]|[]|[]|[]| |];
    cbn [base_of]; try discriminate.
  all: try (destruct (is_valid_uri identification); [| discriminate]).
  all: intros [= <-]; eexists _, _; (split; [reflexivity |]);
    (split; [reflexivity |]).
  all: try (destruct f).
  all: try (destruct b).
  all: lookup_key.
Qed.
End CallsWritten.

(** X16.  An assignment to a scalar field that a serializer reads shows in
    the document: after [object.field = s] (for [identification], when the
    URI is accepted), the element of the object carries the attribute of
    that field with the value [s]; when [s] is empty, or the flag false, it
    carries no such attribute.  The keys are [id], [name], [version],
    [encoding], [no_return_traffic], [label_swapping],
    [adaptation_function], for a [Location] [long], [lat], [alt],
    [unlocode] and [address] too, for a [Lifetime] [start] and [end], for a
    [Label] [labeltype] and [value]. *)
Theorem scalar_setters_round_trip
  (is_valid_uri : string -> bool) (c : call) (h h' : heap)
  (k : string) (v : option string) (fuel : nat) (e : element) :
  written c = Some (k, v) ->
  exec is_valid_uri c h = (Ok tt, h') ->
  getNML fuel h' (receiver c) = Ok e ->
  dict_get k (attrib e) = VStr <$> (if truthy v then v else None).
Proof.
  intros Hw Hx He.
  destruct (exec_written _ _ _ _ _ _ Hw Hx) as (o & o' & Ho & -> & Hk).
  apply getNML_attrib_exact in He as (o'' & Ho'' & ->).
  rewrite (lookup_store _ _ _ _ Ho) in Ho''. by injection Ho'' as <-.
Qed.

Lemma scalar_setters_round_trip_witness :
  written (c_Location_set 6 Loc_longitude "2.5")
  = Some ("long", Some "2.5") /\
  exec has_scheme (c_Location_set 6 Loc_longitude "2.5") example_store
  = (Ok tt,
     <[6 := OLocation (Location.mk None (Some "here") (Some "2.5") None None
                         None None)]> example_store) /\
  dict_get "long"
    (attrib (Element "Location"
               [("name", VStr "here"); ("long", VStr "2.5")] []))
  = Some (VStr "2.5").
Proof.
  split; [reflexivity |]. split; [reflexivity |].
  apply (scalar_setters_round_trip has_scheme
           (c_Location_set 6 Loc_longitude "2.5") example_store
           (<[6 := OLocation (Location.mk None (Some "here") (Some "2.5")
                                None None None None)]> example_store)
           "long" (Some "2.5") 1
           (Element "Location"
              [("name", VStr "here"); ("long", VStr "2.5")] []));
    reflexivity.
Defined.




Section CallsCases.
Variable is_valid_uri : string -> bool.


End CallsCases.



(** X18.  Each exception of the module is raised by one method, for the
    reason its name gives: [IdError] by the [identification] setter of a
    network object, for a string that is no URI with a scheme;
    [ExistsDuringError] by [exists_during], for an object that is no
    [Lifetime]; [IsAliasError] by [is_alias], for two objects of different
    classes; [CanProvidePortError] by [can_provide_port] of an
    [AdaptationService], for an object that is neither a [Port] nor a
    [PortGroup].  No other setter raises any of them. *)
Theorem exceptions_raised_by
  (is_valid_uri : string -> bool) (c : call) (h h' : heap) (x : exn) :
  exec is_valid_uri c h = (Raise x, h') ->
  match x with
  | IdError =>
      exists self s, c = c_set_identification self s /\
                     is_valid_uri s = false
  | ExistsDuringError =>
      exists self lifetime l,
        c = c_exists_during self lifetime /\ h !! lifetime = Some l /\
        class_name l <> "Lifetime"
  | IsAliasError =>
      exists self other o n,
        c = c_is_alias self other /\ h !! self = Some o /\
        h !! other = Some n /\ class_name o <> class_name n
  | CanProvidePortError =>
      exists self port p,
        c = c_AdaptationService_can_provide_port self port /\
        h !! port = Some p /\ class_name p ∉ ["Port"; "PortGroup"]
  | AttributeError | NoSuchObject => True
  end.
Proof.
  intros H. destruct c; cbn [exec] in H; unfold_calls; unfold py_append in H;
    cases_in H; first [discriminate H | injection H as <- <-];
    try exact I.
  - eexists _, _. by split.
  - eexists _, _, _. split; [reflexivity |]. split; [eassumption |].
    by apply String.eqb_neq, negb_true_iff.
  - eexists _, _, _, _. split; [reflexivity |].
    split; [eassumption |]. split; [eassumption |].
    by apply String.eqb_neq, negb_true_iff.
  - eexists _, _, _. split; [reflexivity |]. split; [eassumption |].
    match goal with
    | H : negb _ = true |- _ =>
        apply negb_true_iff, bool_decide_eq_false in H; exact H
    end.
Qed.

Lemma exceptions_raised_by_witness :
  exists self other o n,
    c_is_alias 1 2 = c_is_alias self other /\
    example_store !! self = Some o /\ example_store !! other = Some n /\
    class_name o <> class_name n.
Proof.
  apply (exceptions_raised_by has_scheme (c_is_alias 1 2) example_store
           example_store IsAliasError).
  reflexivity.
Defined.

Lemma elem_of_nested_None x coll : (None, x) ∈ nested coll <-> x ∈ coll.
Proof.
  unfold nested. rewrite list_elem_of_fmap. split.
  - by intros (y & [= ->] & Hy).
  - intros Hx. by exists x.
Qed.

Local Ltac pick :=
  first [ done | split; [reflexivity | pick] | left; pick | right; pick ].

Section CallsRelated.
Variable is_valid_uri : string -> bool.

Lemma exec_related c h h' l :
  related c = Some l -> exec is_valid_uri c h = (Ok tt, h') ->
  exists o', h' !! receiver c = Some o' /\ l ∈ links o'.
Proof.
  intros Hl H.
  destruct c; cbn [related] in Hl; try discriminate Hl;
    injection Hl as <-; cbn [exec receiver] in *; unfold_calls;
    cases_in H; first [discriminate H | injection H as <-];
    (eexists; split; [by eapply lookup_store |]).
  all: try match goal with
         | H : base_of ?o = Some _ |- _ =>
             destruct o as [[]|[]|[]|[]|[]|[]|[]|[]|[]|[]|[]| | | | | |];
             try discriminate H; cbn [base_of] in H; injection H as <-
         end.
  all: cbn [links set_base base_of]; unfold NetworkObject_links;
    cbn;
    rewrite ?elem_of_app, ?elem_of_wrapped, ?elem_of_nested_None,
      ?elem_of_app, ?elem_of_option_list_iff, ?list_elem_of_singleton;
    pick.
Qed.
End CallsRelated.

(** X19.  A setter that relates its receiver to an object shows in the
    document: after the call (for the validated ones, when it is accepted),
    every element [getNML] returns for the receiver holds the element of
    the related object, inside a [Relation] of the type of the setter
    ([hasOutoundPort] for the outbound ports of a [Node]), or directly for
    [implementedBy] and for the setters of the three services. *)
Theorem relation_setters_round_trip
  (is_valid_uri : string -> bool) (c : call) (h h' : heap) (l : link)
  (fuel : nat) (e : element) :
  related c = Some l ->
  exec is_valid_uri c h = (Ok tt, h') ->
  getNML (S fuel) h' (receiver c) = Ok e ->
  exists child, getNML fuel h' l.2 = Ok child /\ attach l child ∈ children e.
Proof.
  intros Hl Hx He.
  destruct (exec_related _ _ _ _ _ Hl Hx) as (o' & Ho' & Hin).
  by eapply getNML_link_child.
Qed.

Lemma relation_setters_round_trip_witness :
  related (c_locatedAt 2 6) = Some (Some "locatedAt", 6) /\
  exec has_scheme (c_locatedAt 2 6) example_store
  = (Ok tt,
     <[2 := OPort
              (Port.mk
                 (NetworkObject.set_located_at_location (Some 6)
                    NetworkObject.init)
                 (Some 4) [] [] [] (Some "urn:enc"))]> example_store) /\
  exists child,
    getNML 1
      (<[2 := OPort
                (Port.mk
                   (NetworkObject.set_located_at_location (Some 6)
                      NetworkObject.init)
                   (Some 4) [] [] [] (Some "urn:enc"))]> example_store)
      (Some "locatedAt", 6).2 = Ok child /\
    attach (Some "locatedAt", 6) child
    ∈ children
        (Element "Port"
           [("nsmap", VDict NAMESPACES); ("encoding", VStr "urn:enc")]
           [Relation "locatedAt"
              (Element "Location" [("name", VStr "here"); ("long", VStr "1.0")]
                 []);
            Relation "hasLabel" (Element "Label" [("value", VStr "7")] [])]).
Proof.
  split; [reflexivity |]. split; [reflexivity |].
  apply (relation_setters_round_trip has_scheme (c_locatedAt 2 6)
           example_store
           (<[2 := OPort
                     (Port.mk
                        (NetworkObject.set_located_at_location (Some 6)
                           NetworkObject.init)
                        (Some 4) [] [] [] (Some "urn:enc"))]> example_store)
           (Some "locatedAt", 6) 1
           (Element "Port"
              [("nsmap", VDict NAMESPACES); ("encoding", VStr "urn:enc")]
              [Relation "locatedAt"
                 (Element "Location"
                    [("name", VStr "here"); ("long", VStr "1.0")] []);
               Relation "hasLabel"
                 (Element "Label" [("value", VStr "7")] [])]));
    reflexivity.
Defined.

(** ** Calls on different objects *)

Lemma class_at_Some (h1 h2 : heap) a o1 :
  class_at h1 a = class_at h2 a -> h1 !! a = Some o1 ->
  exists o2, h2 !! a = Some o2 /\ class_name o2 = class_name o1.
Proof.
  unfold class_at. intros H Ha. rewrite Ha in H. simpl in H.
  destruct (h2 !! a) as [o2|]; [| done]. exists o2.
  split; [done |]. by injection H.
Qed.

Lemma class_at_None (h1 h2 : heap) a :
  class_at h1 a = class_at h2 a -> h1 !! a = None -> h2 !! a = None.
Proof.
  unfold class_at. intros H Ha. rewrite Ha in H. simpl in H.
  by destruct (h2 !! a).
Qed.

Section CallsLocal.
Variable is_valid_uri : string -> bool.

(** What a call does depends on its receiver and, for the validated
    setters, on the class of its argument. *)
Lemma exec_local c (h1 h2 : heap) :
  h1 !! receiver c = h2 !! receiver c ->
  (forall a, class_at h1 a = class_at h2 a) ->
  (exists e, exec is_valid_uri c h1 = (Raise e, h1) /\
             exec is_valid_uri c h2 = (Raise e, h2)) \/
  (exists o', exec is_valid_uri c h1 = (Ok tt, <[receiver c := o']> h1) /\
              exec is_valid_uri c h2 = (Ok tt, <[receiver c := o']> h2)).
Proof.
  intros Hr Hc.
  destruct c; cbn [exec receiver] in *; unfold_calls; unfold py_append;
    rewrite <- Hr;
    (destruct (h1 !! self) as [o|] eqn:Hself; [| by left; eexists]);
    repeat (cbv beta iota;
            match goal with
            | |- context [h2 !! ?a] =>
                let Ha := fresh "Ha" in
                let E1 := fresh "E" in
                let E2 := fresh "E" in
                destruct (h1 !! a) as [?|] eqn:Ha;
                [ destruct (class_at_Some _ _ _ _ (Hc a) Ha)
                    as (? & E1 & E2);
                  rewrite E1; cbv beta iota; rewrite ?E2
                | rewrite (class_at_None _ _ _ (Hc a) Ha) ]
            | |- context [match ?x with _ => _ end] =>
                lazymatch x with
                | context [match _ with _ => _ end] => fail
                | _ => destruct x eqn:?
                end
            end);
    first [ by left; eexists | by right; eexists ].
Qed.

Lemma exec_after c1 c2 h :
  receiver c1 <> receiver c2 ->
  (exists e, exec is_valid_uri c2 h = (Raise e, h) /\
             exec is_valid_uri c2 (exec is_valid_uri c1 h).2
             = (Raise e, (exec is_valid_uri c1 h).2)) \/
  (exists o', exec is_valid_uri c2 h = (Ok tt, <[receiver c2 := o']> h) /\
              exec is_valid_uri c2 (exec is_valid_uri c1 h).2
              = (Ok tt, <[receiver c2 := o']> (exec is_valid_uri c1 h).2)).
Proof.
  intros Hne. apply exec_local.
  - destruct (exec_cases is_valid_uri c1 h)
      as [[e ->]|(o & o' & Ho & -> & _)]; cbn [snd]; [done |].
    symmetry. by apply list_lookup_insert_ne.
  - intros a.
    destruct (exec_cases is_valid_uri c1 h)
      as [[e ->]|(o & o' & Ho & -> & Hcl & _)]; cbn [snd]; [done |].
    symmetry. by eapply class_at_insert.
Qed.
End CallsLocal.

(** X20.  Calls on different objects do not interfere: made in either
    order, they end the same way (each returns, or raises what it raises
    when made alone) and leave the same store. *)
Theorem calls_on_different_objects_commute
  (is_valid_uri : string -> bool) (c1 c2 : call) (h : heap) :
  receiver c1 <> receiver c2 ->
  run is_valid_uri [c1; c2] h = run is_valid_uri [c2; c1] h /\
  (exec is_valid_uri c2 (exec is_valid_uri c1 h).2).1
  = (exec is_valid_uri c2 h).1 /\
  (exec is_valid_uri c1 (exec is_valid_uri c2 h).2).1
  = (exec is_valid_uri c1 h).1.
Proof.
  intros Hne. cbn [run foldl].
  destruct (exec_after is_valid_uri c1 c2 h Hne)
    as [(e2 & E2 & E2')|(o2 & E2 & E2')];
    destruct (exec_after is_valid_uri c2 c1 h (not_eq_sym Hne))
      as [(e1 & E1 & E1')|(o1 & E1 & E1')];
    rewrite E2', E1'; rewrite E1, E2; cbn [fst snd];
    (split; [| done]); try done.
  apply list_insert_insert_ne. by apply not_eq_sym.
Qed.

Lemma calls_on_different_objects_commute_witness :
  run has_scheme [c_is_alias 1 2; c_Port_has_label 2 7] example_store
  = run has_scheme [c_Port_has_label 2 7; c_is_alias 1 2] example_store /\
  (exec has_scheme (c_Port_has_label 2 7)
     (exec has_scheme (c_is_alias 1 2) example_store).2).1
  = (exec has_scheme (c_Port_has_label 2 7) example_store).1 /\
  (exec has_scheme (c_is_alias 1 2)
     (exec has_scheme (c_Port_has_label 2 7) example_store).2).1
  = (exec has_scheme (c_is_alias 1 2) example_store).1.
Proof.
  apply (calls_on_different_objects_commute has_scheme (c_is_alias 1 2)
           (c_Port_has_label 2 7) example_store).
  simpl. lia.
Defined.
